(** * Verification of the Sapien dataset converter

    A shallow embedding of [diffusion_policy/dataset/sapien_dataset.py]:
    the action canonicalizer [_convert_actions], the episode-to-store
    converter [_convert_sapein_to_dp_replay], the cache branch of
    [SapienDataset.__init__] and [SapienDataset.get_normalizer].

    Python exceptions are values of [exn]; a computation that may raise
    returns a [result].  NumPy arrays are a shape together with the
    row-major list of their elements. *)

From Stdlib Require Import QArith Qminmax Qabs.
From stdpp Require Import gmap strings list fin_maps pretty.

Open Scope string_scope.
Open Scope list_scope.
Open Scope nat_scope.

(** ** Exceptions and results *)

Inductive exn : Type :=
  | IndexError
  | KeyError (key : string)
  | ValueError
  | AssertionError
  | FileNotFoundError (path : string)
  | NotADirectoryError (path : string)
  | TypeError
  | OSError (msg : string)
  | RuntimeError (msg : string).

Inductive result (T : Type) : Type :=
  | Ok (v : T)
  | Raise (e : exn).
Arguments Ok {T} v.
Arguments Raise {T} e.

#[global] Instance result_bind : MBind result := fun _ _ k c =>
  match c with
  | Ok v => k v
  | Raise e => Raise e
  end.

(** [assert cond]: an [AssertionError] when the condition is false. *)
Definition assert (cond : bool) : result unit :=
  if cond then Ok tt else Raise AssertionError.

Definition is_ok {T : Type} (r : result T) : bool :=
  match r with Ok _ => true | Raise _ => false end.

(** A [for] loop whose body may raise: the first exception ends it. *)
Fixpoint foldM {S X : Type} (f : S -> X -> result S) (s : S) (l : list X)
  : result S :=
  match l with
  | [] => Ok s
  | x :: l' => s' ← f s x; foldM f s' l'
  end.

(** A list comprehension whose element expression may raise. *)
Fixpoint mapM_result {X Y : Type} (f : X -> result Y) (l : list X)
  : result (list Y) :=
  match l with
  | [] => Ok []
  | x :: l' => y ← f x; ys ← mapM_result f l'; Ok (y :: ys)
  end.

(** [d[key]] on a mapping: a [KeyError] when the key is absent. *)
Definition getitem {V : Type} (d : gmap string V) (key : string) : result V :=
  match d !! key with
  | Some v => Ok v
  | None => Raise (KeyError key)
  end.

(** ** Python dictionaries in insertion order *)

Module Dict.

Definition t (V : Type) : Type := list (string * V).

Fixpoint get {V} (d : t V) (key : string) : option V :=
  match d with
  | [] => None
  | (k, v) :: d' => if bool_decide (k = key) then Some v else get d' key
  end.

Definition contains {V} (d : t V) (key : string) : bool :=
  bool_decide (is_Some (get d key)).

(** [d[key] = v]: an existing key keeps its place, a new one goes last. *)
Fixpoint set {V} (d : t V) (key : string) (v : V) : t V :=
  match d with
  | [] => [(key, v)]
  | (k, v0) :: d' =>
      if bool_decide (k = key) then (k, v) :: d' else (k, v0) :: set d' key v
  end.

Definition getitem {V} (d : t V) (key : string) : result V :=
  match get d key with
  | Some v => Ok v
  | None => Raise (KeyError key)
  end.

End Dict.

(** ** Strings *)

(** [s.endswith(suffix)]. *)
Definition endswith (s suffix : string) : bool :=
  (String.length suffix <=? String.length s)
  && bool_decide
       (String.substring (String.length s - String.length suffix)
                  (String.length suffix) s = suffix).

(** [fnmatch(name, 'episode_*.hdf5')]: the star stands for any run of
    characters, the empty one included. *)
Definition matches_episode_pattern (name : string) : bool :=
  (String.length "episode_" + String.length ".hdf5" <=? String.length name)
  && String.prefix "episode_" name
  && endswith name ".hdf5".

(** [f'episode_{epi_idx}.hdf5']. *)
Definition episode_file_name (epi_idx : nat) : string :=
  "episode_" +:+ pretty epi_idx +:+ ".hdf5".

(** ** NumPy arrays *)

Module Np.

Record ndarray (A : Type) : Type := mk {
  shape : list nat;
  data : list A
}.
Arguments mk {A} shape data.
Arguments shape {A} _.
Arguments data {A} _.

(** Number of elements described by a shape. *)
Definition size_of (s : list nat) : nat := foldr Nat.mul 1 s.

Definition wf {A} (a : ndarray A) : Prop :=
  length (data a) = size_of (shape a).

(** A shape split into its leading dimensions and its last one. *)
Definition split_last (s : list nat) : option (list nat * nat) :=
  match reverse s with
  | [] => None
  | d :: l => Some (reverse l, d)
  end.

(** [a.shape[-1]]; a 0-d array has no last dimension. *)
Definition last_dim {A} (a : ndarray A) : result nat :=
  match split_last (shape a) with
  | Some (_, d) => Ok d
  | None => Raise IndexError
  end.

(** [a.shape[0]]. *)
Definition first_dim {A} (a : ndarray A) : result nat :=
  match shape a with
  | n :: _ => Ok n
  | [] => Raise IndexError
  end.

(** The first [n] rows of width [d] of a row-major element list. *)
Fixpoint chunks {A} (d n : nat) (l : list A) : list (list A) :=
  match n with
  | 0 => []
  | S n' => take d l :: chunks d n' (drop d l)
  end.

(** The rows of an array along its last axis. *)
Definition rows {A} (a : ndarray A) : list (list A) :=
  match split_last (shape a) with
  | Some (lead, d) => chunks d (size_of lead) (data a)
  | None => []
  end.

(** [a.reshape(-1, *tail)]: the free dimension is the element count
    divided by the product of the given ones, which has to divide it. *)
Definition reshape_infer {A} (a : ndarray A) (tail : list nat)
  : result (ndarray A) :=
  let n := size_of (shape a) in
  let t := size_of tail in
  if (t =? 0) then Raise ValueError
  else if (n mod t =? 0) then Ok (mk ((n / t) :: tail) (data a))
  else Raise ValueError.

(** [a[..., lo:hi]], with [hi = None] for an open upper end. *)
Definition slice_last {A} (lo : nat) (hi : option nat) (a : ndarray A)
  : result (ndarray A) :=
  match split_last (shape a) with
  | None => Raise IndexError
  | Some (lead, d) =>
      let hi' := match hi with Some h => h `min` d | None => d end in
      let lo' := lo `min` d in
      let w := hi' - lo' in
      Ok (mk (lead ++ [w])
             (concat ((fun r => take w (drop lo' r))
                        <$> chunks d (size_of lead) (data a))))
  end.

(** Leading dimensions of an array, when it has at least one axis. *)
Definition lead_dims {A} (a : ndarray A) : option (list nat) :=
  fst <$> split_last (shape a).

(** Row-wise juxtaposition of the rows of several arrays. *)
Fixpoint join_rows {A} (n : nat) (parts : list (list (list A)))
  : list (list A) :=
  match parts with
  | [] => replicate n []
  | p :: ps => zip_with app p (join_rows n ps)
  end.

(** [np.concatenate(arrs, axis=-1)]: all arrays need the same leading
    dimensions. *)
Definition concatenate_last {A} (arrs : list (ndarray A))
  : result (ndarray A) :=
  match arrs with
  | [] => Raise ValueError
  | a0 :: _ =>
      match split_last (shape a0) with
      | None => Raise ValueError
      | Some (lead, _) =>
          if forallb (fun a => bool_decide (lead_dims a = Some lead)) arrs
          then
            let widths :=
              (fun a => match split_last (shape a) with
                        | Some (_, d) => d | None => 0 end) <$> arrs in
            Ok (mk (lead ++ [sum_list widths])
                   (concat (join_rows (size_of lead) (rows <$> arrs))))
          else Raise ValueError
      end
  end.

(** [np.concatenate(arrs, axis=0)]: all arrays need the same trailing
    dimensions. *)
Definition concatenate0 {A} (arrs : list (ndarray A))
  : result (ndarray A) :=
  match arrs with
  | [] => Raise ValueError
  | a0 :: _ =>
      match shape a0 with
      | [] => Raise ValueError
      | _ :: tl0 =>
          if forallb (fun a => bool_decide (tail (shape a) = tl0)
                               && negb (bool_decide (shape a = []))) arrs
          then
            Ok (mk (sum_list ((fun a => default 0 (head (shape a))) <$> arrs)
                      :: tl0)
                   (concat (data <$> arrs)))
          else Raise ValueError
      end
  end.

(** [a.astype(t)] with the element conversion [cast]. *)
Definition astype {A B} (cast : A -> B) (a : ndarray A) : ndarray B :=
  mk (shape a) (cast <$> data a).

End Np.

(** ** The action canonicalizer *)

Section ConvertActions.
(** [A]: the element type of the raw recording; [F32]: float32 values;
    [to_float32]: the conversion [astype(np.float32)] applies. *)
Context {A F32 : Type}.
Variable to_float32 : A -> F32.
(** [rotation_transformer.forward], a collaborator defined outside this
    module. *)
Variable forward : Np.ndarray A -> result (Np.ndarray A).

Definition _convert_actions (raw_actions : Np.ndarray A)
  : result (Np.ndarray F32) :=
  d ← Np.last_dim raw_actions;
  '(raw_actions, is_dual_arm) ←
    (if d =? 14
     then r ← Np.reshape_infer raw_actions [2; 7]; Ok (r, true)
     else Ok (raw_actions, false));
  pos ← Np.slice_last 0 (Some 3) raw_actions;
  rot ← Np.slice_last 3 (Some 6) raw_actions;
  gripper ← Np.slice_last 6 None raw_actions;
  rot ← forward rot;
  cat ← Np.concatenate_last [pos; rot; gripper];
  let raw_actions := Np.astype to_float32 cat in
  if (is_dual_arm : bool)
  then Np.reshape_infer raw_actions [20]
  else Ok raw_actions.
End ConvertActions.


(** ** Shape metadata *)

Record Attr : Type := {
  attr_shape : list nat;
  attr_type : option string
}.

Record ShapeMeta : Type := {
  obs : Dict.t Attr;
  action : option (list nat)
}.

(** [attr.get('type', 'low_dim')]. *)
Definition type_of (attr : Attr) : string :=
  default "low_dim" (attr_type attr).

(** The two key lists read off [shape_meta['obs']], in dictionary order. *)
Definition parse_rgb_keys (obs_shape_meta : Dict.t Attr) : list string :=
  (filter (fun kv => type_of kv.2 = "rgb") obs_shape_meta).*1.

Definition parse_lowdim_keys (obs_shape_meta : Dict.t Attr) : list string :=
  (filter (fun kv => type_of kv.2 = "low_dim") obs_shape_meta).*1.

(** ** Episode archives, the store and the source directory *)

(** One HDF5 episode recording: its datasets by path, and the camera
    streams under [observations/images], each a sequence of frames. *)
Record H5File (A Frame : Type) : Type := {
  datasets : gmap string (Np.ndarray A);
  images : gmap string (list Frame)
}.
Arguments datasets {A Frame} _.
Arguments images {A Frame} _.

(** A zarr array: stored as it is, or one compressed chunk per frame (a
    chunk that was never written is [None]). *)
Inductive zarr_array (A Chunk : Type) : Type :=
  | Plain (a : Np.ndarray A)
  | Compressed (shape : list nat) (chunks : list (option Chunk)).
Arguments Plain {A Chunk} a.
Arguments Compressed {A Chunk} shape chunks.

(** Modelled from the spec: [ReplayBuffer] of the replay-buffer module,
    which is outside the files at hand: the store root with its [meta]
    group ("cumulative episode-end offsets") and its [data] group ("one
    array per field name"). *)
Record ReplayBuffer (A Chunk : Type) : Type := {
  meta_episode_ends : list nat;
  data_group : gmap string (zarr_array A Chunk)
}.
Arguments meta_episode_ends {A Chunk} _.
Arguments data_group {A Chunk} _.

(** What a name in the dataset directory can refer to.  The content of a
    zip archive is the store it holds, [None] while it is incomplete. *)
Inductive entry (A Frame Chunk : Type) : Type :=
  | Hdf5 (f : H5File A Frame)
  | ZipArchive (content : option (ReplayBuffer A Chunk))
  | LockFile
  | Directory.
Arguments Hdf5 {A Frame Chunk} f.
Arguments ZipArchive {A Frame Chunk} content.
Arguments LockFile {A Frame Chunk}.
Arguments Directory {A Frame Chunk}.

(** ** The image encode tasks and their worker pool *)

(** The arguments of one [img_copy] call. *)
Record Task (Frame : Type) : Type := {
  zarr_arr : string;
  zarr_idx : nat;
  hdf5_arr : list Frame;
  hdf5_idx : nat
}.
Arguments zarr_arr {Frame} _.
Arguments zarr_idx {Frame} _.
Arguments hdf5_arr {Frame} _.
Arguments hdf5_idx {Frame} _.

(** A submitted task; [outcome] is [None] until a worker has run it. *)
Record Future (Frame : Type) : Type := {
  task : Task Frame;
  outcome : option bool
}.
Arguments task {Frame} _.
Arguments outcome {Frame} _.

(** The data group the workers write to, the set [futures] of the
    submitter, and the scheduler's remaining decisions: at every [wait],
    the next decision lists the positions (in [futures]) of the tasks the
    workers have finished by then, in the order they ran. *)
Record Pool (A Frame Chunk : Type) : Type := {
  group : gmap string (zarr_array A Chunk);
  futures : list (Future Frame);
  schedule : list (list nat)
}.
Arguments group {A Frame Chunk} _.
Arguments futures {A Frame Chunk} _.
Arguments schedule {A Frame Chunk} _.

Section ImageTranscoder.
Context {A Frame Chunk : Type}.
(** The Jpeg2k codec of the destination array: what writing a frame
    into its chunk and reading the chunk back do. *)
Variable jpeg2k_encode : Frame -> result Chunk.
Variable jpeg2k_decode : Chunk -> result Frame.

#[local] Abbreviation Group := (gmap string (zarr_array A Chunk)).

(** [zarr_arr[zarr_idx] = hdf5_arr[hdf5_idx]]. *)
Definition write_frame (g : Group) (t : Task Frame) : result Group :=
  match hdf5_arr t !! hdf5_idx t with
  | None => Raise IndexError
  | Some img =>
      match g !! zarr_arr t with
      | Some (Compressed sh chunks) =>
          if zarr_idx t <? length chunks
          then c ← jpeg2k_encode img;
               Ok (<[zarr_arr t := Compressed sh (<[zarr_idx t := Some c]> chunks)]> g)
          else Raise IndexError
      | Some (Plain _) => Raise TypeError
      | None => Raise (KeyError (zarr_arr t))
      end
  end.

(** [_ = zarr_arr[zarr_idx]]: decode the chunk. *)
Definition read_frame (g : Group) (t : Task Frame) : result unit :=
  match g !! zarr_arr t with
  | Some (Compressed sh chunks) =>
      match chunks !! zarr_idx t with
      | Some (Some c) => _ ← jpeg2k_decode c; Ok tt
      | Some None => Ok tt
      | None => Raise IndexError
      end
  | Some (Plain _) => Ok tt
  | None => Raise (KeyError (zarr_arr t))
  end.

(** [img_copy]: the write, then the read back; any exception of either
    becomes the return value [False]. *)
Definition img_copy (g : Group) (t : Task Frame) : Group * bool :=
  match write_frame g t with
  | Raise _ => (g, false)
  | Ok g' =>
      match read_frame g' t with
      | Ok _ => (g', true)
      | Raise _ => (g', false)
      end
  end.

#[local] Abbreviation PoolT := (Pool A Frame Chunk).

(** A worker runs the task at position [pos], if it has not run yet. *)
Definition run_one (p : PoolT) (pos : nat) : PoolT :=
  match futures p !! pos with
  | Some {| task := t; outcome := None |} =>
      let '(g, ok) := img_copy (group p) t in
      {| group := g;
         futures := <[pos := {| task := t; outcome := Some ok |}]> (futures p);
         schedule := schedule p |}
  | _ => p
  end.

Definition is_done (f : Future Frame) : bool :=
  bool_decide (is_Some (outcome f)).

(** The scheduler's next decision is taken and carried out. *)
Definition run_decision (p : PoolT) : PoolT :=
  match schedule p with
  | [] => p
  | picks :: rest =>
      foldl run_one
        {| group := group p; futures := futures p; schedule := rest |} picks
  end.

(** [concurrent.futures.wait(futures, return_when=FIRST_COMPLETED)]:
    returns once some task is done (at once when [futures] is empty),
    with the done futures and the pool left with the others. *)
Definition wait_first (p : PoolT) : list (Future Frame) * PoolT :=
  let p := run_decision p in
  let p := if existsb is_done (futures p) then p else run_one p 0 in
  (filter (fun f => is_done f = true) (futures p),
   {| group := group p;
      futures := filter (fun f => is_done f = false) (futures p);
      schedule := schedule p |}).

(** [concurrent.futures.wait(futures)]: every task has run. *)
Definition wait_all (p : PoolT) : list (Future Frame) * PoolT :=
  let p := run_decision p in
  let p := foldl run_one p (seq 0 (length (futures p))) in
  (futures p,
   {| group := group p; futures := []; schedule := schedule p |}).

(** [for f in completed: if not f.result(): raise RuntimeError(...)]. *)
Definition check_completed (completed : list (Future Frame)) : result unit :=
  if forallb (fun f => bool_decide (outcome f = Some true)) completed
  then Ok tt
  else Raise (RuntimeError "Failed to encode image!").

(** One round of the submission loop. *)
Definition submit_frame (max_inflight_tasks : nat) (name : string)
    (arr : list Frame) (p : PoolT) (idx : nat) : result PoolT :=
  p ← (if max_inflight_tasks <=? length (futures p)
       then let '(completed, p') := wait_first p in
            _ ← check_completed completed; Ok p'
       else Ok p);
  Ok {| group := group p;
        futures := futures p ++
          [ {| task := {| zarr_arr := name; zarr_idx := idx;
                          hdf5_arr := arr; hdf5_idx := idx |};
               outcome := None |} ];
        schedule := schedule p |}.

(** [data_group.require_dataset(name, shape=(n_steps,h,w,c),
    chunks=(1,h,w,c), compressor=Jpeg2k(level=50), dtype=uint8)] on a
    name that is free; a name already taken by a low-dimensional array
    is refused. *)
Definition require_dataset (g : Group) (name : string) (sh : list nat)
  : result Group :=
  match g !! name with
  | None => Ok (<[name := Compressed sh (replicate (default 0 (head sh)) None)]> g)
  | Some _ => Raise TypeError
  end.

End ImageTranscoder.

(** ** The episode-to-store converter *)

(** The accumulators of the episode loop. *)
Record Loaded (A Frame : Type) : Type := {
  episode_ends : list nat;
  prev_end : nat;
  lowdim_data_dict : Dict.t (list (Np.ndarray A));
  rgb_data_dict : Dict.t (list (list Frame))
}.
Arguments episode_ends {A Frame} _.
Arguments prev_end {A Frame} _.
Arguments lowdim_data_dict {A Frame} _.
Arguments rgb_data_dict {A Frame} _.

Section Converter.
Context {A Frame Chunk : Type}.
Variable to_float32 : A -> A.
(** [rotation_transformer.forward]. *)
Variable forward : Np.ndarray A -> result (Np.ndarray A).
(** [cv2.resize(img, (w,h), interpolation=cv2.INTER_AREA)] and the shape
    of a frame. *)
Variable cv2_resize : Frame -> nat -> nat -> result Frame.
Variable frame_shape : Frame -> list nat.
Variable jpeg2k_encode : Frame -> result Chunk.
Variable jpeg2k_decode : Chunk -> result Frame.
(** [multiprocessing.cpu_count()]. *)
Variable cpu_count : nat.

#[local] Abbreviation DirT := (gmap string (entry A Frame Chunk)).

(** [glob.glob(os.path.join(dataset_dir, 'episode_*.hdf5'))]. *)
Definition glob_episodes (dataset_dir : DirT) : list string :=
  filter (fun name => matches_episode_pattern name = true)
         (map_to_list dataset_dir).*1.

(** [h5py.File(dataset_path)], opened for reading. *)
Definition open_hdf5 (dataset_dir : DirT) (name : string)
  : result (H5File A Frame) :=
  match dataset_dir !! name with
  | Some (Hdf5 f) => Ok f
  | Some _ => Raise (OSError name)
  | None => Raise (FileNotFoundError name)
  end.

(** The body of [for key in lowdim_keys + ['action']]. *)
Definition load_lowdim (shape_meta : ShapeMeta) (file : H5File A Frame)
    (episode_length : nat) (lowdim_data_dict : Dict.t (list (Np.ndarray A)))
    (key : string) : result (Dict.t (list (Np.ndarray A))) :=
  let data_key :=
    if bool_decide (key = "action") then "cartesian_action"
    else "observations/" +:+ key in
  let lowdim_data_dict :=
    if Dict.contains lowdim_data_dict key then lowdim_data_dict
    else Dict.set lowdim_data_dict key [] in
  this_data ← getitem (datasets file) data_key;
  this_data ←
    ((if bool_decide (key = "action")
     then this_data ← _convert_actions to_float32 forward this_data;
          declared ← (match action shape_meta with
                      | Some sh => Ok sh
                      | None => Raise (KeyError "action")
                      end);
          _ ← assert (bool_decide
                        (Np.shape this_data = episode_length :: declared));
          Ok this_data
     else attr ← Dict.getitem (obs shape_meta) key;
          _ ← assert (bool_decide
                        (Np.shape this_data = episode_length :: attr_shape attr));
          Ok this_data) : result (Np.ndarray A));
  Ok (Dict.set lowdim_data_dict key
        (default [] (Dict.get lowdim_data_dict key) ++ [this_data])).

(** [c,h,w = shape]. *)
Definition unpack_chw (sh : list nat) : result (nat * nat * nat) :=
  match sh with
  | [c; h; w] => Ok (c, h, w)
  | _ => Raise ValueError
  end.

(** The body of [for key in rgb_keys] inside the episode loop. *)
Definition load_rgb (shape_meta : ShapeMeta) (file : H5File A Frame)
    (rgb_data_dict : Dict.t (list (list Frame))) (key : string)
  : result (Dict.t (list (list Frame))) :=
  let rgb_data_dict :=
    if Dict.contains rgb_data_dict key then rgb_data_dict
    else Dict.set rgb_data_dict key [] in
  imgs ← getitem (images file) key;
  attr ← Dict.getitem (obs shape_meta) key;
  '(c, h, w) ← unpack_chw (attr_shape attr);
  resize_imgs ← mapM_result (fun img => cv2_resize img w h) imgs;
  (* np.stack needs at least one array *)
  first ← (match resize_imgs with
           | [] => Raise ValueError
           | img :: _ => Ok img
           end);
  _ ← assert (bool_decide (frame_shape first = [h; w; c]));
  Ok (Dict.set rgb_data_dict key
        (default [] (Dict.get rgb_data_dict key) ++ [resize_imgs])).

(** The body of the episode loop. *)
Definition load_episode (shape_meta : ShapeMeta) (dataset_dir : DirT)
    (lowdim_keys rgb_keys : list string)
    (st : Loaded A Frame) (epi_idx : nat) : result (Loaded A Frame) :=
  file ← open_hdf5 dataset_dir (episode_file_name epi_idx);
  cartesian_action ← getitem (datasets file) "cartesian_action";
  episode_length ← Np.first_dim cartesian_action;
  let episode_end := prev_end st + episode_length in
  lowdim ← foldM (load_lowdim shape_meta file episode_length)
             (lowdim_data_dict st) (lowdim_keys ++ ["action"]);
  rgb ← foldM (load_rgb shape_meta file) (rgb_data_dict st) rgb_keys;
  Ok {| episode_ends := episode_ends st ++ [episode_end];
        prev_end := episode_end;
        lowdim_data_dict := lowdim;
        rgb_data_dict := rgb |}.

(** The episode loop: [for epi_idx in range(len(num_episodes))]. *)
Definition load_episodes (shape_meta : ShapeMeta) (dataset_dir : DirT)
  : result (Loaded A Frame) :=
  let rgb_keys := parse_rgb_keys (obs shape_meta) in
  let lowdim_keys := parse_lowdim_keys (obs shape_meta) in
  let num_episodes := glob_episodes dataset_dir in
  foldM (load_episode shape_meta dataset_dir lowdim_keys rgb_keys)
    {| episode_ends := []; prev_end := 0;
       lowdim_data_dict := []; rgb_data_dict := [] |}
    (seq 0 (length num_episodes)).

(** The body of [for key, data in lowdim_data_dict.items()]. *)
Definition dump_lowdim (g : gmap string (zarr_array A Chunk))
    (item : string * list (Np.ndarray A))
  : result (gmap string (zarr_array A Chunk)) :=
  data ← Np.concatenate0 item.2;
  Ok (<[item.1 := Plain data]> g).

(** The body of [for key, data in rgb_data_dict.items()]. *)
Definition dump_rgb (shape_meta : ShapeMeta) (n_steps max_inflight_tasks : nat)
    (p : Pool A Frame Chunk) (item : string * list (list Frame))
  : result (Pool A Frame Chunk) :=
  let hdf5_arr := concat item.2 in
  attr ← Dict.getitem (obs shape_meta) item.1;
  '(c, h, w) ← unpack_chw (attr_shape attr);
  g ← require_dataset (group p) item.1 [n_steps; h; w; c];
  foldM (submit_frame jpeg2k_encode jpeg2k_decode max_inflight_tasks item.1 hdf5_arr)
    {| group := g; futures := futures p; schedule := schedule p |}
    (seq 0 (length hdf5_arr)).

(** [_convert_sapein_to_dp_replay]; [sched] is the worker pool's
    scheduler (see [Pool]). *)
Definition _convert_sapein_to_dp_replay (sched : list (list nat))
    (shape_meta : ShapeMeta) (dataset_dir : DirT)
    (n_workers max_inflight_tasks : option nat)
  : result (ReplayBuffer A Chunk) :=
  let n_workers := default cpu_count n_workers in
  let max_inflight_tasks := default (n_workers * 5) max_inflight_tasks in
  st ← load_episodes shape_meta dataset_dir;
  (* n_steps = episode_ends[-1] *)
  n_steps ← (match last (episode_ends st) with
             | Some n => Ok n
             | None => Raise IndexError
             end);
  g ← foldM dump_lowdim ∅ (lowdim_data_dict st);
  (* ThreadPoolExecutor(max_workers=n_workers) *)
  _ ← (if n_workers =? 0 then Raise ValueError else Ok tt);
  p ← foldM (dump_rgb shape_meta n_steps max_inflight_tasks)
        {| group := g; futures := []; schedule := sched |}
        (rgb_data_dict st);
  let '(completed, p) := wait_all jpeg2k_encode jpeg2k_decode p in
  _ ← check_completed completed;
  Ok {| meta_episode_ends := episode_ends st; data_group := group p |}.

End Converter.

(** ** The dataset object and its cache *)

(** The attributes [__init__] sets that this development follows (the
    sampler and the episode masks come from collaborators that are not
    part of it). *)
Record SapienDataset (A Chunk : Type) : Type := {
  replay_buffer : ReplayBuffer A Chunk;
  shape_meta_of : ShapeMeta;
  rgb_keys : list string;
  lowdim_keys : list string;
  horizon : nat;
  pad_before : nat;
  pad_after : nat;
  use_legacy_normalizer : bool
}.
Arguments replay_buffer {A Chunk} _.
Arguments shape_meta_of {A Chunk} _.
Arguments rgb_keys {A Chunk} _.
Arguments lowdim_keys {A Chunk} _.
Arguments horizon {A Chunk} _.
Arguments pad_before {A Chunk} _.
Arguments pad_after {A Chunk} _.
Arguments use_legacy_normalizer {A Chunk} _.

Section Cache.
Context {A Frame Chunk : Type}.
Variable to_float32 : A -> A.
Variable forward : Np.ndarray A -> result (Np.ndarray A).
Variable cv2_resize : Frame -> nat -> nat -> result Frame.
Variable frame_shape : Frame -> list nat.
Variable jpeg2k_encode : Frame -> result Chunk.
Variable jpeg2k_decode : Chunk -> result Frame.
Variable cpu_count : nat.

#[local] Abbreviation DirT := (gmap string (entry A Frame Chunk)).

Definition cache_zarr_path : string := "cache.zarr.zip".
Definition cache_lock_path : string := cache_zarr_path +:+ ".lock".

(** [os.path.exists]. *)
Definition path_exists (fs : DirT) (path : string) : bool :=
  bool_decide (is_Some (fs !! path)).

(** [shutil.rmtree(path)]: removes a directory tree; a path that is
    missing, or that is a file, is an error and nothing is removed. *)
Definition rmtree (fs : DirT) (path : string) : result DirT :=
  match fs !! path with
  | None => Raise (FileNotFoundError path)
  | Some Directory => Ok (delete path fs)
  | Some _ => Raise (NotADirectoryError path)
  end.

(** Modelled from the spec: [ReplayBuffer.save_to_store] into a
    [zarr.ZipStore] on [path] ("serialize into a single portable archive
    file").  Opening the zip store creates the file; [save_fault] is the
    exception the write meets, if any (a full disk, say), in which case
    the file stays behind incomplete. *)
Definition save_to_zip (fs : DirT) (path : string)
    (rb : ReplayBuffer A Chunk) (save_fault : option exn)
  : DirT * result unit :=
  match save_fault with
  | Some e => (<[path := ZipArchive None]> fs, Raise e)
  | None => (<[path := ZipArchive (Some rb)]> fs, Ok tt)
  end.

(** Modelled from the spec: [ReplayBuffer.copy_from_store] out of a
    [zarr.ZipStore] opened for reading ("deserialize it fully into an
    in-memory store and return it"). *)
Definition load_from_zip (fs : DirT) (path : string)
  : result (ReplayBuffer A Chunk) :=
  match fs !! path with
  | Some (ZipArchive (Some rb)) => Ok rb
  | Some (ZipArchive None) => Raise (OSError "incomplete archive")
  | Some _ => Raise (OSError "not a zip file")
  | None => Raise (FileNotFoundError path)
  end.

(** The [use_cache] branch of [__init__], inside [with FileLock(...)]:
    the first component is the directory afterwards. *)
Definition cached_replay_buffer (sched : list (list nat))
    (shape_meta : ShapeMeta) (fs : DirT) (save_fault : option exn)
  : DirT * result (ReplayBuffer A Chunk) :=
  (* acquiring the lock creates the lock file *)
  let fs := <[cache_lock_path := LockFile]> fs in
  if negb (path_exists fs cache_zarr_path) then
    (* try: *)
    let '(fs', r) :=
      match _convert_sapein_to_dp_replay to_float32 forward cv2_resize
              frame_shape jpeg2k_encode jpeg2k_decode cpu_count
              sched shape_meta fs None None with
      | Raise e => (fs, Raise e)
      | Ok replay_buffer =>
          match save_to_zip fs cache_zarr_path replay_buffer save_fault with
          | (fs', Ok _) => (fs', Ok replay_buffer)
          | (fs', Raise e) => (fs', Raise e)
          end
      end in
    match r with
    | Ok replay_buffer => (fs', Ok replay_buffer)
    | Raise e =>
        (* except Exception as e: shutil.rmtree(cache_zarr_path); raise e *)
        match rmtree fs' cache_zarr_path with
        | Ok fs'' => (fs'', Raise e)
        | Raise e' => (fs', Raise e')
        end
    end
  else
    (fs, load_from_zip fs cache_zarr_path).

(** [SapienDataset.__init__]. *)
Definition SapienDataset__init__ (sched : list (list nat))
    (shape_meta : ShapeMeta) (dataset_dir : DirT)
    (horizon pad_before pad_after : nat)
    (use_legacy_normalizer use_cache : bool) (save_fault : option exn)
  : DirT * result (SapienDataset A Chunk) :=
  let '(fs, r) :=
    if use_cache
    then cached_replay_buffer sched shape_meta dataset_dir save_fault
    else (dataset_dir,
          _convert_sapein_to_dp_replay to_float32 forward cv2_resize
            frame_shape jpeg2k_encode jpeg2k_decode cpu_count
            sched shape_meta dataset_dir None None) in
  (fs,
   replay_buffer ← r;
   Ok {| replay_buffer := replay_buffer;
         shape_meta_of := shape_meta;
         rgb_keys := parse_rgb_keys (obs shape_meta);
         lowdim_keys := parse_lowdim_keys (obs shape_meta);
         horizon := horizon;
         pad_before := pad_before;
         pad_after := pad_after;
         use_legacy_normalizer := use_legacy_normalizer |}).

End Cache.

(** ** Normalization *)

(** The entries of a statistics dictionary. *)
Record Stat : Type := {
  stat_min : list Q;
  stat_max : list Q;
  stat_mean : list Q;
  stat_std : list Q
}.

(** Modelled from the spec: [SingleFieldLinearNormalizer] of the
    normalizer module, which is outside the files at hand; a normalizer
    is the scale and offset it was created with ("mapping field→(scale,
    offset)"), with the statistics [create_manual] is passed. *)
Record SingleFieldLinearNormalizer : Type := create_manual {
  scale : list Q;
  offset : list Q;
  input_stats_dict : Stat
}.

(** [a.max()] of a vector: a zero-size one has no maximum. *)
Definition vector_max (l : list Q) : result Q :=
  match l with
  | [] => Raise ValueError
  | x :: l' => Ok (foldl Qmax x l')
  end.

(** [normalizer_from_stat].  Numbers are exact rationals here; where
    [max_abs] is zero NumPy's quotient is infinite, [1 / 0] in [Q] is
    not. *)
Definition normalizer_from_stat (stat : Stat)
  : result SingleFieldLinearNormalizer :=
  m_max ← vector_max (stat_max stat);
  m_min ← vector_max (Qabs <$> stat_min stat);
  let max_abs := Qmax m_max m_min in
  let scale := replicate (length (stat_max stat)) (1 / max_abs)%Q in
  let offset := replicate (length (stat_max stat)) 0%Q in
  Ok (create_manual scale offset stat).

Section Normalizer.
Context {Chunk : Type}.
(** Collaborators from [normalize_util]: the standard deviation inside
    [array_to_stats], and the three normalizer constructors. *)
Variable np_std : Np.ndarray Q -> list Q.
Variable get_range_normalizer_from_stat : Stat -> SingleFieldLinearNormalizer.
Variable get_identity_normalizer_from_stat : Stat -> SingleFieldLinearNormalizer.
Variable get_image_range_normalizer : SingleFieldLinearNormalizer.

(** Modelled from the spec: [array_to_stats] of [normalize_util]
    ("compute per-dimension min/max/mean/std across all steps").  The
    rows are the steps; an array without steps has no minimum. *)
Definition array_to_stats (arr : Np.ndarray Q) : result Stat :=
  match Np.shape arr with
  | [] => Raise ValueError
  | n :: tl =>
      match Np.chunks (Np.size_of tl) n (Np.data arr) with
      | [] => Raise ValueError
      | r :: rs =>
          Ok {| stat_min := foldl (zip_with Qmin) r rs;
                stat_max := foldl (zip_with Qmax) r rs;
                stat_mean := (fun s => s / inject_Z (Z.of_nat n))%Q
                               <$> foldl (zip_with Qplus) r rs;
                stat_std := np_std arr |}
      end
  end.

(** [self.replay_buffer[key]] for a low-dimensional entry (statistics of
    a compressed image array are not part of this development). *)
Definition replay_buffer_getitem (rb : ReplayBuffer Q Chunk) (key : string)
  : result (Np.ndarray Q) :=
  match data_group rb !! key with
  | Some (Plain a) => Ok a
  | Some (Compressed _ _) => Raise TypeError
  | None => Raise (KeyError key)
  end.

(** The body of [for key in self.lowdim_keys]. *)
Definition normalize_lowdim (self : SapienDataset Q Chunk)
    (normalizer : gmap string SingleFieldLinearNormalizer) (key : string)
  : result (gmap string SingleFieldLinearNormalizer) :=
  arr ← replay_buffer_getitem (replay_buffer self) key;
  stat ← array_to_stats arr;
  this_normalizer ←
    (if endswith key "pos" then Ok (get_range_normalizer_from_stat stat)
     else if endswith key "quat" then Ok (get_identity_normalizer_from_stat stat)
     else if endswith key "qpos" then Ok (get_range_normalizer_from_stat stat)
     else Raise (RuntimeError "unsupported"));
  Ok (<[key := this_normalizer]> normalizer).

(** [SapienDataset.get_normalizer]. *)
Definition get_normalizer (self : SapienDataset Q Chunk)
  : result (gmap string SingleFieldLinearNormalizer) :=
  let normalizer : gmap string SingleFieldLinearNormalizer := ∅ in
  arr ← replay_buffer_getitem (replay_buffer self) "action";
  stat ← array_to_stats arr;
  this_normalizer ←
    (if use_legacy_normalizer self then normalizer_from_stat stat
     else Raise (RuntimeError "unsupported"));
  let normalizer := <["action" := this_normalizer]> normalizer in
  normalizer ← foldM (normalize_lowdim self) normalizer (lowdim_keys self);
  Ok (foldl (fun nz key => <[key := get_image_range_normalizer]> nz)
        normalizer (rgb_keys self)).

End Normalizer.

(** ** Concrete inputs

    A small world on which the definitions above are run: raw numbers are
    integers (rationals for the normalizer), a frame is the list of its
    dimensions and a chunk is the frame it encodes. *)

Module Examples.

(** A rotation converter of output width 6: each angle triple twice. *)
Definition forward6 (a : Np.ndarray Z) : result (Np.ndarray Z) :=
  match Np.split_last (Np.shape a) with
  | Some (lead, 3) =>
      Ok (Np.mk (lead ++ [6])
            (concat ((fun r => r ++ r)
                       <$> Np.chunks 3 (Np.size_of lead) (Np.data a))))
  | _ => Raise ValueError
  end.


Definition cast (x : Z) : Z := x.

Definition range_Z (first count : nat) : list Z := Z.of_nat <$> seq first count.

Definition dual_arm : Np.ndarray Z := Np.mk [1; 14] (range_Z 1 14).

(** Frames: [cv2.resize] sets height and width and keeps the channels. *)
Definition resize (img : list nat) (w h : nat) : result (list nat) :=
  match img with
  | [_; _; c] => Ok [h; w; c]
  | _ => Raise ValueError
  end.
Definition frame_dims (img : list nat) : list nat := img.
Definition encode (img : list nat) : result (list nat) := Ok img.
Definition decode (c : list nat) : result (list nat) := Ok c.
(** A codec for grey-scale frames only. *)
Definition encode_picky (img : list nat) : result (list nat) :=
  match img with
  | [_; _; 1] => Ok img
  | _ => Raise ValueError
  end.

Definition shape_meta : ShapeMeta :=
  {| obs := [("eef_pos", {| attr_shape := [3]; attr_type := None |});
             ("cam", {| attr_shape := [3; 2; 2]; attr_type := Some "rgb" |})];
     action := Some [10] |}.

(** An episode of [n] steps whose raw actions have [d] entries per step. *)
Definition episode (n d : nat) : H5File Z (list nat) :=
  {| datasets :=
       {[ "cartesian_action" := Np.mk [n; d] (range_Z 1 (n * d));
          "observations/eef_pos" := Np.mk [n; 3] (range_Z 1 (n * 3)) ]};
     images := {[ "cam" := replicate n [4; 4; 3] ]} |}.

(** Two episodes, of 2 and 3 steps. *)
Definition dir2 : gmap string (entry Z (list nat) (list nat)) :=
  {[ "episode_0.hdf5" := Hdf5 (episode 2 7);
     "episode_1.hdf5" := Hdf5 (episode 3 7) ]}.

(** The same with the second file numbered 2: a gap. *)
Definition dir_gap : gmap string (entry Z (list nat) (list nat)) :=
  {[ "episode_0.hdf5" := Hdf5 (episode 2 7);
     "episode_2.hdf5" := Hdf5 (episode 3 7) ]}.

(** The second episode records an [eef_pos] of width 2. *)
Definition bad_episode : H5File Z (list nat) :=
  {| datasets :=
       {[ "cartesian_action" := Np.mk [3; 7] (range_Z 1 21);
          "observations/eef_pos" := Np.mk [3; 2] (range_Z 1 6) ]};
     images := {[ "cam" := replicate 3 [4; 4; 3] ]} |}.

Definition dir_bad_shape : gmap string (entry Z (list nat) (list nat)) :=
  {[ "episode_0.hdf5" := Hdf5 (episode 2 7);
     "episode_1.hdf5" := Hdf5 bad_episode ]}.

Definition convert (enc : list nat -> result (list nat))
    (sched : list (list nat))
    (dir : gmap string (entry Z (list nat) (list nat)))
    (max_inflight_tasks : option nat)
  : result (ReplayBuffer Z (list nat)) :=
  _convert_sapein_to_dp_replay cast forward6 resize frame_dims enc decode 4
    sched shape_meta dir None max_inflight_tasks.

End Examples.

(** ** Vocabulary of the statements *)

(** The raw step count of episode [k]: the first dimension of the
    [cartesian_action] dataset of its file. *)
Definition raw_step_count {A Frame Chunk}
    (dataset_dir : gmap string (entry A Frame Chunk)) (k : nat) : option nat :=
  match dataset_dir !! episode_file_name k with
  | Some (Hdf5 f) =>
      match datasets f !! "cartesian_action" with
      | Some cartesian_action => head (Np.shape cartesian_action)
      | None => None
      end
  | _ => None
  end.

(** Running totals of a list of counts, on top of [start]. *)
Fixpoint running_totals (start : nat) (counts : list nat) : list nat :=
  match counts with
  | [] => []
  | n :: counts' => (start + n) :: running_totals (start + n) counts'
  end.

(** A field of an episode whose shape is not the episode length followed
    by the declared shape: a low-dimensional observation as read, the
    action after canonicalization. *)
Definition field_shape_mismatch {A Frame}
    (to_float32 : A -> A) (forward : Np.ndarray A -> result (Np.ndarray A))
    (shape_meta : ShapeMeta) (file : H5File A Frame)
    (episode_length : nat) (key : string) : Prop :=
  if bool_decide (key = "action")
  then ∃ raw_actions actions declared,
         datasets file !! "cartesian_action" = Some raw_actions
         ∧ _convert_actions to_float32 forward raw_actions = Ok actions
         ∧ action shape_meta = Some declared
         ∧ Np.shape actions ≠ episode_length :: declared
  else ∃ this_data attr,
         datasets file !! ("observations/" +:+ key) = Some this_data
         ∧ Dict.get (obs shape_meta) key = Some attr
         ∧ Np.shape this_data ≠ episode_length :: attr_shape attr.

(** The first [n] rounds of the episode loop. *)
Definition load_first {A Frame Chunk}
    (to_float32 : A -> A) (forward : Np.ndarray A -> result (Np.ndarray A))
    (cv2_resize : Frame -> nat -> nat -> result Frame)
    (frame_shape : Frame -> list nat)
    (shape_meta : ShapeMeta) (dataset_dir : gmap string (entry A Frame Chunk))
    (n : nat) : result (Loaded A Frame) :=
  foldM (load_episode to_float32 forward cv2_resize frame_shape
           shape_meta dataset_dir
           (parse_lowdim_keys (obs shape_meta)) (parse_rgb_keys (obs shape_meta)))
    {| episode_ends := []; prev_end := 0;
       lowdim_data_dict := []; rgb_data_dict := [] |}
    (seq 0 n).

(** The statistics [get_normalizer] computes for the entry [key]. *)
Definition stats_of {Chunk} (np_std : Np.ndarray Q -> list Q)
    (rb : ReplayBuffer Q Chunk) (key : string) : result Stat :=
  arr ← replay_buffer_getitem rb key;
  array_to_stats np_std arr.

(** The normalizer the suffix dispatch is to give the low-dimensional
    entry [key]: the range normalizer of its statistics for a name ending
    in [pos], the identity normalizer for one ending in [quat]. *)
Definition dispatched {Chunk} (np_std : Np.ndarray Q -> list Q)
    (get_range_normalizer_from_stat get_identity_normalizer_from_stat
       : Stat -> SingleFieldLinearNormalizer)
    (self : SapienDataset Q Chunk) (key : string)
    (n : SingleFieldLinearNormalizer) : Prop :=
  ∃ stat, stats_of np_std (replay_buffer self) key = Ok stat
          ∧ ((endswith key "pos" = true
              ∧ n = get_range_normalizer_from_stat stat)
             ∨ (endswith key "pos" = false ∧ endswith key "quat" = true
                ∧ n = get_identity_normalizer_from_stat stat)).

(** A dataset for the normalizer: two steps of a two-dimensional action
    and of an end-effector position; [lowdim] are its low-dimensional
    keys. *)
Module NormalizerExamples.

Definition std (a : Np.ndarray Q) : list Q := [].
Definition range_normalizer (stat : Stat) : SingleFieldLinearNormalizer :=
  create_manual (stat_max stat) (stat_min stat) stat.
Definition identity_normalizer (stat : Stat) : SingleFieldLinearNormalizer :=
  create_manual [] [] stat.
Definition image_normalizer : SingleFieldLinearNormalizer :=
  create_manual [] []
    {| stat_min := []; stat_max := []; stat_mean := []; stat_std := [] |}.

Definition buffer : ReplayBuffer Q unit :=
  {| meta_episode_ends := [2];
     data_group :=
       {[ "action" := Plain (Np.mk [2; 2] [1; 2; -1; -2]%Q);
          "eef_pos" := Plain (Np.mk [2; 1] [3; 5]%Q);
          "gripper" := Plain (Np.mk [2; 1] [0; 1]%Q) ]} |}.

Definition dataset (lowdim : list string) (legacy : bool)
  : SapienDataset Q unit :=
  {| replay_buffer := buffer;
     shape_meta_of := {| obs := []; action := Some [2] |};
     rgb_keys := [];
     lowdim_keys := lowdim;
     horizon := 1; pad_before := 0; pad_after := 0;
     use_legacy_normalizer := legacy |}.

Definition normalizer (lowdim : list string) (legacy : bool)
  : result (gmap string SingleFieldLinearNormalizer) :=
  get_normalizer std range_normalizer identity_normalizer image_normalizer
    (dataset lowdim legacy).

End NormalizerExamples.

(** ** The encode tasks run one after the other

    The yardstick for the worker pool: every task is run when it is
    submitted.  A state is the data group with the conjunction of the
    outcomes so far. *)

Section Sequential.
Context {A Frame Chunk : Type}.
Variable jpeg2k_encode : Frame -> result Chunk.
Variable jpeg2k_decode : Chunk -> result Frame.

#[local] Abbreviation Group := (gmap string (zarr_array A Chunk)).

(** The array and frame index a task writes. *)
Definition target (t : Task Frame) : string * nat := (zarr_arr t, zarr_idx t).

(** One task on top of a state. *)
Definition run_task (s : Group * bool) (t : Task Frame) : Group * bool :=
  let r := img_copy jpeg2k_encode jpeg2k_decode s.1 t in (r.1, s.2 && r.2).

(** The chunk a task has to store, when its frame exists and encodes. *)
Definition encoded (t : Task Frame) : option Chunk :=
  match hdf5_arr t !! hdf5_idx t with
  | Some img => match jpeg2k_encode img with Ok c => Some c | Raise _ => None end
  | None => None
  end.

(** The destination of a task is a compressed array that has its index. *)
Definition writable (g : Group) (t : Task Frame) : bool :=
  match g !! zarr_arr t with
  | Some (Compressed _ chunks) => zarr_idx t <? length chunks
  | _ => false
  end.

Definition put_chunk (idx : nat) (c : Chunk) (a : zarr_array A Chunk)
  : zarr_array A Chunk :=
  match a with
  | Compressed sh chunks => Compressed sh (<[idx := Some c]> chunks)
  | Plain a => Plain a
  end.

(** The task submitted for frame [idx] of a camera, and the tasks of one
    camera in submission order. *)
Definition frame_task (name : string) (arr : list Frame) (idx : nat)
  : Task Frame :=
  {| zarr_arr := name; zarr_idx := idx; hdf5_arr := arr; hdf5_idx := idx |}.

Definition camera_tasks (name : string) (arr : list Frame) : list (Task Frame) :=
  frame_task name arr <$> seq 0 (length arr).

(** All of the futures report success. *)
Definition all_true (fs : list (Future Frame)) : bool :=
  forallb (fun f => bool_decide (outcome f = Some true)) fs.

(** What a future leaves behind: its recorded outcome, or the run of
    its task when it has not run yet. *)
Definition future_result (g : Group) (f : Future Frame) : Group * bool :=
  match outcome f with
  | Some b => (g, b)
  | None => img_copy jpeg2k_encode jpeg2k_decode g (task f)
  end.

(** The futures of a pool settled: those still running are run, in list
    order; the outcomes of all are conjoined. *)
Fixpoint settle (g : Group) (fs : list (Future Frame)) : Group * bool :=
  match fs with
  | [] => (g, true)
  | f :: fs' =>
      let r := future_result g f in
      let s := settle r.1 fs' in
      (s.1, r.2 && s.2)
  end.

(** The state a pool stands for, and what holds of a pool between two
    steps of the submitter: the targets of its futures differ from one
    another and lie in arrays of its group. *)
Definition settled (p : Pool A Frame Chunk) : Group * bool :=
  settle (group p) (futures p).

Definition pool_inv (p : Pool A Frame Chunk) : Prop :=
  NoDup (target <$> (task <$> futures p))
  ∧ ∀ f, f ∈ futures p → is_Some (group p !! zarr_arr (task f)).

(** The same while the frames of the camera [name] are submitted, [k]
    of them so far. *)
Definition camera_inv (name : string) (k : nat) (p : Pool A Frame Chunk)
  : Prop :=
  pool_inv p
  ∧ is_Some (group p !! name)
  ∧ ∀ f, f ∈ futures p → zarr_arr (task f) = name → zarr_idx (task f) < k.

(** The frame [img] is stored encoded at index [idx] of the array
    [name], and the stored chunk decodes. *)
Definition frame_stored (g : Group) (name : string) (idx : nat) (img : Frame)
  : Prop :=
  ∃ sh chunks c,
    g !! name = Some (Compressed sh chunks)
    ∧ chunks !! idx = Some (Some c)
    ∧ jpeg2k_encode img = Ok c
    ∧ is_ok (jpeg2k_decode c) = true.

(** One camera: the destination array is created, then its tasks run. *)
Definition sequential_rgb (shape_meta : ShapeMeta) (n_steps : nat)
    (s : Group * bool) (item : string * list (list Frame))
  : result (Group * bool) :=
  attr ← Dict.getitem (obs shape_meta) item.1;
  '(c, h, w) ← unpack_chw (attr_shape attr);
  g ← require_dataset s.1 item.1 [n_steps; h; w; c];
  Ok (foldl run_task (g, s.2) (camera_tasks item.1 (concat item.2))).

End Sequential.

(** ** Vocabulary for the low-dimensional arrays of the store *)

(** What the episode loop reads from one file for the entry [key]: the
    dataset [observations/<key>], or for ['action'] the canonicalized
    [cartesian_action]. *)
Definition episode_field {A Frame}
    (to_float32 : A -> A) (forward : Np.ndarray A -> result (Np.ndarray A))
    (file : H5File A Frame) (key : string) : result (Np.ndarray A) :=
  if bool_decide (key = "action")
  then raw_actions ← getitem (datasets file) "cartesian_action";
       _convert_actions to_float32 forward raw_actions
  else getitem (datasets file) ("observations/" +:+ key).

(** The shape the metadata declares for the entry [key]. *)
Definition declared_shape (shape_meta : ShapeMeta) (key : string)
  : option (list nat) :=
  if bool_decide (key = "action") then action shape_meta
  else attr_shape <$> Dict.get (obs shape_meta) key.

(** The array [a] is what episode [k] contributes to the entry [key]:
    read from the file of that episode, with the episode's step count
    in front of the declared shape. *)
Definition loaded_field {A Frame Chunk}
    (to_float32 : A -> A) (forward : Np.ndarray A -> result (Np.ndarray A))
    (dataset_dir : gmap string (entry A Frame Chunk))
    (key : string) (declared : list nat) (k : nat) (a : Np.ndarray A) : Prop :=
  ∃ file episode_length,
    dataset_dir !! episode_file_name k = Some (Hdf5 file)
    ∧ raw_step_count dataset_dir k = Some episode_length
    ∧ episode_field to_float32 forward file key = Ok a
    ∧ Np.shape a = episode_length :: declared.

(** The number of frames episode [k] records for the camera [name]. *)
Definition frame_count {A Frame Chunk}
    (dataset_dir : gmap string (entry A Frame Chunk)) (name : string) (k : nat)
  : option nat :=
  match dataset_dir !! episode_file_name k with
  | Some (Hdf5 f) => length <$> images f !! name
  | _ => None
  end.

(** How the array of a camera is laid out in a data group: the declared
    height, width and channels behind [n_steps], one chunk per step, and
    no chunk written from index [frames] on. *)
Definition camera_layout {A Chunk} (shape_meta : ShapeMeta) (n_steps : nat)
    (g : gmap string (zarr_array A Chunk)) (name : string) (frames : nat)
  : Prop :=
  ∃ attr c h w chunks,
    Dict.get (obs shape_meta) name = Some attr
    ∧ attr_shape attr = [c; h; w]
    ∧ g !! name = Some (Compressed [n_steps; h; w; c] chunks)
    ∧ length chunks = n_steps
    ∧ ∀ idx, frames ≤ idx → idx < n_steps → chunks !! idx = Some None.

(** Further concrete inputs. *)
Module MoreExamples.

(** Shape metadata as in the module's own [test()]: cameras only, no
    ['action'] entry. *)
Definition shape_meta_test : ShapeMeta :=
  {| obs := [("cam", {| attr_shape := [3; 2; 2]; attr_type := Some "rgb" |})];
     action := None |}.

(** A store that some earlier run left in the cache. *)
Definition cached_store : ReplayBuffer Z (list nat) :=
  {| meta_episode_ends := [4];
     data_group := {[ "action" := Plain (Np.mk [4; 1] (Examples.range_Z 0 4)) ]} |}.

Definition dir_cached : gmap string (entry Z (list nat) (list nat)) :=
  {[ "cache.zarr.zip" := ZipArchive (Some cached_store) ]}.

Definition init (sched : list (list nat))
    (dir : gmap string (entry Z (list nat) (list nat)))
    (use_cache : bool) (save_fault : option exn) :=
  SapienDataset__init__ Examples.cast Examples.forward6 Examples.resize
    Examples.frame_dims Examples.encode Examples.decode 4
    sched Examples.shape_meta dir 16 0 0 true use_cache save_fault.

(** A dataset object with one low-dimensional key and one camera, over
    the store of [NormalizerExamples]. *)
Definition dataset_cam : SapienDataset Q unit :=
  {| replay_buffer := NormalizerExamples.buffer;
     shape_meta_of := {| obs := []; action := Some [2] |};
     rgb_keys := ["cam"];
     lowdim_keys := ["eef_pos"];
     horizon := 1; pad_before := 0; pad_after := 0;
     use_legacy_normalizer := true |}.

(** Rational-valued recordings for the normalizer: one episode of two
    steps with an end-effector position and a gripper opening. *)
Definition forward6q (a : Np.ndarray Q) : result (Np.ndarray Q) :=
  match Np.split_last (Np.shape a) with
  | Some (lead, 3) =>
      Ok (Np.mk (lead ++ [6])
            (concat ((fun r => r ++ r)
                       <$> Np.chunks 3 (Np.size_of lead) (Np.data a))))
  | _ => Raise ValueError
  end.

Definition shape_meta_q : ShapeMeta :=
  {| obs := [("eef_pos", {| attr_shape := [3]; attr_type := None |});
             ("gripper", {| attr_shape := [1]; attr_type := Some "low_dim" |})];
     action := Some [10] |}.

Definition episode_q : H5File Q (list nat) :=
  {| datasets :=
       {[ "cartesian_action" := Np.mk [2; 7] (inject_Z <$> Examples.range_Z 1 14);
          "observations/eef_pos" := Np.mk [2; 3] (inject_Z <$> Examples.range_Z 1 6);
          "observations/gripper" := Np.mk [2; 1] [0; 1]%Q ]};
     images := ∅ |}.

Definition dir_q : gmap string (entry Q (list nat) (list nat)) :=
  {[ "episode_0.hdf5" := Hdf5 episode_q ]}.

Definition init_q (use_cache : bool) :=
  SapienDataset__init__ (fun x : Q => x) forward6q Examples.resize
    Examples.frame_dims Examples.encode Examples.decode 4
    [] shape_meta_q dir_q 16 0 0 true use_cache None.

End MoreExamples.

(** ** Items for the training loop *)

(** The number of leading steps [slice(n_obs_steps)] keeps of [t]:
    all of them for [None]. *)
Definition steps_kept (n_obs_steps : option nat) (t : nat) : nat :=
  match n_obs_steps with Some s => s `min` t | None => t end.

(** [a[slice(stop)]]: the leading entries along axis 0; an array
    without axes cannot be sliced. *)
Definition slice_first {A} (stop : option nat) (a : Np.ndarray A)
  : result (Np.ndarray A) :=
  match Np.shape a with
  | [] => Raise IndexError
  | t :: tl =>
      let n := steps_kept stop t in
      Ok (Np.mk (n :: tl) (take (n * Np.size_of tl) (Np.data a)))
  end.

(** Column [j] of a matrix given by its rows, and the transpose of a
    matrix with [c] columns. *)
Definition column {A} (rows : list (list A)) (j : nat) : list A :=
  omap (fun r => r !! j) rows.

Definition transpose {A} (c : nat) (rows : list (list A)) : list (list A) :=
  column rows <$> seq 0 c.

(** [np.moveaxis(a, -1, 1)]: the last axis becomes the second one.  For
    every entry along axis 0 this transposes the matrix whose rows run
    over the middle axes and whose columns run over the last axis.  With
    fewer than two axes the destination is out of bounds
    ([numpy.AxisError], a [ValueError]). *)
Definition moveaxis_last_to_1 {A} (a : Np.ndarray A) : result (Np.ndarray A) :=
  match Np.shape a with
  | t :: rest =>
      match Np.split_last rest with
      | Some (mid, c) =>
          let m := Np.size_of mid in
          Ok (Np.mk (t :: c :: mid)
                (concat ((fun block => concat (transpose c (Np.chunks c m block)))
                           <$> Np.chunks (m * c) t (Np.data a))))
      | None => Raise ValueError
      end
  | [] => Raise ValueError
  end.

(** The dictionary [_sample_to_data] returns. *)
Record Data (Tensor : Type) : Type := {
  data_obs : gmap string Tensor;
  data_action : Tensor
}.
Arguments data_obs {Tensor} _.
Arguments data_action {Tensor} _.

Section SampleToData.
(** [A]: the elements of the sampled arrays; [F]: float32 values;
    [to_float32]: the conversion of [astype(np.float32)]; [div255]: the
    division by [255.]. *)
Context {A F Tensor B Chunk : Type}.
Variable to_float32 : A -> F.
Variable div255 : F -> F.
(** [torch.from_numpy], and [dict_apply] of [pytorch_util]. *)
Variable from_numpy : Np.ndarray F -> Tensor.
Variable dict_apply :
  (Np.ndarray F -> Tensor) -> gmap string (Np.ndarray F) -> gmap string Tensor.

#[local] Abbreviation Sample := (gmap string (Np.ndarray A)).
#[local] Abbreviation ObsDict := (gmap string (Np.ndarray F)).

(** [np.moveaxis(arr[T_slice], -1, 1).astype(np.float32) / 255.] *)
Definition rgb_obs (n_obs_steps : option nat) (arr : Np.ndarray A)
  : result (Np.ndarray F) :=
  arr ← slice_first n_obs_steps arr;
  arr ← moveaxis_last_to_1 arr;
  Ok (Np.astype div255 (Np.astype to_float32 arr)).

(** [arr[T_slice].astype(np.float32)] *)
Definition lowdim_obs (n_obs_steps : option nat) (arr : Np.ndarray A)
  : result (Np.ndarray F) :=
  arr ← slice_first n_obs_steps arr;
  Ok (Np.astype to_float32 arr).

(** The body of the two loops over the keys,
    [obs_dict[key] = value(sample[key]); del sample[key]]; the state is
    the sample, which the loops empty key by key, and [obs_dict]. *)
Definition to_obs (value : Np.ndarray A -> result (Np.ndarray F))
    (st : Sample * ObsDict) (key : string) : result (Sample * ObsDict) :=
  arr ← getitem st.1 key;
  v ← value arr;
  Ok (delete key st.1, <[key := v]> st.2).

(** [SapienDataset._sample_to_data]; [n_obs_steps] is the attribute
    [self.n_obs_steps] ([__init__] sets it to [None]).  The first
    component of the result is the caller's [sample] dictionary as the
    call leaves it. *)
Definition _sample_to_data (self : SapienDataset B Chunk)
    (n_obs_steps : option nat) (sample : Sample)
  : result (Sample * Data Tensor) :=
  st ← foldM (to_obs (rgb_obs n_obs_steps)) (sample, ∅) (rgb_keys self);
  '(sample, obs_dict) ←
    foldM (to_obs (lowdim_obs n_obs_steps)) st (lowdim_keys self);
  let obs := dict_apply from_numpy obs_dict in
  action ← getitem sample "action";
  Ok (sample, {| data_obs := obs;
                 data_action := from_numpy (Np.astype to_float32 action) |}).

End SampleToData.

(** A concrete sample: a window of two steps with a camera of one row,
    two columns and three channels.  Pixels are integers, float32
    values are rationals, a tensor is the array it is made from. *)
Module SampleExamples.

Definition to_float32 (x : Z) : Q := inject_Z x.
Definition div255 (q : Q) : Q := (q / 255)%Q.
Definition from_numpy (a : Np.ndarray Q) : Np.ndarray Q := a.
Definition dict_apply (f : Np.ndarray Q -> Np.ndarray Q)
    (d : gmap string (Np.ndarray Q)) : gmap string (Np.ndarray Q) := f <$> d.

Definition cam : Np.ndarray Z := Np.mk [2; 1; 2; 3] (Examples.range_Z 0 12).

Definition sample : gmap string (Np.ndarray Z) :=
  {[ "cam" := cam;
     "eef_pos" := Np.mk [2; 1] [5; 7]%Z;
     "action" := Np.mk [2; 2] [1; 2; 3; 4]%Z ]}.

Definition item (n_obs_steps : option nat) (sample : gmap string (Np.ndarray Z))
  : result (gmap string (Np.ndarray Z) * Data (Np.ndarray Q)) :=
  _sample_to_data to_float32 div255 from_numpy dict_apply
    MoreExamples.dataset_cam n_obs_steps sample.

End SampleExamples.

(** ** The environment wrapper: spaces and cameras

    The part of [SapienEnvWrapper.__init__]
    ([env/sapien_env/sapien_env_wrapper.py]) that is computed from the
    shape metadata and the camera names. *)

(** [gym.spaces.Box(low, high, shape, dtype=np.float32)] with scalar
    bounds. *)
Record Box : Type := {
  low : Z;
  high : Z;
  box_shape : list nat
}.

(** The state of the loop over [shape_meta['obs']]: the observation
    space so far and the attributes [img_h], [img_w]. *)
Record ObsSpaces : Type := {
  observation_space : Dict.t Box;
  img_h : Z;
  img_w : Z
}.

(** The body of [for key, value in shape_meta['obs'].items()]. *)
Definition add_obs_space (st : ObsSpaces) (item : string * Attr)
  : result ObsSpaces :=
  let key := item.1 in
  let shape := attr_shape item.2 in
  '(min_value, max_value, img) ←
    (if endswith key "color" then
       (* self.img_h, self.img_w = shape[1:] *)
       match drop 1 shape with
       | [h; w] => Ok (0, 1, (Z.of_nat h, Z.of_nat w))%Z
       | _ => Raise ValueError
       end
     else if endswith key "quat" then Ok (-1, 1, (img_h st, img_w st))%Z
     else if endswith key "qpos" then Ok (-1, 1, (img_h st, img_w st))%Z
     else if endswith key "pos" then Ok (-1, 1, (img_h st, img_w st))%Z
     else Raise (RuntimeError ("Unsupported type " +:+ key)));
  let this_space :=
    {| low := min_value; high := max_value; box_shape := shape |} in
  Ok {| observation_space := Dict.set (observation_space st) key this_space;
        img_h := img.1;
        img_w := img.2 |}.

(** [s.split(sep)] for a separator of one character, and
    [sep.join(parts)]. *)
Fixpoint str_split (sep : Ascii.ascii) (s : string) : list string :=
  match s with
  | EmptyString => [EmptyString]
  | String c s' =>
      if bool_decide (c = sep) then EmptyString :: str_split sep s'
      else match str_split sep s' with
           | part :: parts => String c part :: parts
           | [] => [String c EmptyString]
           end
  end.

Fixpoint str_join (sep : string) (parts : list string) : string :=
  match parts with
  | [] => EmptyString
  | part :: parts' =>
      match parts' with
      | [] => part
      | _ :: _ => part +:+ sep +:+ str_join sep parts'
      end
  end.

(** The character ['_'] (code 95). *)
Definition underscore : Ascii.ascii := Ascii.ascii_of_nat 95.

(** [split_name = name.split('_'); split_name.append('view');
    rejoin_name = '_'.join(split_name)]. *)
Definition rejoin_name (name : string) : string :=
  str_join "_" (str_split underscore name ++ ["view"]).

(** The cameras [__init__] creates: those of [YX_TABLE_TOP_CAMERAS] (a
    constant of the simulator package, given here by its camera names)
    whose rejoined name is among [render_obs_keys]. *)
Definition created_cameras (YX_TABLE_TOP_CAMERAS render_obs_keys : list string)
  : list string :=
  filter (fun name => rejoin_name name ∈ render_obs_keys) YX_TABLE_TOP_CAMERAS.

(** [SapienEnvWrapper.__init__]: the action space, the observation
    space with the image size, and the cameras created. *)
Definition SapienEnvWrapper__init__ (YX_TABLE_TOP_CAMERAS : list string)
    (shape_meta : ShapeMeta) (render_obs_keys : list string)
  : result (Box * ObsSpaces * list string) :=
  action_shape ← (match action shape_meta with
                  | Some sh => Ok sh
                  | None => Raise (KeyError "action")
                  end);
  let action_space :=
    {| low := -1; high := 1; box_shape := action_shape |} in
  spaces ← foldM add_obs_space
             {| observation_space := []; img_h := -1; img_w := -1 |}
             (obs shape_meta);
  Ok (action_space, spaces,
      created_cameras YX_TABLE_TOP_CAMERAS render_obs_keys).

(** Shape metadata for the wrapper: a camera and two low-dimensional
    observations, named as the wrapper wants them. *)
Module WrapperExamples.

Definition shape_meta : ShapeMeta :=
  {| obs := [("front_view_color", {| attr_shape := [3; 60; 80]; attr_type := Some "rgb" |});
             ("right_view_color", {| attr_shape := [3; 30; 40]; attr_type := Some "rgb" |});
             ("ee_pos", {| attr_shape := [7]; attr_type := None |})];
     action := Some [10] |}.

Definition cameras : list string := ["front"; "right"; "right_bottom"].

End WrapperExamples.

(** ** The sampler attributes and the validation split *)

(** The attributes of the dataset object around its sampler. *)
Record Sampling (Sampler : Type) : Type := {
  sampler : Sampler;
  train_mask : list bool;
  n_obs_steps : option nat
}.
Arguments sampler {Sampler} _.
Arguments train_mask {Sampler} _.
Arguments n_obs_steps {Sampler} _.

Section Validation.
Context {A Chunk Sampler : Type}.
(** [SequenceSampler(replay_buffer, sequence_length, pad_before,
    pad_after, episode_mask)] and [get_val_mask(n_episodes, val_ratio,
    seed)], collaborators from the sampler module. *)
Variable SequenceSampler :
  ReplayBuffer A Chunk -> nat -> nat -> nat -> list bool -> Sampler.
Variable get_val_mask : nat -> Q -> nat -> list bool.

(** Modelled from the spec: [replay_buffer.n_episodes], the "length =
    episode count" of the episode-end offsets. *)
Definition n_episodes (rb : ReplayBuffer A Chunk) : nat :=
  length (meta_episode_ends rb).

(** The end of [SapienDataset.__init__]: the masks and the sampler of
    the object whose other attributes are [self]. *)
Definition init_sampling (self : SapienDataset A Chunk)
    (seed : nat) (val_ratio : Q) : Sampling Sampler :=
  let val_mask := get_val_mask (n_episodes (replay_buffer self)) val_ratio seed in
  let train_mask := negb <$> val_mask in
  {| sampler := SequenceSampler (replay_buffer self) (horizon self)
                  (pad_before self) (pad_after self) train_mask;
     train_mask := train_mask;
     n_obs_steps := None |}.

(** [SapienDataset.get_validation_dataset]: a shallow copy with the
    complementary mask and a sampler over it. *)
Definition get_validation_dataset
    (self : SapienDataset A Chunk * Sampling Sampler)
  : SapienDataset A Chunk * Sampling Sampler :=
  (self.1,
   {| sampler := SequenceSampler (replay_buffer self.1) (horizon self.1)
                   (pad_before self.1) (pad_after self.1)
                   (negb <$> train_mask self.2);
      train_mask := negb <$> train_mask self.2;
      n_obs_steps := n_obs_steps self.2 |}).

End Validation.

(** ** The environment wrapper: observations and the render cache *)

(** The exceptions of the wrapper's methods: those of the dataset
    module, and [AttributeError] for an attribute that was never set. *)
Inductive wrapper_exn : Type :=
  | Exn (e : exn)
  | AttributeError (attr : string).

(** The attributes of the wrapper that change: the simulator behind
    [self.env] and [self.gui], and [self.render_cache], which is [None]
    here as long as the attribute does not exist and holds the Python
    value otherwise (a list of images, or Python's [None]). *)
Record WrapperState (Env Img : Type) : Type := {
  env : Env;
  render_cache : option (option (list Img))
}.
Arguments env {Env Img} _.
Arguments render_cache {Env Img} _.

Section WrapperObservation.
Context {Env Arr Img : Type}.
(** What lines 115-135 of [get_observation] read off the simulator when
    no [raw_obs] is passed; [(a.transpose(1,2,0) * 255).astype(np.uint8)];
    [np.concatenate(imgs, axis=1).astype(np.uint8)]; and [self.gui.render()]
    with the camera names. *)
Variable build_raw_obs : Env -> result (gmap string Arr).
Variable to_uint8_hwc : Arr -> result Img.
Variable concatenate_axis1 : list Img -> result Img.
Variable gui_render : Env -> result (list (string * Img)).
(** [self.render_obs_keys] and [self.observation_space.keys()]. *)
Variable render_obs_keys : list string.
Variable observation_keys : list string.

#[local] Abbreviation State := (WrapperState Env Img).

(** The wrapper as [__init__] leaves it: [render_cache] is not
    assigned there. *)
Definition wrapper_initial (e : Env) : State :=
  {| env := e; render_cache := None |}.

(** [(raw_obs[f'{render_obs_key}_color'].transpose(1,2,0) * 255)
    .astype(np.uint8)]. *)
Definition render_image (raw_obs : gmap string Arr) (render_obs_key : string)
  : result Img :=
  a ← getitem raw_obs (render_obs_key +:+ "_color");
  to_uint8_hwc a.

(** The body of [for key in self.observation_space.keys()]. *)
Definition copy_obs (raw_obs : gmap string Arr) (obs : gmap string Arr)
    (key : string) : result (gmap string Arr) :=
  v ← getitem raw_obs key;
  Ok (<[key := v]> obs).

(** [SapienEnvWrapper.get_observation]; the first component is the
    wrapper afterwards. *)
Definition get_observation (self : State) (raw_obs : option (gmap string Arr))
  : State * result (gmap string Arr) :=
  match (match raw_obs with
         | Some raw_obs => Ok raw_obs
         | None => build_raw_obs (env self)
         end) with
  | Raise e => (self, Raise e)
  | Ok raw_obs =>
      match mapM_result (render_image raw_obs) render_obs_keys with
      | Raise e => (self, Raise e)
      | Ok cache =>
          ({| env := env self; render_cache := Some (Some cache) |},
           foldM (copy_obs raw_obs) ∅ observation_keys)
      end
  end.

(** [SapienEnvWrapper.render]. *)
Definition render (self : State) : Img + wrapper_exn :=
  match render_cache self with
  | None => inr (AttributeError "render_cache")
  | Some (Some cache) =>
      match concatenate_axis1 cache with
      | Ok rgbs_sel => inl rgbs_sel
      | Raise e => inr (Exn e)
      end
  | Some None =>
      match (rgbs ← gui_render (env self);
             concatenate_axis1
               (filter (fun cam => cam.1 ∈ render_obs_keys) rgbs).*2) with
      | Ok rgbs_sel => inl rgbs_sel
      | Raise e => inr (Exn e)
      end
  end.

(** The states the wrapper goes through: it starts as [__init__] leaves
    it, the simulator moves on ([reset], [step], [seed]), observations
    are taken. *)
Inductive wrapper_reachable : State -> Prop :=
  | reachable_initial (e : Env) : wrapper_reachable (wrapper_initial e)
  | reachable_env (self : State) (e : Env) :
      wrapper_reachable self ->
      wrapper_reachable {| env := e; render_cache := render_cache self |}
  | reachable_observation (self : State) (raw_obs : option (gmap string Arr)) :
      wrapper_reachable self ->
      wrapper_reachable (get_observation self raw_obs).1.

End WrapperObservation.

(** * Properties *)

(** ** Results *)

Lemma bind_Ok {T U} (c : result T) (k : T -> result U) (u : U) :
  (x ← c; k x) = Ok u ↔ ∃ x, c = Ok x ∧ k x = Ok u.
Proof.
  destruct c as [v|e]; simpl; split.
  - intros H. eauto.
  - intros (x & [= <-] & H). done.
  - discriminate.
  - intros (x & [=] & _).
Qed.

Lemma bind_Raise {T U} (c : result T) (k : T -> result U) (e : exn) :
  (x ← c; k x) = Raise e ↔ c = Raise e ∨ ∃ x, c = Ok x ∧ k x = Raise e.
Proof.
  destruct c as [v|e']; simpl; split.
  - intros H. right. eauto.
  - intros [H|(x & H1 & H)]; [discriminate|]. by injection H1 as <-.
  - intros [= ->]. by left.
  - intros [[= ->]|(x & H1 & _)]; [done|discriminate].
Qed.

(** ** Arrays *)

Lemma split_last_snoc (lead : list nat) (d : nat) :
  Np.split_last (lead ++ [d]) = Some (lead, d).
Proof.
  unfold Np.split_last. by rewrite reverse_snoc, reverse_involutive.
Qed.

Lemma split_last_Some (s lead : list nat) (d : nat) :
  Np.split_last s = Some (lead, d) → s = lead ++ [d].
Proof.
  unfold Np.split_last. destruct (reverse s) as [|x l] eqn:E; [done|].
  intros [= <- <-]. rewrite <- (reverse_involutive s), E.
  by rewrite reverse_cons.
Qed.


Lemma length_chunks {A} d n (l : list A) : length (Np.chunks d n l) = n.
Proof. revert l. induction n; intros; simpl; auto. Qed.








Lemma length_concat_uniform {A} d (rs : list (list A)) :
  Forall (fun r => length r = d) rs → length (concat rs) = length rs * d.
Proof.
  induction 1 as [|r rs Hr _ IH]; simpl; [done|].
  rewrite length_app. lia.
Qed.


(** ** The action canonicalizer *)

Lemma reshape_infer_Ok {A} (a out : Np.ndarray A) (tl : list nat) :
  Np.reshape_infer a tl = Ok out →
  out = Np.mk (Np.size_of (Np.shape a) / Np.size_of tl :: tl) (Np.data a).
Proof.
  unfold Np.reshape_infer.
  destruct (Np.size_of tl =? 0); [done|].
  destruct (_ mod _ =? 0); [|done]. by intros [= <-].
Qed.


(** C10: whenever the canonicalizer returns on a raw array of last
    dimension 14, the result has last dimension 20, whatever the rotation
    conversion yields: the last step is [reshape(-1, 20)]. *)
Theorem convert_actions_dual_arm_width {A F32 : Type}
    (to_float32 : A → F32) (forward : Np.ndarray A → result (Np.ndarray A))
    (raw_actions : Np.ndarray A) (actions : Np.ndarray F32) :
  Np.last_dim raw_actions = Ok 14 →
  _convert_actions to_float32 forward raw_actions = Ok actions →
  Np.last_dim actions = Ok 20.
Proof.
  intros Hd. unfold _convert_actions. rewrite Hd. simpl.
  intros H.
  apply bind_Ok in H as ([r b] & H1 & H).
  apply bind_Ok in H1 as (r' & _ & [= <- <-]).
  apply bind_Ok in H as (pos & _ & H).
  apply bind_Ok in H as (rot & _ & H).
  apply bind_Ok in H as (gripper & _ & H).
  apply bind_Ok in H as (rot' & _ & H).
  apply bind_Ok in H as (cat & _ & H).
  apply reshape_infer_Ok in H as ->.
  reflexivity.
Qed.

Lemma convert_actions_dual_arm_width_witness :
  ∃ actions,
    _convert_actions Examples.cast Examples.forward6 Examples.dual_arm = Ok actions
    ∧ Np.last_dim actions = Ok 20.
Proof.
  eexists. split; [reflexivity|].
  apply (convert_actions_dual_arm_width Examples.cast Examples.forward6
           Examples.dual_arm); reflexivity.
Defined.

Section ConvertActionsSpec.
Context {A F32 : Type}.
Variable to_float32 : A → F32.
Variable forward : Np.ndarray A → result (Np.ndarray A).
(** The rotation converter works on each angle triple by itself and
    yields [rot_w] values for it. *)
Variable rot_row : list A → list A.
Variable rot_w : nat.
Hypothesis rot_row_length : ∀ r, length r = 3 → length (rot_row r) = rot_w.
Hypothesis forward_rows : ∀ a lead,
  Np.wf a → Np.shape a = lead ++ [3] →
  forward a = Ok (Np.mk (lead ++ [rot_w]) (concat (rot_row <$> Np.rows a))).







End ConvertActionsSpec.




(** ** Loops *)

Lemma foldM_app {S X} (f : S → X → result S) (s : S) (l1 l2 : list X) :
  foldM f s (l1 ++ l2) = (s' ← foldM f s l1; foldM f s' l2).
Proof.
  revert s. induction l1 as [|x l1 IH]; intros s; simpl; [done|].
  destruct (f s x) as [s'|e]; simpl; [apply IH|done].
Qed.

Lemma foldM_cons_Ok {S X} (f : S → X → result S) (s s2 : S) (x : X) (l : list X) :
  foldM f s (x :: l) = Ok s2 ↔ ∃ s1, f s x = Ok s1 ∧ foldM f s1 l = Ok s2.
Proof. simpl. apply bind_Ok. Qed.

(** ** Running totals *)

Lemma length_running_totals start counts :
  length (running_totals start counts) = length counts.
Proof. revert start. induction counts; intros; simpl; auto. Qed.

Lemma running_totals_app start c1 c2 :
  running_totals start (c1 ++ c2)
  = running_totals start c1 ++ running_totals (start + sum_list c1) c2.
Proof.
  revert start. induction c1 as [|n c1 IH]; intros start; simpl.
  - by rewrite Nat.add_0_r.
  - rewrite IH. by rewrite Nat.add_assoc.
Qed.

Lemma running_totals_lookup start counts k e :
  running_totals start counts !! k = Some e →
  e = start + sum_list (take (S k) counts).
Proof.
  revert start k. induction counts as [|n counts IH]; intros start k; [done|].
  destruct k as [|k]; simpl.
  - intros [= <-]. lia.
  - intros H. apply IH in H. simpl in H. lia.
Qed.

Lemma sum_list_take_le (counts : list nat) i j :
  i ≤ j → sum_list (take i counts) ≤ sum_list (take j counts).
Proof.
  revert i j. induction counts as [|n counts IH]; intros i j Hij.
  - by rewrite !take_nil.
  - destruct i as [|i]; [simpl; lia|].
    destruct j as [|j]; [lia|]. simpl.
    specialize (IH i j). lia.
Qed.

Lemma running_totals_last start counts :
  counts ≠ [] →
  last (running_totals start counts) = Some (start + sum_list counts).
Proof.
  revert start. induction counts as [|n counts IH]; intros start Hne; [done|].
  destruct counts as [|m counts].
  - simpl. f_equal. lia.
  - change (running_totals start (n :: m :: counts))
      with ((start + n) :: running_totals (start + n) (m :: counts)).
    rewrite last_cons, IH by done. simpl. f_equal. lia.
Qed.

(** ** The episode loop *)

Lemma getitem_Ok {V} (d : gmap string V) key v :
  getitem d key = Ok v ↔ d !! key = Some v.
Proof. unfold getitem. destruct (d !! key); naive_solver. Qed.

Lemma first_dim_Ok {A} (a : Np.ndarray A) n :
  Np.first_dim a = Ok n ↔ head (Np.shape a) = Some n.
Proof. unfold Np.first_dim. destruct (Np.shape a); naive_solver. Qed.

Section ConverterFacts.
Context {A Frame Chunk : Type}.
Variable to_float32 : A → A.
Variable forward : Np.ndarray A → result (Np.ndarray A).
Variable cv2_resize : Frame → nat → nat → result Frame.
Variable frame_shape : Frame → list nat.
Variable jpeg2k_encode : Frame → result Chunk.
Variable jpeg2k_decode : Chunk → result Frame.
Variable cpu_count : nat.

#[local] Abbreviation DirT := (gmap string (entry A Frame Chunk)).
#[local] Abbreviation load_episode' :=
  (load_episode to_float32 forward cv2_resize frame_shape (Chunk:=Chunk)).
#[local] Abbreviation load_episodes' :=
  (load_episodes to_float32 forward cv2_resize frame_shape (Chunk:=Chunk)).
#[local] Abbreviation convert' :=
  (_convert_sapein_to_dp_replay to_float32 forward cv2_resize frame_shape
     jpeg2k_encode jpeg2k_decode cpu_count).

Lemma open_hdf5_Ok (dir : DirT) name file :
  open_hdf5 dir name = Ok file ↔ dir !! name = Some (Hdf5 file).
Proof.
  unfold open_hdf5. destruct (dir !! name) as [[]|]; naive_solver.
Qed.

Lemma load_episode_Ok shape_meta (dir : DirT) lowdim_keys rgb_keys st k st' :
  load_episode' shape_meta dir lowdim_keys rgb_keys st k = Ok st' →
  ∃ file cartesian_action episode_length lowdim rgb,
    dir !! episode_file_name k = Some (Hdf5 file)
    ∧ datasets file !! "cartesian_action" = Some cartesian_action
    ∧ head (Np.shape cartesian_action) = Some episode_length
    ∧ foldM (load_lowdim to_float32 forward shape_meta file episode_length)
        (lowdim_data_dict st) (lowdim_keys ++ ["action"]) = Ok lowdim
    ∧ foldM (load_rgb cv2_resize frame_shape shape_meta file)
        (rgb_data_dict st) rgb_keys = Ok rgb
    ∧ st' = {| episode_ends := episode_ends st ++ [prev_end st + episode_length];
               prev_end := prev_end st + episode_length;
               lowdim_data_dict := lowdim;
               rgb_data_dict := rgb |}.
Proof.
  unfold load_episode. intros H.
  apply bind_Ok in H as (file & Hf & H).
  apply bind_Ok in H as (ca & Hca & H).
  apply bind_Ok in H as (len & Hlen & H).
  apply bind_Ok in H as (lowdim & Hl & H).
  apply bind_Ok in H as (rgb & Hr & [= <-]).
  apply open_hdf5_Ok in Hf. apply getitem_Ok in Hca. apply first_dim_Ok in Hlen.
  by exists file, ca, len, lowdim, rgb.
Qed.

Lemma load_episode_step_count shape_meta (dir : DirT) lowdim_keys rgb_keys st k st' :
  load_episode' shape_meta dir lowdim_keys rgb_keys st k = Ok st' →
  ∃ n, raw_step_count dir k = Some n
       ∧ episode_ends st' = episode_ends st ++ [prev_end st + n]
       ∧ prev_end st' = prev_end st + n.
Proof.
  intros H. apply load_episode_Ok in H
    as (file & ca & n & lowdim & rgb & Hf & Hca & Hn & _ & _ & ->).
  exists n. unfold raw_step_count. by rewrite Hf, Hca.
Qed.

(** The loop over [seq first n] appends the running totals of the step
    counts of the episodes it reads. *)
Lemma load_loop_ends shape_meta (dir : DirT) lowdim_keys rgb_keys n first st st' :
  foldM (load_episode' shape_meta dir lowdim_keys rgb_keys) st (seq first n)
  = Ok st' →
  ∃ counts,
    Forall2 (fun k c => raw_step_count dir k = Some c) (seq first n) counts
    ∧ episode_ends st' = episode_ends st ++ running_totals (prev_end st) counts
    ∧ prev_end st' = prev_end st + sum_list counts.
Proof.
  revert first st. induction n as [|n IH]; intros first st.
  - intros [= <-]. exists []. simpl. rewrite app_nil_r. auto.
  - simpl seq. intros H. apply foldM_cons_Ok in H as (st1 & H1 & H).
    apply load_episode_step_count in H1 as (c & Hc & He & Hp).
    apply IH in H as (counts & Hcs & He' & Hp').
    exists (c :: counts). split; [by constructor|]. simpl.
    rewrite He', He, Hp', Hp, <- (assoc_L (++)). simpl. split; [done|lia].
Qed.

Lemma convert_Ok_inv sched shape_meta (dir : DirT) n_workers max_inflight_tasks rb :
  convert' sched shape_meta dir n_workers max_inflight_tasks = Ok rb →
  ∃ st n_steps g p,
    load_episodes' shape_meta dir = Ok st
    ∧ last (episode_ends st) = Some n_steps
    ∧ foldM dump_lowdim ∅ (lowdim_data_dict st) = Ok g
    ∧ default cpu_count n_workers ≠ 0
    ∧ foldM (dump_rgb jpeg2k_encode jpeg2k_decode shape_meta n_steps
               (default (default cpu_count n_workers * 5) max_inflight_tasks))
        {| group := g; futures := []; schedule := sched |}
        (rgb_data_dict st) = Ok p
    ∧ check_completed (wait_all jpeg2k_encode jpeg2k_decode p).1 = Ok tt
    ∧ rb = {| meta_episode_ends := episode_ends st;
              data_group := group (wait_all jpeg2k_encode jpeg2k_decode p).2 |}.
Proof.
  unfold _convert_sapein_to_dp_replay. intros H.
  apply bind_Ok in H as (st & Hst & H).
  apply bind_Ok in H as (n_steps & Hn & H).
  apply bind_Ok in H as (g & Hg & H).
  apply bind_Ok in H as ([] & Hw & H).
  apply bind_Ok in H as (p & Hp & H).
  destruct (wait_all jpeg2k_encode jpeg2k_decode p) as [completed p'] eqn:Hwa.
  apply bind_Ok in H as ([] & Hc & [= <-]).
  exists st, n_steps, g, p. rewrite Hwa. simpl. split_and!; try done.
  - by destruct (last (episode_ends st)); simplify_eq.
  - by destruct (default cpu_count n_workers).
Qed.

(** C2: after a successful conversion [episode_ends] has one entry per
    episode; each entry exceeds the one before it (0 for the first) by
    exactly that episode's raw step count; the entries never decrease;
    the last one is the total number of steps of all episodes. *)
Theorem episode_ends_cumulative sched shape_meta (dir : DirT)
    n_workers max_inflight_tasks rb :
  convert' sched shape_meta dir n_workers max_inflight_tasks = Ok rb →
  let ends := meta_episode_ends rb in
  let n := length (glob_episodes dir) in
  length ends = n
  ∧ (∀ k e, ends !! k = Some e →
       let before := match k with 0 => 0 | S j => default 0 (ends !! j) end in
       before ≤ e ∧ raw_step_count dir k = Some (e - before))
  ∧ (∀ i j a b, i ≤ j → ends !! i = Some a → ends !! j = Some b → a ≤ b)
  ∧ ∃ counts,
      Forall2 (fun k c => raw_step_count dir k = Some c) (seq 0 n) counts
      ∧ last ends = Some (sum_list counts).
Proof.
  intros H ends n.
  apply convert_Ok_inv in H as (st & n_steps & g & p & Hst & Hlast & _ & _ & _ & _ & ->).
  unfold load_episodes in Hst.
  apply load_loop_ends in Hst as (counts & Hcs & He & _).
  simpl in He. subst ends. simpl.
  fold n in Hcs. rewrite He in *. clear He.
  pose proof (Forall2_length _ _ _ Hcs) as Hlen. rewrite length_seq in Hlen.
  split_and!.
  - by rewrite length_running_totals.
  - intros k e Hk.
    pose proof (lookup_lt_Some _ _ _ Hk) as Hlt. rewrite length_running_totals in Hlt.
    destruct (lookup_lt_is_Some_2 counts k Hlt) as [c Hc].
    apply running_totals_lookup in Hk. rewrite (take_S_r _ _ _ Hc), sum_list_with_app in Hk.
    simpl in Hk.
    assert (raw_step_count dir k = Some c) as Hraw.
    { eapply Forall2_lookup_lr in Hcs; [exact Hcs| |exact Hc].
      rewrite lookup_seq. split; [done|lia]. }
    destruct k as [|j]; simpl.
    + rewrite take_0 in Hk. simpl in Hk. split; [lia|].
      rewrite Hraw. f_equal. lia.
    + destruct (running_totals 0 counts !! j) as [b|] eqn:Hb; simpl.
      * apply running_totals_lookup in Hb. split; [lia|].
        rewrite Hraw. f_equal. lia.
      * apply lookup_ge_None in Hb. rewrite length_running_totals in Hb. lia.
  - intros i j a b Hij Ha Hb.
    apply running_totals_lookup in Ha, Hb. subst.
    pose proof (sum_list_take_le counts (S i) (S j)). lia.
  - exists counts. split; [done|].
    destruct counts as [|c counts]; [done|].
    by rewrite running_totals_last.
Qed.

End ConverterFacts.

(** ** File names *)

Lemma string_app_cons (c : Ascii.ascii) (s1 s2 : string) :
  String c s1 +:+ s2 = String c (s1 +:+ s2).
Proof. reflexivity. Qed.

Lemma string_length_app (s1 s2 : string) :
  String.length (s1 +:+ s2) = String.length s1 + String.length s2.
Proof.
  induction s1 as [|c s1 IH]; [done|].
  rewrite string_app_cons. simpl. by rewrite IH.
Qed.

Lemma substring_all (s : string) : String.substring 0 (String.length s) s = s.
Proof. induction s as [|c s IH]; [done|]. simpl. by rewrite IH. Qed.

Lemma substring_app_r (s1 s2 : string) (n : nat) :
  String.substring (String.length s1) n (s1 +:+ s2) = String.substring 0 n s2.
Proof.
  induction s1 as [|c s1 IH]; [done|]. rewrite string_app_cons. simpl. apply IH.
Qed.

Lemma endswith_app (s suffix : string) : endswith (s +:+ suffix) suffix = true.
Proof.
  unfold endswith. rewrite string_length_app.
  apply andb_true_iff. split.
  - apply Nat.leb_le. lia.
  - apply bool_decide_eq_true.
    replace (String.length s + String.length suffix - String.length suffix)
      with (String.length s) by lia.
    by rewrite substring_app_r, substring_all.
Qed.

Lemma string_app_assoc (s1 s2 s3 : string) : (s1 +:+ s2) +:+ s3 = s1 +:+ s2 +:+ s3.
Proof.
  induction s1 as [|c s1 IH]; [done|]. rewrite !string_app_cons. by rewrite IH.
Qed.

Lemma string_app_inj_r (s1 s2 t : string) : s1 +:+ t = s2 +:+ t → s1 = s2.
Proof.
  revert s2. induction s1 as [|c s1 IH]; intros [|c2 s2] H.
  - done.
  - apply (f_equal String.length) in H.
    rewrite !string_length_app in H. simpl in H. lia.
  - apply (f_equal String.length) in H.
    rewrite !string_length_app in H. simpl in H. lia.
  - rewrite !string_app_cons in H. injection H as -> H. f_equal. by apply IH.
Qed.

Lemma prefix_app (s1 s2 : string) : String.prefix s1 (s1 +:+ s2) = true.
Proof.
  induction s1 as [|c s1 IH]; [by destruct s2|].
  rewrite string_app_cons. simpl. by destruct (Ascii.ascii_dec c c).
Qed.

Lemma episode_file_name_matches k :
  matches_episode_pattern (episode_file_name k) = true.
Proof.
  unfold matches_episode_pattern, episode_file_name.
  rewrite <- string_app_assoc, endswith_app, andb_true_r.
  apply andb_true_iff. split; [|by rewrite string_app_assoc, prefix_app].
  apply Nat.leb_le. rewrite !string_length_app. simpl. lia.
Qed.

Lemma episode_file_name_inj : Inj (=) (=) episode_file_name.
Proof.
  intros i j H. unfold episode_file_name in H.
  apply (inj (String.app "episode_")) in H.
  apply string_app_inj_r in H. by apply (inj pretty) in H.
Qed.

(** ** Episode numbering *)

Lemma first_failure (P : nat → Prop) `{∀ k, Decision (P k)} (n : nat) :
  (∀ k, k < n → P k) ∨ ∃ i, i < n ∧ ¬ P i ∧ ∀ j, j < i → P j.
Proof.
  induction n as [|n [IH|(i & Hi & Hn & Hlt)]].
  - left. lia.
  - destruct (decide (P n)) as [Hp|Hp].
    + left. intros k Hk. destruct (decide (k = n)) as [->|]; [done|].
      apply IH. lia.
    + right. exists n. split_and!; [lia|done|done].
  - right. exists i. split_and!; [lia|done|done].
Qed.

Section Numbering.
Context {A Frame Chunk : Type}.
Variable to_float32 : A → A.
Variable forward : Np.ndarray A → result (Np.ndarray A).
Variable cv2_resize : Frame → nat → nat → result Frame.
Variable frame_shape : Frame → list nat.
Variable jpeg2k_encode : Frame → result Chunk.
Variable jpeg2k_decode : Chunk → result Frame.
Variable cpu_count : nat.

#[local] Abbreviation DirT := (gmap string (entry A Frame Chunk)).
#[local] Abbreviation load_first' :=
  (load_first to_float32 forward cv2_resize frame_shape (Chunk:=Chunk)).
#[local] Abbreviation convert' :=
  (_convert_sapein_to_dp_replay to_float32 forward cv2_resize frame_shape
     jpeg2k_encode jpeg2k_decode cpu_count).

Lemma elem_of_glob_episodes (dir : DirT) name :
  name ∈ glob_episodes dir
  ↔ matches_episode_pattern name = true ∧ is_Some (dir !! name).
Proof.
  unfold glob_episodes. rewrite list_elem_of_filter, list_elem_of_fmap.
  split.
  - intros [Hm ([k e] & -> & Hin)]. apply elem_of_map_to_list in Hin.
    simpl in *. eauto.
  - intros [Hm [e He]]. split; [done|]. exists (name, e). split; [done|].
    by apply elem_of_map_to_list.
Qed.

Lemma NoDup_glob_episodes (dir : DirT) : NoDup (glob_episodes dir).
Proof. apply NoDup_filter, NoDup_fst_map_to_list. Qed.

(** When the files [episode_0] to [episode_{N-1}] all exist, with [N]
    the number of matching names, they are all the matching names. *)
Lemma glob_episodes_contiguous (dir : DirT) :
  (∀ k, k < length (glob_episodes dir) → is_Some (dir !! episode_file_name k)) →
  episode_file_name <$> seq 0 (length (glob_episodes dir)) ≡ₚ glob_episodes dir.
Proof.
  intros Hall. apply submseteq_length_Permutation.
  - apply NoDup_submseteq.
    + apply (@NoDup_fmap_2 _ _ _ episode_file_name_inj), NoDup_seq.
    + intros name (k & -> & Hk)%list_elem_of_fmap.
      apply elem_of_seq in Hk. apply elem_of_glob_episodes.
      split; [apply episode_file_name_matches|]. apply Hall. lia.
  - by rewrite length_fmap, length_seq.
Qed.

Lemma load_first_split shape_meta (dir : DirT) i n :
  i < n →
  load_first' shape_meta dir n
  = (st ← load_first' shape_meta dir i;
     foldM (load_episode to_float32 forward cv2_resize frame_shape
              shape_meta dir
              (parse_lowdim_keys (obs shape_meta)) (parse_rgb_keys (obs shape_meta)))
       st (i :: seq (S i) (n - S i))).
Proof.
  intros Hi. unfold load_first.
  replace n with (i + S (n - S i)) at 1 by lia.
  by rewrite seq_app, foldM_app.
Qed.

Lemma load_first_present shape_meta (dir : DirT) n st :
  load_first' shape_meta dir n = Ok st →
  ∀ k, k < n → ∃ file, dir !! episode_file_name k = Some (Hdf5 file).
Proof.
  intros H k Hk. apply load_loop_ends in H as (counts & Hcs & _).
  destruct (Forall2_lookup_l _ _ _ k k Hcs) as (c & _ & Hc).
  { apply lookup_seq. split; [done|lia]. }
  unfold raw_step_count in Hc.
  destruct (dir !! episode_file_name k) as [[file| | |]|]; try done. eauto.
Qed.

Lemma load_first_missing shape_meta (dir : DirT) i n st :
  i < n → dir !! episode_file_name i = None →
  load_first' shape_meta dir i = Ok st →
  load_first' shape_meta dir n = Raise (FileNotFoundError (episode_file_name i)).
Proof.
  intros Hi Hnone Hst. rewrite (load_first_split _ _ i n Hi), Hst.
  cbn [mbind result_bind foldM].
  replace (load_episode _ _ _ _ _ _ _ _ st i)
    with (Raise (T:=Loaded A Frame) (FileNotFoundError (episode_file_name i)));
    [done|].
  unfold load_episode, open_hdf5. by rewrite Hnone.
Qed.

Lemma convert_load_Raise sched shape_meta (dir : DirT) n_workers max_inflight_tasks e :
  load_first' shape_meta dir (length (glob_episodes dir)) = Raise e →
  convert' sched shape_meta dir n_workers max_inflight_tasks = Raise e.
Proof.
  intros H. unfold _convert_sapein_to_dp_replay, load_episodes.
  unfold load_first in H. by rewrite H.
Qed.

(** C9: the number of rounds is the number of names matching
    [episode_*.hdf5], and round [k] opens [episode_k.hdf5].  A successful
    build therefore found the matching names to be exactly [episode_0] to
    [episode_{N-1}]; when some matching name is none of these, a file
    [episode_i.hdf5] with [i < N] is missing, no store is produced, and
    the build stops at the first such [i] with the file-open error
    (the episodes before it being read without error). *)
Theorem episode_numbering_gap sched shape_meta (dir : DirT)
    n_workers max_inflight_tasks :
  let n := length (glob_episodes dir) in
  (∀ rb, convert' sched shape_meta dir n_workers max_inflight_tasks = Ok rb →
         (∀ k, k < n → ∃ file, dir !! episode_file_name k = Some (Hdf5 file))
         ∧ episode_file_name <$> seq 0 n ≡ₚ glob_episodes dir)
  ∧ ((∃ name, name ∈ glob_episodes dir ∧ ∀ k, k < n → name ≠ episode_file_name k) →
     ∃ i, i < n
          ∧ dir !! episode_file_name i = None
          ∧ (∀ j, j < i → is_Some (dir !! episode_file_name j))
          ∧ (∀ rb, convert' sched shape_meta dir n_workers max_inflight_tasks ≠ Ok rb)
          ∧ (∀ st, load_first' shape_meta dir i = Ok st →
                   convert' sched shape_meta dir n_workers max_inflight_tasks
                   = Raise (FileNotFoundError (episode_file_name i)))).
Proof.
  intros n.
  assert (∀ rb, convert' sched shape_meta dir n_workers max_inflight_tasks = Ok rb →
                ∀ k, k < n → ∃ file, dir !! episode_file_name k = Some (Hdf5 file))
    as Hpresent.
  { intros rb H.
    apply convert_Ok_inv in H as (st & ? & ? & ? & Hst & _).
    by apply (load_first_present shape_meta dir n st). }
  split.
  - intros rb H. split; [by eapply Hpresent|].
    apply glob_episodes_contiguous. intros k Hk.
    destruct (Hpresent rb H k Hk) as [file ->]. eauto.
  - intros (name & Hin & Hne).
    destruct (first_failure (fun k => is_Some (dir !! episode_file_name k)) n)
      as [Hall|(i & Hi & Hmiss & Hbefore)].
    { exfalso. apply glob_episodes_contiguous in Hall.
      rewrite <- Hall in Hin. apply list_elem_of_fmap in Hin as (k & -> & Hk).
      apply elem_of_seq in Hk. apply (Hne k); [lia|done]. }
    exists i. apply eq_None_not_Some in Hmiss. split_and!; try done.
    + intros rb H. destruct (Hpresent rb H i Hi) as [file Hf]. congruence.
    + intros st Hst. apply convert_load_Raise.
      by apply (load_first_missing _ _ i n st).
Qed.

End Numbering.

(** ** Shape checks *)

Lemma foldM_Ok_each {S X} (f : S → X → result S) (s s' : S) (l : list X) :
  foldM f s l = Ok s' → ∀ x, x ∈ l → ∃ s1 s2, f s1 x = Ok s2.
Proof.
  revert s. induction l as [|y l IH]; intros s H x Hx.
  - by apply elem_of_nil in Hx.
  - apply foldM_cons_Ok in H as (s1 & H1 & H).
    apply elem_of_cons in Hx as [->|Hx]; eauto.
Qed.

Lemma foldM_Raise_at {S X} (f : S → X → result S) (s s1 : S)
    (before after : list X) (x : X) (e : exn) :
  foldM f s before = Ok s1 → f s1 x = Raise e →
  foldM f s (before ++ x :: after) = Raise e.
Proof. intros H1 H2. rewrite foldM_app, H1. simpl. by rewrite H2. Qed.

Section ShapeChecks.
Context {A Frame Chunk : Type}.
Variable to_float32 : A → A.
Variable forward : Np.ndarray A → result (Np.ndarray A).
Variable cv2_resize : Frame → nat → nat → result Frame.
Variable frame_shape : Frame → list nat.
Variable jpeg2k_encode : Frame → result Chunk.
Variable jpeg2k_decode : Chunk → result Frame.
Variable cpu_count : nat.

#[local] Abbreviation DirT := (gmap string (entry A Frame Chunk)).
#[local] Abbreviation load_first' :=
  (load_first to_float32 forward cv2_resize frame_shape (Chunk:=Chunk)).
#[local] Abbreviation convert' :=
  (_convert_sapein_to_dp_replay to_float32 forward cv2_resize frame_shape
     jpeg2k_encode jpeg2k_decode cpu_count).
#[local] Abbreviation mismatch :=
  (field_shape_mismatch to_float32 forward (Frame:=Frame)).

Lemma load_lowdim_mismatch shape_meta (file : H5File A Frame) episode_length key d :
  mismatch shape_meta file episode_length key →
  load_lowdim to_float32 forward shape_meta file episode_length d key
  = Raise AssertionError.
Proof.
  unfold field_shape_mismatch, load_lowdim.
  destruct (bool_decide (key = "action")).
  - intros (raw & act & declared & Hraw & Hact & Hdecl & Hne).
    unfold getitem. rewrite Hraw. cbn [mbind result_bind].
    rewrite Hact, Hdecl. cbn [mbind result_bind].
    by rewrite bool_decide_eq_false_2.
  - intros (arr & attr & Harr & Hattr & Hne).
    unfold getitem, Dict.getitem. rewrite Harr, Hattr. cbn [mbind result_bind].
    by rewrite bool_decide_eq_false_2.
Qed.

(** C6: when the episode loop reaches a field whose shape is not the
    episode length followed by the declared shape, the conversion ends
    there with the failed assertion; and a conversion that returns a
    store met no such field in any episode. *)
Theorem shape_mismatch_aborts sched shape_meta (dir : DirT)
    n_workers max_inflight_tasks :
  (∀ e st file cartesian_action episode_length before key after d,
     e < length (glob_episodes dir) →
     load_first' shape_meta dir e = Ok st →
     dir !! episode_file_name e = Some (Hdf5 file) →
     datasets file !! "cartesian_action" = Some cartesian_action →
     head (Np.shape cartesian_action) = Some episode_length →
     parse_lowdim_keys (obs shape_meta) ++ ["action"] = before ++ key :: after →
     foldM (load_lowdim to_float32 forward shape_meta file episode_length)
       (lowdim_data_dict st) before = Ok d →
     mismatch shape_meta file episode_length key →
     convert' sched shape_meta dir n_workers max_inflight_tasks
     = Raise AssertionError)
  ∧ (∀ rb e key,
       convert' sched shape_meta dir n_workers max_inflight_tasks = Ok rb →
       e < length (glob_episodes dir) →
       key ∈ parse_lowdim_keys (obs shape_meta) ++ ["action"] →
       ∃ file episode_length,
         dir !! episode_file_name e = Some (Hdf5 file)
         ∧ raw_step_count dir e = Some episode_length
         ∧ ¬ mismatch shape_meta file episode_length key).
Proof.
  split.
  - intros e st file ca len before key after d He Hst Hf Hca Hlen Hkeys Hd Hmis.
    apply convert_load_Raise.
    rewrite (load_first_split _ _ _ _ _ _ e _ He), Hst.
    cbn [mbind result_bind foldM].
    replace (load_episode _ _ _ _ _ _ _ _ st e)
      with (Raise (T:=Loaded A Frame) AssertionError); [done|].
    unfold load_episode, open_hdf5, getitem, Np.first_dim.
    rewrite Hf. cbn [mbind result_bind]. rewrite Hca. cbn [mbind result_bind].
    destruct (Np.shape ca) as [|n sh] eqn:Hsh; [done|].
    injection Hlen as ->. cbn [mbind result_bind].
    rewrite Hkeys.
    by rewrite (foldM_Raise_at _ _ d before after key AssertionError Hd
                  (load_lowdim_mismatch _ _ _ _ _ Hmis)).
  - intros rb e key H He Hkey.
    apply convert_Ok_inv in H as (st & ? & ? & ? & Hst & _).
    unfold load_episodes in Hst.
    apply foldM_Ok_each with (x := e) in Hst as (s1 & s2 & Hs).
    2:{ apply elem_of_seq. lia. }
    apply load_episode_Ok in Hs
      as (file & ca & len & lowdim & rgb & Hf & Hca & Hlen & Hl & _ & _).
    exists file, len. split; [done|]. split.
    { unfold raw_step_count. by rewrite Hf, Hca. }
    intros Hmis.
    apply foldM_Ok_each with (x := key) in Hl as (d1 & d2 & Hd); [|done].
    by rewrite (load_lowdim_mismatch _ _ _ _ d1 Hmis) in Hd.
Qed.

End ShapeChecks.

(** ** Normalization *)










Lemma substring_split (s : string) (n : nat) :
  n ≤ String.length s →
  s = String.substring 0 n s +:+ String.substring n (String.length s - n) s.
Proof.
  revert n. induction s as [|c s IH]; intros [|n] Hn; simpl in *; try lia.
  - done.
  - by rewrite substring_all.
  - rewrite string_app_cons. f_equal. apply IH. lia.
Qed.

Lemma endswith_inv (s suffix : string) :
  endswith s suffix = true → ∃ p, s = p +:+ suffix.
Proof.
  unfold endswith. intros [Hlen Hsub]%andb_true_iff.
  apply Nat.leb_le in Hlen. apply bool_decide_eq_true in Hsub.
  exists (String.substring 0 (String.length s - String.length suffix) s).
  pose proof (substring_split s (String.length s - String.length suffix)) as Hs.
  replace (String.length s - (String.length s - String.length suffix))
    with (String.length suffix) in Hs by lia.
  rewrite Hsub in Hs. apply Hs. lia.
Qed.

(** The [qpos] branch of the dispatch is never taken: such a name ends
    in [pos] already. *)
Lemma endswith_qpos_pos (key : string) :
  endswith key "qpos" = true → endswith key "pos" = true.
Proof.
  intros [p ->]%endswith_inv.
  change "qpos" with ("q" +:+ "pos").
  rewrite <- string_app_assoc. apply endswith_app.
Qed.

Section NormalizerFacts.
Context {Chunk : Type}.
Variable np_std : Np.ndarray Q → list Q.
Variable get_range_normalizer_from_stat : Stat → SingleFieldLinearNormalizer.
Variable get_identity_normalizer_from_stat : Stat → SingleFieldLinearNormalizer.
Variable get_image_range_normalizer : SingleFieldLinearNormalizer.

#[local] Abbreviation get_normalizer' :=
  (get_normalizer np_std get_range_normalizer_from_stat
     get_identity_normalizer_from_stat get_image_range_normalizer (Chunk:=Chunk)).
#[local] Abbreviation normalize_lowdim' :=
  (normalize_lowdim np_std get_range_normalizer_from_stat
     get_identity_normalizer_from_stat (Chunk:=Chunk)).

#[local] Abbreviation dispatched' :=
  (dispatched np_std get_range_normalizer_from_stat
     get_identity_normalizer_from_stat (Chunk:=Chunk)).

Lemma normalize_lowdim_Ok self nz key nz' :
  normalize_lowdim' self nz key = Ok nz' →
  ∃ n, dispatched' self key n ∧ nz' = <[key := n]> nz.
Proof.
  unfold normalize_lowdim. intros H.
  apply bind_Ok in H as (arr & Harr & H).
  apply bind_Ok in H as (stat & Hstat & H).
  apply bind_Ok in H as (n & Hn & [= <-]).
  exists n. split; [|done]. unfold dispatched. exists stat. split.
  { unfold stats_of. by rewrite Harr. }
  destruct (endswith key "pos") eqn:Hpos; [left; by injection Hn|].
  destruct (endswith key "quat") eqn:Hquat; [right; by injection Hn|].
  destruct (endswith key "qpos") eqn:Hqpos; [|done].
  apply endswith_qpos_pos in Hqpos. congruence.
Qed.

Lemma normalize_lowdim_unsupported self nz key :
  is_ok (stats_of np_std (replay_buffer self) key) = true →
  endswith key "pos" = false → endswith key "quat" = false →
  normalize_lowdim' self nz key = Raise (RuntimeError "unsupported").
Proof.
  unfold stats_of, normalize_lowdim. intros Hs Hpos Hquat.
  destruct (replay_buffer_getitem _ key) as [arr|]; [|done].
  cbn [mbind result_bind] in *.
  destruct (array_to_stats np_std arr) as [stat|]; [|done].
  cbn [mbind result_bind]. rewrite Hpos, Hquat.
  destruct (endswith key "qpos") eqn:Hqpos; [|done].
  apply endswith_qpos_pos in Hqpos. congruence.
Qed.

Lemma normalize_loop_lookup self keys nz0 nz :
  foldM (normalize_lowdim' self) nz0 keys = Ok nz →
  (∀ key, key ∈ keys → ∃ n, dispatched' self key n ∧ nz !! key = Some n)
  ∧ (∀ key, key ∉ keys → nz !! key = nz0 !! key).
Proof.
  revert nz0. induction keys as [|k keys IH]; intros nz0 H.
  - injection H as <-. split; [|done]. intros key Hk. by apply elem_of_nil in Hk.
  - apply foldM_cons_Ok in H as (nz1 & H1 & H).
    apply normalize_lowdim_Ok in H1 as (n & Hn & ->).
    destruct (IH _ H) as [IH1 IH2]. split.
    + intros key Hkey. destruct (decide (key ∈ keys)) as [Hin|Hnin].
      { by apply IH1. }
      apply elem_of_cons in Hkey as [->|?]; [|done].
      exists n. split; [done|]. by rewrite (IH2 _ Hnin), lookup_insert_eq.
    + intros key Hkey. apply not_elem_of_cons in Hkey as [Hne Hnin].
      by rewrite (IH2 _ Hnin), lookup_insert_ne.
Qed.

Lemma image_loop_lookup (keys : list string)
    (nz : gmap string SingleFieldLinearNormalizer) key :
  key ∉ keys →
  foldl (fun nz k => <[k := get_image_range_normalizer]> nz) nz keys !! key
  = nz !! key.
Proof.
  revert nz. induction keys as [|k keys IH]; intros nz Hk; [done|].
  apply not_elem_of_cons in Hk as [Hne Hnin]. simpl.
  by rewrite (IH _ Hnin), lookup_insert_ne.
Qed.

Lemma get_normalizer_Ok_inv self nz :
  get_normalizer' self = Ok nz →
  ∃ stat n nz1,
    stats_of np_std (replay_buffer self) "action" = Ok stat
    ∧ use_legacy_normalizer self = true
    ∧ normalizer_from_stat stat = Ok n
    ∧ foldM (normalize_lowdim' self) (<["action" := n]> ∅) (lowdim_keys self)
      = Ok nz1
    ∧ nz = foldl (fun nz k => <[k := get_image_range_normalizer]> nz)
             nz1 (rgb_keys self).
Proof.
  unfold get_normalizer. intros H.
  apply bind_Ok in H as (arr & Harr & H).
  apply bind_Ok in H as (stat & Hstat & H).
  apply bind_Ok in H as (n & Hn & H).
  apply bind_Ok in H as (nz1 & Hnz1 & [= <-]).
  exists stat, n, nz1. unfold stats_of. rewrite Harr.
  destruct (use_legacy_normalizer self); [|done]. done.
Qed.


Lemma normalize_lowdim_cases self nz key :
  is_ok (stats_of np_std (replay_buffer self) key) = true →
  (∃ nz', normalize_lowdim' self nz key = Ok nz')
  ∨ normalize_lowdim' self nz key = Raise (RuntimeError "unsupported").
Proof.
  unfold stats_of, normalize_lowdim. intros Hs.
  destruct (replay_buffer_getitem _ key) as [arr|]; [|done].
  cbn [mbind result_bind] in *.
  destruct (array_to_stats np_std arr) as [stat|]; [|done].
  cbn [mbind result_bind].
  destruct (endswith key "pos"); [left; by eexists|].
  destruct (endswith key "quat"); [left; by eexists|].
  destruct (endswith key "qpos"); [left; by eexists|by right].
Qed.

Lemma normalize_loop_unsupported self before key after nz0 :
  (∀ k, k ∈ before ++ [key] →
        is_ok (stats_of np_std (replay_buffer self) k) = true) →
  endswith key "pos" = false → endswith key "quat" = false →
  foldM (normalize_lowdim' self) nz0 (before ++ key :: after)
  = Raise (RuntimeError "unsupported").
Proof.
  intros Hs Hpos Hquat. revert nz0.
  induction before as [|k before IH]; intros nz0.
  - simpl. rewrite normalize_lowdim_unsupported; [done| |done|done].
    apply Hs. by left.
  - simpl. destruct (normalize_lowdim_cases self nz0 k) as [[nz' ->]| ->].
    + apply Hs. by left.
    + simpl. apply IH. intros k' Hk'. apply Hs. by right.
    + done.
Qed.

(** C8: a returned normalizer gives every low-dimensional entry the
    range normalizer of its statistics when its name ends in [pos] and
    the identity normalizer when it ends in [quat]; with an entry of any
    other name no normalizer is returned, and (the statistics being
    computable) the call raises the unsupported error. *)
Theorem lowdim_normalizer_dispatch (self : SapienDataset Q Chunk) :
  (∀ nz key,
     get_normalizer' self = Ok nz →
     key ∈ lowdim_keys self → key ∉ rgb_keys self →
     ∃ n, dispatched' self key n ∧ nz !! key = Some n)
  ∧ (∀ key,
       key ∈ lowdim_keys self →
       endswith key "pos" = false → endswith key "quat" = false →
       ∀ nz, get_normalizer' self ≠ Ok nz)
  ∧ (∀ key before after stat,
       lowdim_keys self = before ++ key :: after →
       endswith key "pos" = false → endswith key "quat" = false →
       stats_of np_std (replay_buffer self) "action" = Ok stat →
       is_ok (normalizer_from_stat stat) = true →
       (∀ k, k ∈ before ++ [key] →
             is_ok (stats_of np_std (replay_buffer self) k) = true) →
       get_normalizer' self = Raise (RuntimeError "unsupported")).
Proof.
  split_and!.
  - intros nz key H Hkey Hrgb.
    apply get_normalizer_Ok_inv in H as (stat & n & nz1 & _ & _ & _ & Hnz1 & ->).
    rewrite image_loop_lookup by done.
    by apply (normalize_loop_lookup _ _ _ _ Hnz1).
  - intros key Hkey Hpos Hquat nz H.
    apply get_normalizer_Ok_inv in H as (stat & n & nz1 & _ & _ & _ & Hnz1 & ->).
    destruct (proj1 (normalize_loop_lookup _ _ _ _ Hnz1) key Hkey)
      as (n' & (st & _ & [[Hp _]|(_ & Hq & _)]) & _); congruence.
  - intros key before after stat Hkeys Hpos Hquat Hstat Hn Hs.
    unfold get_normalizer. unfold stats_of in Hstat.
    destruct (replay_buffer_getitem _ "action") as [arr|]; [|done].
    cbn [mbind result_bind] in *. rewrite Hstat. cbn [mbind result_bind].
    destruct (use_legacy_normalizer self); [|done].
    destruct (normalizer_from_stat stat) as [n|]; [|done].
    cbn [mbind result_bind]. rewrite Hkeys.
    by rewrite normalize_loop_unsupported.
Qed.

End NormalizerFacts.



Lemma lowdim_normalizer_dispatch_witness :
  (∃ nz n,
     NormalizerExamples.normalizer ["eef_pos"] true = Ok nz
     ∧ dispatched NormalizerExamples.std NormalizerExamples.range_normalizer
         NormalizerExamples.identity_normalizer
         (NormalizerExamples.dataset ["eef_pos"] true) "eef_pos" n
     ∧ nz !! "eef_pos" = Some n)
  ∧ NormalizerExamples.normalizer ["eef_pos"; "gripper"] true
    = Raise (RuntimeError "unsupported").
Proof.
  split.
  - destruct (lowdim_normalizer_dispatch NormalizerExamples.std
                NormalizerExamples.range_normalizer
                NormalizerExamples.identity_normalizer
                NormalizerExamples.image_normalizer
                (NormalizerExamples.dataset ["eef_pos"] true)) as [H _].
    destruct (H _ "eef_pos" eq_refl) as (n & Hn & Hl).
    + vm_compute. by left.
    + vm_compute. by intros ?%elem_of_nil.
    + by eexists _, n.
  - destruct (lowdim_normalizer_dispatch NormalizerExamples.std
                NormalizerExamples.range_normalizer
                NormalizerExamples.identity_normalizer
                NormalizerExamples.image_normalizer
                (NormalizerExamples.dataset ["eef_pos"; "gripper"] true))
      as (_ & _ & H).
    apply (H "gripper" ["eef_pos"] []
             {| stat_min := [-1; -2]%Q; stat_max := [1; 2]%Q;
                stat_mean := [0 # 2; 0 # 2]%Q; stat_std := [] |});
      try reflexivity.
    intros k Hk. apply elem_of_cons in Hk as [->|Hk]; [reflexivity|].
    apply list_elem_of_singleton in Hk as ->. reflexivity.
Defined.

(** ** The cache *)

Section CacheFacts.
Context {A Frame Chunk : Type}.
Variable to_float32 : A → A.
Variable forward : Np.ndarray A → result (Np.ndarray A).
Variable cv2_resize : Frame → nat → nat → result Frame.
Variable frame_shape : Frame → list nat.
Variable jpeg2k_encode : Frame → result Chunk.
Variable jpeg2k_decode : Chunk → result Frame.
Variable cpu_count : nat.

#[local] Abbreviation DirT := (gmap string (entry A Frame Chunk)).
#[local] Abbreviation convert' :=
  (_convert_sapein_to_dp_replay to_float32 forward cv2_resize frame_shape
     jpeg2k_encode jpeg2k_decode cpu_count).
#[local] Abbreviation cached' :=
  (cached_replay_buffer to_float32 forward cv2_resize frame_shape
     jpeg2k_encode jpeg2k_decode cpu_count).

(** The exception handler of the cache branch on a directory without
    archive: [shutil.rmtree] is given the path of a file (after a failed
    serialization) or of nothing (after a failed build), so it raises
    itself; the archive file, if there is one, stays, and the exception
    that leaves [__init__] is not the original one. *)
Lemma cache_cleanup_raises sched shape_meta (fs : DirT) save_fault :
  fs !! cache_zarr_path = None →
  let fs0 := <[cache_lock_path := LockFile]> fs in
  (∀ e, convert' sched shape_meta fs0 None None = Raise e →
        cached' sched shape_meta fs save_fault
        = (fs0, Raise (FileNotFoundError cache_zarr_path)))
  ∧ (∀ rb e, convert' sched shape_meta fs0 None None = Ok rb →
             save_fault = Some e →
             cached' sched shape_meta fs save_fault
             = (<[cache_zarr_path := ZipArchive None]> fs0,
                Raise (NotADirectoryError cache_zarr_path))).
Proof.
  intros Hnone fs0.
  assert (fs0 !! cache_zarr_path = None) as Hnone0.
  { unfold fs0. by rewrite lookup_insert_ne. }
  assert (path_exists fs0 cache_zarr_path = false) as Hex.
  { unfold path_exists. rewrite Hnone0. apply bool_decide_eq_false.
    by intros [? ?]. }
  split.
  - intros e He. unfold cached_replay_buffer. fold fs0. rewrite Hex. simpl.
    rewrite He. unfold rmtree. by rewrite Hnone0.
  - intros rb e Hrb ->. unfold cached_replay_buffer. fold fs0.
    rewrite Hex. simpl. rewrite Hrb. simpl.
    unfold rmtree. by rewrite lookup_insert_eq.
Qed.

End CacheFacts.

(** C1, on the directory [Examples.dir2] when the disk fills up while
    the archive is written: the call raises [NotADirectoryError] instead
    of the original [OSError], the incomplete archive is still there, and
    the next call finds it and does not rebuild.  On
    [Examples.dir_bad_shape], where the build itself fails its shape
    assertion, the call raises [FileNotFoundError] instead of the
    [AssertionError]. *)
Lemma cache_partial_archive_remains :
  let fault := Some (OSError "No space left on device") in
  let first :=
    cached_replay_buffer Examples.cast Examples.forward6 Examples.resize
      Examples.frame_dims Examples.encode Examples.decode 4
      [] Examples.shape_meta Examples.dir2 fault in
  let second :=
    cached_replay_buffer Examples.cast Examples.forward6 Examples.resize
      Examples.frame_dims Examples.encode Examples.decode 4
      [] Examples.shape_meta first.1 None in
  let failed_build :=
    cached_replay_buffer Examples.cast Examples.forward6 Examples.resize
      Examples.frame_dims Examples.encode Examples.decode 4
      [] Examples.shape_meta Examples.dir_bad_shape None in
  first.2 = Raise (NotADirectoryError "cache.zarr.zip")
  ∧ first.1 !! "cache.zarr.zip" = Some (ZipArchive None)
  ∧ second.2 = Raise (OSError "incomplete archive")
  ∧ Examples.convert Examples.encode [] Examples.dir_bad_shape None
    = Raise AssertionError
  ∧ failed_build.2 = Raise (FileNotFoundError "cache.zarr.zip").
Proof. vm_compute. done. Qed.

(** ** The statements on the example directories *)

Lemma episode_ends_cumulative_witness :
  ∃ rb,
    Examples.convert Examples.encode [] Examples.dir2 None = Ok rb
    ∧ length (meta_episode_ends rb) = length (glob_episodes Examples.dir2)
    ∧ ∃ counts,
        Forall2 (fun k c => raw_step_count Examples.dir2 k = Some c)
          (seq 0 (length (glob_episodes Examples.dir2))) counts
        ∧ last (meta_episode_ends rb) = Some (sum_list counts).
Proof.
  destruct (Examples.convert Examples.encode [] Examples.dir2 None)
    as [rb|e] eqn:H; [|by vm_compute in H].
  exists rb. split; [done|].
  destruct (episode_ends_cumulative Examples.cast Examples.forward6
              Examples.resize Examples.frame_dims Examples.encode
              Examples.decode 4 [] Examples.shape_meta Examples.dir2
              None None rb H) as (Hlen & _ & _ & Hlast).
  split; [exact Hlen|exact Hlast].
Defined.

Lemma shape_mismatch_aborts_witness :
  Examples.convert Examples.encode [] Examples.dir_bad_shape None
  = Raise AssertionError.
Proof.
  destruct (load_first Examples.cast Examples.forward6 Examples.resize
              Examples.frame_dims Examples.shape_meta Examples.dir_bad_shape 1)
    as [st|e] eqn:Hst; [|by vm_compute in Hst].
  apply (proj1 (shape_mismatch_aborts Examples.cast Examples.forward6
                  Examples.resize Examples.frame_dims Examples.encode
                  Examples.decode 4 [] Examples.shape_meta
                  Examples.dir_bad_shape None None)
           1 st Examples.bad_episode (Np.mk [3; 7] (Examples.range_Z 1 21)) 3
           [] "eef_pos" ["action"] (lowdim_data_dict st)).
  - vm_compute. lia.
  - exact Hst.
  - reflexivity.
  - reflexivity.
  - reflexivity.
  - reflexivity.
  - reflexivity.
  - exists (Np.mk [3; 2] (Examples.range_Z 1 6)),
      {| attr_shape := [3]; attr_type := None |}.
    split; [reflexivity|]. split; [reflexivity|]. discriminate.
Defined.

Lemma episode_numbering_gap_witness :
  ∃ i,
    i < length (glob_episodes Examples.dir_gap)
    ∧ Examples.dir_gap !! episode_file_name i = None
    ∧ ∀ rb, Examples.convert Examples.encode [] Examples.dir_gap None ≠ Ok rb.
Proof.
  destruct (proj2 (episode_numbering_gap Examples.cast Examples.forward6
                     Examples.resize Examples.frame_dims Examples.encode
                     Examples.decode 4 [] Examples.shape_meta
                     Examples.dir_gap None None))
    as (i & Hi & Hnone & _ & Hno & _).
  - exists "episode_2.hdf5". split.
    + apply elem_of_glob_episodes. split; [reflexivity|]. by eexists.
    + intros k Hk. change (length (glob_episodes Examples.dir_gap)) with 2 in Hk.
      destruct k as [|[|k]]; [discriminate|discriminate|lia].
  - exists i. split_and!; [exact Hi|exact Hnone|exact Hno].
Defined.

(** ** Encode tasks *)

Section Tasks.
Context {A Frame Chunk : Type}.
Variable jpeg2k_encode : Frame → result Chunk.
Variable jpeg2k_decode : Chunk → result Frame.

#[local] Abbreviation Group := (gmap string (zarr_array A Chunk)).
#[local] Abbreviation img_copy' := (img_copy jpeg2k_encode jpeg2k_decode (A:=A)).

#[local] Abbreviation encoded' := (encoded jpeg2k_encode).

Lemma img_copy_spec (g : Group) (t : Task Frame) :
  img_copy' g t
  = match encoded' t with
    | Some c =>
        if writable g t
        then (alter (put_chunk (zarr_idx t) c) (zarr_arr t) g,
              is_ok (jpeg2k_decode c))
        else (g, false)
    | None => (g, false)
    end.
Proof.
  unfold img_copy, write_frame, read_frame, encoded, writable.
  destruct (hdf5_arr t !! hdf5_idx t) as [img|]; [|done].
  destruct (g !! zarr_arr t) as [[a|sh chunks]|] eqn:Hg;
    try by destruct (jpeg2k_encode img).
  destruct (Nat.ltb_spec (zarr_idx t) (length chunks)) as [Hlt|Hge];
    [|by destruct (jpeg2k_encode img)].
  destruct (jpeg2k_encode img) as [c|e]; [|done].
  cbn [mbind result_bind]. rewrite lookup_insert_eq.
  rewrite list_lookup_insert_eq by done.
  assert (<[zarr_arr t:=Compressed sh (<[zarr_idx t:=Some c]> chunks)]> g
          = alter (put_chunk (zarr_idx t) c) (zarr_arr t) g) as ->.
  { apply map_eq. intros k. rewrite lookup_alter, lookup_insert.
    case_decide; [subst; by rewrite Hg|done]. }
  by destruct (jpeg2k_decode c).
Qed.

Lemma writable_alter (g : Group) (t t' : Task Frame) idx c name :
  writable (alter (put_chunk idx c) name g) t' = writable g t'.
Proof.
  unfold writable. rewrite lookup_alter. case_decide as Hk; [|done].
  subst. destruct (g !! zarr_arr t') as [[a|sh chunks]|]; simpl; try done.
  by rewrite length_insert.
Qed.

Lemma writable_img_copy (g : Group) (t t' : Task Frame) :
  writable (img_copy' g t).1 t' = writable g t'.
Proof.
  rewrite img_copy_spec. destruct (encoded' t) as [c|]; [|done].
  destruct (writable g t); [|done]. simpl. by apply writable_alter.
Qed.

Lemma put_chunk_commute i j (c d : Chunk) (a : zarr_array A Chunk) :
  i ≠ j → put_chunk i c (put_chunk j d a) = put_chunk j d (put_chunk i c a).
Proof.
  intros Hij. destruct a as [a|sh chunks]; simpl; [done|].
  f_equal. by apply list_insert_insert_ne.
Qed.

Lemma alter_put_chunk_commute (g : Group) n1 i1 c1 n2 i2 c2 :
  (n1, i1) ≠ (n2, i2) →
  alter (put_chunk i1 c1) n1 (alter (put_chunk i2 c2) n2 g)
  = alter (put_chunk i2 c2) n2 (alter (put_chunk i1 c1) n1 g).
Proof.
  intros Hne. destruct (decide (n1 = n2)) as [->|Hn].
  - rewrite !alter_alter_eq. apply alter_ext. intros a _. simpl.
    apply put_chunk_commute. congruence.
  - by apply alter_alter_ne.
Qed.

(** Two tasks with different targets can be run in either order. *)
Lemma img_copy_commute (g : Group) (t1 t2 : Task Frame) :
  target t1 ≠ target t2 →
  (img_copy' (img_copy' g t1).1 t2).1 = (img_copy' (img_copy' g t2).1 t1).1
  ∧ (img_copy' (img_copy' g t1).1 t2).2 = (img_copy' g t2).2
  ∧ (img_copy' (img_copy' g t2).1 t1).2 = (img_copy' g t1).2.
Proof.
  intros Hne.
  rewrite (img_copy_spec (img_copy' g t1).1 t2), (img_copy_spec (img_copy' g t2).1 t1).
  rewrite !writable_img_copy.
  rewrite (img_copy_spec g t1), (img_copy_spec g t2).
  destruct (encoded' t1) as [c1|], (encoded' t2) as [c2|];
    destruct (writable g t1), (writable g t2); simpl; try done.
  split; [|done]. by apply alter_put_chunk_commute.
Qed.

Lemma img_copy_lookup_None (g : Group) (t : Task Frame) name :
  (img_copy' g t).1 !! name = None ↔ g !! name = None.
Proof.
  rewrite img_copy_spec. destruct (encoded' t) as [c|]; [|done].
  destruct (writable g t); [|done]. simpl.
  rewrite lookup_alter. case_decide; [|done]. subst.
  by destruct (g !! zarr_arr t).
Qed.

Lemma img_copy_lookup_ne (g : Group) (t : Task Frame) name :
  zarr_arr t ≠ name → (img_copy' g t).1 !! name = g !! name.
Proof.
  intros Hne. rewrite img_copy_spec. destruct (encoded' t) as [c|]; [|done].
  destruct (writable g t); [|done]. simpl. by rewrite lookup_alter_ne.
Qed.

(** A write into one array and the creation of another commute. *)
Lemma img_copy_insert_fresh (g : Group) (t : Task Frame) name a :
  zarr_arr t ≠ name →
  img_copy' (<[name := a]> g) t
  = (<[name := a]> (img_copy' g t).1, (img_copy' g t).2).
Proof.
  intros Hne. rewrite !img_copy_spec. unfold writable.
  rewrite lookup_insert_ne by done.
  destruct (encoded' t) as [c|]; [|done].
  destruct (g !! zarr_arr t) as [[?|sh chunks]|]; try done.
  destruct (zarr_idx t <? length chunks); [|done]. simpl.
  f_equal. apply map_eq. intros k.
  rewrite lookup_alter, !lookup_insert, lookup_alter.
  repeat case_decide; subst; done.
Qed.

End Tasks.

(** ** The worker pool against the sequential run *)

Section PoolFacts.
Context {A Frame Chunk : Type}.
Variable jpeg2k_encode : Frame → result Chunk.
Variable jpeg2k_decode : Chunk → result Frame.

#[local] Abbreviation Group := (gmap string (zarr_array A Chunk)).
#[local] Abbreviation PoolT := (Pool A Frame Chunk).
#[local] Abbreviation img_copy' := (img_copy jpeg2k_encode jpeg2k_decode (A:=A)).
#[local] Abbreviation settle' := (settle jpeg2k_encode jpeg2k_decode (A:=A)).
#[local] Abbreviation settled' := (settled jpeg2k_encode jpeg2k_decode (A:=A)).
#[local] Abbreviation run_one' := (run_one jpeg2k_encode jpeg2k_decode (A:=A)).
#[local] Abbreviation run_task' := (run_task jpeg2k_encode jpeg2k_decode (A:=A)).
#[local] Abbreviation future_result' :=
  (future_result jpeg2k_encode jpeg2k_decode (A:=A)).

Lemma settle_app (g : Group) (l1 l2 : list (Future Frame)) :
  settle' g (l1 ++ l2)
  = ((settle' (settle' g l1).1 l2).1,
     (settle' g l1).2 && (settle' (settle' g l1).1 l2).2).
Proof.
  revert g. induction l1 as [|f l1 IH]; intros g; simpl.
  - by destruct (settle' g l2).
  - rewrite IH. simpl. by rewrite andb_assoc.
Qed.

(** A task whose target no future has can be run before or after the
    futures are settled. *)
Lemma settle_commute (g : Group) (t : Task Frame) (fs : list (Future Frame)) :
  target t ∉ target <$> (task <$> fs) →
  (settle' (img_copy' g t).1 fs).1 = (img_copy' (settle' g fs).1 t).1
  ∧ (settle' (img_copy' g t).1 fs).2 = (settle' g fs).2
  ∧ (img_copy' (settle' g fs).1 t).2 = (img_copy' g t).2.
Proof.
  revert g. induction fs as [|f fs IH]; intros g Hnin; [done|].
  rewrite !fmap_cons in Hnin. apply not_elem_of_cons in Hnin as [Hne Hnin].
  simpl. unfold future_result. destruct (outcome f) as [b|]; simpl.
  - destruct (IH g Hnin) as (IH1 & IH2 & IH3). by rewrite IH1, IH2, IH3.
  - destruct (img_copy_commute jpeg2k_encode jpeg2k_decode g t (task f) Hne)
      as (Hc1 & Hc2 & Hc3).
    rewrite Hc1, Hc2.
    destruct (IH (img_copy' g (task f)).1 Hnin) as (IH1 & IH2 & IH3).
    by rewrite IH1, IH2, IH3, Hc3.
Qed.

(** Running the pending future in the middle of a list of futures with
    distinct targets does not change what the list settles to. *)
Lemma settle_run_middle (g : Group) (t : Task Frame)
    (l1 l2 : list (Future Frame)) :
  target t ∉ target <$> (task <$> l1) →
  settle' (img_copy' g t).1
    (l1 ++ {| task := t; outcome := Some (img_copy' g t).2 |} :: l2)
  = settle' g (l1 ++ {| task := t; outcome := None |} :: l2).
Proof.
  intros Hnin. rewrite !settle_app. simpl. unfold future_result. simpl.
  destruct (settle_commute g t l1 Hnin) as (H1 & H2 & H3).
  by rewrite H1, H2, H3.
Qed.

Lemma run_one_cases (p : PoolT) (pos : nat) :
  run_one' p pos = p
  ∨ ∃ t l1 l2,
      futures p = l1 ++ {| task := t; outcome := None |} :: l2
      ∧ run_one' p pos
        = {| group := (img_copy' (group p) t).1;
             futures := l1 ++ {| task := t;
                                 outcome := Some (img_copy' (group p) t).2 |} :: l2;
             schedule := schedule p |}.
Proof.
  unfold run_one. destruct (futures p !! pos) as [[t [b|]]|] eqn:Hpos; auto.
  right. exists t, (take pos (futures p)), (drop (S pos) (futures p)).
  split; [by rewrite take_drop_middle|].
  destruct (img_copy' (group p) t) as [g ok]. simpl. f_equal.
  apply insert_take_drop. by eapply lookup_lt_Some.
Qed.

Lemma run_one_schedule (p : PoolT) pos : schedule (run_one' p pos) = schedule p.
Proof.
  destruct (run_one_cases p pos) as [->|(t & l1 & l2 & _ & ->)]; done.
Qed.

Lemma run_one_tasks (p : PoolT) pos :
  task <$> futures (run_one' p pos) = task <$> futures p.
Proof.
  destruct (run_one_cases p pos) as [->|(t & l1 & l2 & Hf & ->)]; [done|].
  simpl. rewrite Hf. by rewrite !fmap_app.
Qed.

Lemma run_one_group_Some (p : PoolT) pos name :
  is_Some (group (run_one' p pos) !! name) ↔ is_Some (group p !! name).
Proof.
  destruct (run_one_cases p pos) as [->|(t & l1 & l2 & _ & ->)]; [done|].
  simpl. rewrite <- !not_eq_None_Some.
  by rewrite img_copy_lookup_None.
Qed.

Lemma run_one_inv (p : PoolT) pos :
  pool_inv p → pool_inv (run_one' p pos).
Proof.
  intros [Hnd Hdom]. split.
  - by rewrite run_one_tasks.
  - intros f Hf. apply run_one_group_Some.
    assert (task f ∈ task <$> futures p) as Ht.
    { rewrite <- (run_one_tasks p pos). by apply list_elem_of_fmap_2. }
    apply list_elem_of_fmap in Ht as (f' & -> & Hf'). by apply Hdom.
Qed.

Lemma run_one_settled (p : PoolT) pos :
  pool_inv p → settled' (run_one' p pos) = settled' p.
Proof.
  intros [Hnd _]. unfold settled.
  destruct (run_one_cases p pos) as [->|(t & l1 & l2 & Hf & ->)]; [done|].
  simpl. rewrite Hf. apply settle_run_middle.
  rewrite Hf, !fmap_app in Hnd. apply NoDup_app in Hnd as (_ & Hnd & _).
  intros Hin. apply (Hnd _ Hin). rewrite !fmap_cons. by left.
Qed.

Lemma run_picks_spec (p : PoolT) (picks : list nat) :
  pool_inv p →
  pool_inv (foldl run_one' p picks)
  ∧ settled' (foldl run_one' p picks) = settled' p
  ∧ schedule (foldl run_one' p picks) = schedule p
  ∧ task <$> futures (foldl run_one' p picks) = task <$> futures p.
Proof.
  revert p. induction picks as [|pos picks IH]; intros p Hinv; [done|].
  simpl. destruct (IH (run_one' p pos) (run_one_inv _ _ Hinv)) as (H1 & H2 & H3 & H4).
  by rewrite H2, H3, H4, run_one_settled, run_one_schedule, run_one_tasks.
Qed.

Lemma run_decision_spec (p : PoolT) :
  pool_inv p →
  pool_inv (run_decision jpeg2k_encode jpeg2k_decode p)
  ∧ settled' (run_decision jpeg2k_encode jpeg2k_decode p) = settled' p
  ∧ task <$> futures (run_decision jpeg2k_encode jpeg2k_decode p)
    = task <$> futures p.
Proof.
  intros Hinv. unfold run_decision. destruct (schedule p) as [|picks rest]; [done|].
  destruct (run_picks_spec
              {| group := group p; futures := futures p; schedule := rest |}
              picks Hinv) as (H1 & H2 & _ & H4).
  done.
Qed.

End PoolFacts.

Section WaitFacts.
Context {A Frame Chunk : Type}.
Variable jpeg2k_encode : Frame → result Chunk.
Variable jpeg2k_decode : Chunk → result Frame.

#[local] Abbreviation Group := (gmap string (zarr_array A Chunk)).
#[local] Abbreviation PoolT := (Pool A Frame Chunk).
#[local] Abbreviation img_copy' := (img_copy jpeg2k_encode jpeg2k_decode (A:=A)).
#[local] Abbreviation settle' := (settle jpeg2k_encode jpeg2k_decode (A:=A)).
#[local] Abbreviation settled' := (settled jpeg2k_encode jpeg2k_decode (A:=A)).
#[local] Abbreviation run_one' := (run_one jpeg2k_encode jpeg2k_decode (A:=A)).
#[local] Abbreviation run_task' := (run_task jpeg2k_encode jpeg2k_decode (A:=A)).
#[local] Abbreviation wait_first' := (wait_first jpeg2k_encode jpeg2k_decode (A:=A)).
#[local] Abbreviation wait_all' := (wait_all jpeg2k_encode jpeg2k_decode (A:=A)).
#[local] Abbreviation submit_frame' :=
  (submit_frame jpeg2k_encode jpeg2k_decode (A:=A)).

Lemma check_completed_all_true (completed : list (Future Frame)) :
  is_ok (check_completed completed) = all_true completed.
Proof. unfold check_completed, all_true. by destruct (forallb _ _). Qed.

(** Settling a list of futures: the done ones only contribute their
    outcomes, the others the runs of their tasks. *)
Lemma settle_filter (g : Group) (fs : list (Future Frame)) :
  (settle' g fs).1 = (settle' g (filter (fun f => is_done f = false) fs)).1
  ∧ (settle' g fs).2
    = all_true (filter (fun f => is_done f = true) fs)
      && (settle' g (filter (fun f => is_done f = false) fs)).2.
Proof.
  revert g. induction fs as [|f fs IH]; intros g; [done|].
  destruct (outcome f) as [b|] eqn:Ho.
  - assert (is_done f = true) as Hd.
    { unfold is_done. rewrite Ho. apply bool_decide_eq_true_2. eauto. }
    rewrite (filter_cons_True (fun f => is_done f = true)) by done.
    rewrite (filter_cons_False (fun f => is_done f = false)) by congruence.
    cbn [settle]. unfold future_result. rewrite Ho. cbn [fst snd].
    destruct (IH g) as [IH1 IH2]. rewrite IH1, IH2. split; [done|].
    unfold all_true at 2. cbn [forallb]. rewrite Ho.
    fold (all_true (filter (fun f0 => is_done f0 = true) fs)).
    rewrite andb_assoc. f_equal. by destruct b.
  - assert (is_done f = false) as Hd.
    { unfold is_done. rewrite Ho. apply bool_decide_eq_false_2. by intros [? ?]. }
    rewrite (filter_cons_False (fun f => is_done f = true)) by congruence.
    rewrite (filter_cons_True (fun f => is_done f = false)) by done.
    cbn [settle]. cbn [fst snd].
    destruct (IH (future_result jpeg2k_encode jpeg2k_decode g f).1) as [IH1 IH2].
    rewrite IH1, IH2.
    split; [done|]. rewrite !andb_assoc. f_equal. apply andb_comm.
Qed.

Lemma filter_tasks_sublist (P : Future Frame → Prop) `{∀ f, Decision (P f)}
    (fs : list (Future Frame)) :
  task <$> filter P fs `sublist_of` task <$> fs.
Proof. apply fmap_sublist, sublist_filter. Qed.

Lemma pool_inv_sublist (g g' : Group) (fs fs' : list (Future Frame)) sch sch' :
  pool_inv {| group := g; futures := fs; schedule := sch |} →
  fs' `sublist_of` fs →
  (∀ name, is_Some (g !! name) → is_Some (g' !! name)) →
  pool_inv {| group := g'; futures := fs'; schedule := sch' |}.
Proof.
  intros [Hnd Hdom] Hsub Hg. split; simpl in *.
  - refine (sublist_NoDup _ _ Hnd _). apply fmap_sublist. by apply fmap_sublist.
  - intros f Hf. apply Hg, Hdom. by eapply elem_of_sublist.
Qed.

(** [wait] with [FIRST_COMPLETED]: the pool stands for the same state
    afterwards when the completed futures all report success, and for a
    failed state beforehand when one of them does not. *)
Lemma wait_first_spec (p : PoolT) :
  pool_inv p →
  pool_inv (wait_first' p).2
  ∧ (settled' (wait_first' p).2).1 = (settled' p).1
  ∧ (settled' p).2
    = is_ok (check_completed (wait_first' p).1) && (settled' (wait_first' p).2).2
  ∧ task <$> futures (wait_first' p).2 `sublist_of` task <$> futures p.
Proof.
  intros Hinv. unfold wait_first.
  destruct (run_decision_spec jpeg2k_encode jpeg2k_decode p Hinv) as (Hi1 & Hs1 & Ht1).
  set (p1 := run_decision jpeg2k_encode jpeg2k_decode p) in *.
  set (p2 := if existsb is_done (futures p1) then p1 else run_one' p1 0).
  assert (pool_inv p2 ∧ settled' p2 = settled' p
          ∧ task <$> futures p2 = task <$> futures p) as (Hi2 & Hs2 & Ht2).
  { unfold p2. destruct (existsb is_done (futures p1)); [done|].
    split_and!; [by apply run_one_inv|by rewrite run_one_settled|].
    by rewrite run_one_tasks. }
  clearbody p2. clear p1 Hi1 Hs1 Ht1. simpl.
  rewrite check_completed_all_true. rewrite <- Hs2, <- Ht2. unfold settled. simpl.
  destruct (settle_filter (group p2) (futures p2)) as [Hf1 Hf2].
  split_and!; try done.
  - destruct p2 as [g fs sch]. eapply pool_inv_sublist; [exact Hi2| |done].
    apply sublist_filter.
  - apply filter_tasks_sublist.
Qed.

End WaitFacts.

Section SubmitFacts.
Context {A Frame Chunk : Type}.
Variable jpeg2k_encode : Frame → result Chunk.
Variable jpeg2k_decode : Chunk → result Frame.

#[local] Abbreviation Group := (gmap string (zarr_array A Chunk)).
#[local] Abbreviation PoolT := (Pool A Frame Chunk).
#[local] Abbreviation img_copy' := (img_copy jpeg2k_encode jpeg2k_decode (A:=A)).
#[local] Abbreviation settle' := (settle jpeg2k_encode jpeg2k_decode (A:=A)).
#[local] Abbreviation settled' := (settled jpeg2k_encode jpeg2k_decode (A:=A)).
#[local] Abbreviation run_one' := (run_one jpeg2k_encode jpeg2k_decode (A:=A)).
#[local] Abbreviation run_task' := (run_task jpeg2k_encode jpeg2k_decode (A:=A)).
#[local] Abbreviation wait_first' := (wait_first jpeg2k_encode jpeg2k_decode (A:=A)).
#[local] Abbreviation wait_all' := (wait_all jpeg2k_encode jpeg2k_decode (A:=A)).
#[local] Abbreviation submit_frame' :=
  (submit_frame jpeg2k_encode jpeg2k_decode (A:=A)).

Lemma run_picks_group_Some (p : PoolT) (picks : list nat) name :
  is_Some (group (foldl run_one' p picks) !! name) ↔ is_Some (group p !! name).
Proof.
  revert p. induction picks as [|pos picks IH]; intros p; [done|].
  simpl. by rewrite IH, run_one_group_Some.
Qed.

Lemma wait_first_group_Some (p : PoolT) name :
  is_Some (group (wait_first' p).2 !! name) ↔ is_Some (group p !! name).
Proof.
  unfold wait_first. simpl.
  assert (is_Some (group (run_decision jpeg2k_encode jpeg2k_decode p) !! name)
          ↔ is_Some (group p !! name)) as Hd.
  { unfold run_decision. destruct (schedule p); [done|].
    by rewrite run_picks_group_Some. }
  destruct (existsb is_done _); [done|]. by rewrite run_one_group_Some.
Qed.

Lemma run_tasks_false (s : Group * bool) (ts : list (Task Frame)) :
  s.2 = false → (foldl run_task' s ts).2 = false.
Proof.
  revert s. induction ts as [|t ts IH]; intros s Hs; [done|].
  simpl. apply IH. unfold run_task. simpl. by rewrite Hs.
Qed.

(** A new future on top of a pool. *)
Lemma add_future_spec (p : PoolT) (t : Task Frame) :
  pool_inv p → target t ∉ target <$> (task <$> futures p) →
  is_Some (group p !! zarr_arr t) →
  let p' := {| group := group p;
               futures := futures p ++ [ {| task := t; outcome := None |} ];
               schedule := schedule p |} in
  pool_inv p' ∧ settled' p' = run_task' (settled' p) t.
Proof.
  intros [Hnd Hdom] Hfresh Hname p'. split; [split|]; simpl.
  - rewrite !fmap_app. apply NoDup_app. split_and!; [done| |apply NoDup_singleton].
    intros x Hx Hx'. apply list_elem_of_singleton in Hx'. by subst.
  - intros f [Hf|Hf]%elem_of_app; [by apply Hdom|].
    apply list_elem_of_singleton in Hf. by subst.
  - unfold settled, run_task. simpl. rewrite settle_app. simpl.
    unfold future_result. simpl. by rewrite andb_true_r.
Qed.

Lemma submit_frame_spec cap name arr (p : PoolT) (idx : nat) :
  camera_inv name idx p →
  match submit_frame' cap name arr p idx with
  | Ok p' => camera_inv name (S idx) p'
             ∧ settled' p' = run_task' (settled' p) (frame_task name arr idx)
  | Raise _ => (settled' p).2 = false
  end.
Proof.
  intros (Hinv & Hname & Hidx).
  assert (∀ q : PoolT,
            pool_inv q → is_Some (group q !! name) →
            task <$> futures q `sublist_of` task <$> futures p →
            settled' q = settled' p →
            let q' := {| group := group q;
                         futures := futures q ++
                           [ {| task := frame_task name arr idx; outcome := None |} ];
                         schedule := schedule q |} in
            camera_inv name (S idx) q'
            ∧ settled' q' = run_task' (settled' p) (frame_task name arr idx))
    as Hadd.
  { intros q Hq Hqn Hsub Hs q'.
    assert (∀ f, f ∈ futures q → zarr_arr (task f) = name → zarr_idx (task f) < idx)
      as Hqidx.
    { intros f Hf. assert (task f ∈ task <$> futures p) as Ht.
      { eapply elem_of_sublist; [|exact Hsub]. by apply list_elem_of_fmap_2. }
      apply list_elem_of_fmap in Ht as (f' & -> & Hf'). by apply Hidx. }
    destruct (add_future_spec q (frame_task name arr idx) Hq) as [Hi Hse].
    - intros Hin. apply list_elem_of_fmap in Hin as (t' & Heq & Hin).
      apply list_elem_of_fmap in Hin as (f & -> & Hf).
      injection Heq as Hn Hi. specialize (Hqidx f Hf (eq_sym Hn)). lia.
    - exact Hqn.
    - split; [|by rewrite <- Hs].
      split; [exact Hi|]. split; [exact Hqn|].
      intros f [Hf|Hf]%elem_of_app.
      + intros Hn. specialize (Hqidx f Hf Hn). lia.
      + apply list_elem_of_singleton in Hf. subst. simpl. lia. }
  unfold submit_frame. destruct (cap <=? length (futures p)).
  - destruct (wait_first_spec jpeg2k_encode jpeg2k_decode p Hinv)
      as (Hi & Hs1 & Hs2 & Hsub).
    pose proof (proj2 (wait_first_group_Some p name) Hname) as Hname1.
    destruct (wait_first' p) as [completed p1]. simpl in *.
    destruct (check_completed completed) as [[]|e]; simpl in *.
    + apply Hadd; [done|done|done|].
      destruct (settled' p1), (settled' p). simpl in *. by subst.
    + done.
  - simpl. by apply Hadd.
Qed.

End SubmitFacts.

Section RgbFacts.
Context {A Frame Chunk : Type}.
Variable jpeg2k_encode : Frame → result Chunk.
Variable jpeg2k_decode : Chunk → result Frame.

#[local] Abbreviation Group := (gmap string (zarr_array A Chunk)).
#[local] Abbreviation PoolT := (Pool A Frame Chunk).
#[local] Abbreviation img_copy' := (img_copy jpeg2k_encode jpeg2k_decode (A:=A)).
#[local] Abbreviation settle' := (settle jpeg2k_encode jpeg2k_decode (A:=A)).
#[local] Abbreviation settled' := (settled jpeg2k_encode jpeg2k_decode (A:=A)).
#[local] Abbreviation run_one' := (run_one jpeg2k_encode jpeg2k_decode (A:=A)).
#[local] Abbreviation run_task' := (run_task jpeg2k_encode jpeg2k_decode (A:=A)).
#[local] Abbreviation wait_all' := (wait_all jpeg2k_encode jpeg2k_decode (A:=A)).
#[local] Abbreviation submit_frame' :=
  (submit_frame jpeg2k_encode jpeg2k_decode (A:=A)).
#[local] Abbreviation dump_rgb' := (dump_rgb jpeg2k_encode jpeg2k_decode (A:=A)).
#[local] Abbreviation sequential_rgb' :=
  (sequential_rgb jpeg2k_encode jpeg2k_decode (A:=A)).

(** The submission loop of one camera against the run of its tasks. *)
Lemma submit_loop_spec cap name arr (n k : nat) (p : PoolT) :
  camera_inv name k p →
  match foldM (submit_frame' cap name arr) p (seq k n) with
  | Ok p' => camera_inv name (k + n) p'
             ∧ settled' p'
               = foldl run_task' (settled' p) (frame_task name arr <$> seq k n)
  | Raise _ =>
      (foldl run_task' (settled' p) (frame_task name arr <$> seq k n)).2 = false
  end.
Proof.
  revert k p. induction n as [|n IH]; intros k p Hinv.
  - simpl. by rewrite Nat.add_0_r.
  - simpl. pose proof (submit_frame_spec jpeg2k_encode jpeg2k_decode
                         cap name arr p k Hinv) as Hs.
    destruct (submit_frame' cap name arr p k) as [p1|e]; simpl.
    + destruct Hs as [Hi1 Hs1]. specialize (IH (S k) p1 Hi1).
      rewrite <- Hs1. replace (k + S n) with (S k + n) by lia. exact IH.
    + apply run_tasks_false. unfold run_task. simpl. by rewrite Hs.
Qed.

Lemma settle_lookup_None (g : Group) (fs : list (Future Frame)) name :
  (settle' g fs).1 !! name = None ↔ g !! name = None.
Proof.
  revert g. induction fs as [|f fs IH]; intros g; [done|].
  simpl. rewrite IH. unfold future_result.
  destruct (outcome f); [done|]. apply img_copy_lookup_None.
Qed.

Lemma settle_insert_fresh (g : Group) (fs : list (Future Frame)) name a :
  (∀ f, f ∈ fs → zarr_arr (task f) ≠ name) →
  settle' (<[name := a]> g) fs
  = (<[name := a]> (settle' g fs).1, (settle' g fs).2).
Proof.
  revert g. induction fs as [|f fs IH]; intros g Hne; [done|].
  simpl. unfold future_result. destruct (outcome f) as [b|]; simpl.
  - rewrite IH; [done|]. intros f' Hf'. apply Hne. by right.
  - rewrite img_copy_insert_fresh by (apply Hne; by left). simpl.
    rewrite IH; [done|]. intros f' Hf'. apply Hne. by right.
Qed.

(** Creating the destination array of a camera in the pool's group and
    in the state the pool stands for. *)
Lemma require_dataset_spec (p : PoolT) name sh :
  pool_inv p →
  match require_dataset (group p) name sh with
  | Ok g' =>
      ∃ g'', require_dataset (settled' p).1 name sh = Ok g''
             ∧ settle' g' (futures p) = (g'', (settled' p).2)
             ∧ camera_inv name 0
                 {| group := g'; futures := futures p; schedule := schedule p |}
  | Raise e => require_dataset (settled' p).1 name sh = Raise e
  end.
Proof.
  intros [Hnd Hdom]. unfold require_dataset, settled.
  destruct (group p !! name) as [a|] eqn:Hg.
  - destruct ((settle' (group p) (futures p)).1 !! name) eqn:Hs; [done|].
    apply settle_lookup_None in Hs. congruence.
  - rewrite (proj2 (settle_lookup_None (group p) (futures p) name) Hg).
    eexists. split; [done|].
    assert (∀ f, f ∈ futures p → zarr_arr (task f) ≠ name) as Hne.
    { intros f Hf Heq. destruct (Hdom f Hf) as [x Hx]. rewrite Heq in Hx.
      congruence. }
    split; [by apply settle_insert_fresh|].
    split; [split|split]; simpl.
    + done.
    + intros f Hf. rewrite lookup_insert_ne by (apply not_eq_sym, Hne; done).
      by apply Hdom.
    + rewrite lookup_insert_eq. eauto.
    + intros f Hf Hn. by apply Hne in Hf.
Qed.

Lemma sequential_rgb_false shape_meta n_steps (s s' : Group * bool) item :
  s.2 = false → sequential_rgb' shape_meta n_steps s item = Ok s' → s'.2 = false.
Proof.
  intros Hs. unfold sequential_rgb. intros H.
  apply bind_Ok in H as (attr & _ & H).
  apply bind_Ok in H as ([[c h] w] & _ & H).
  apply bind_Ok in H as (g & _ & [= <-]).
  by apply run_tasks_false.
Qed.

(** One camera in the pool against one camera in the sequential run. *)
Lemma dump_rgb_spec shape_meta n_steps cap (p : PoolT) item :
  pool_inv p →
  match dump_rgb' shape_meta n_steps cap p item with
  | Ok p' => pool_inv p'
             ∧ sequential_rgb' shape_meta n_steps (settled' p) item
               = Ok (settled' p')
  | Raise _ =>
      match sequential_rgb' shape_meta n_steps (settled' p) item with
      | Ok s => s.2 = false
      | Raise _ => True
      end
  end.
Proof.
  intros Hinv. unfold dump_rgb, sequential_rgb.
  destruct (Dict.getitem (obs shape_meta) item.1) as [attr|e]; [|done].
  cbn [mbind result_bind].
  destruct (unpack_chw (attr_shape attr)) as [[[c h] w]|e]; [|done].
  cbn [mbind result_bind].
  pose proof (require_dataset_spec p item.1 [n_steps; h; w; c] Hinv) as Hr.
  destruct (require_dataset (group p) item.1 [n_steps; h; w; c]) as [g'|e].
  - destruct Hr as (g'' & -> & Hs & Hcam). cbn [mbind result_bind].
    pose proof (submit_loop_spec cap item.1 (concat item.2)
                  (length (concat item.2)) 0 _ Hcam) as Hl.
    change (settled' {| group := g'; futures := futures p; schedule := schedule p |})
      with (settle' g' (futures p)) in Hl.
    rewrite Hs in Hl. fold (camera_tasks item.1 (concat item.2)) in Hl.
    destruct (foldM _ _ _) as [p'|e].
    + destruct Hl as [(Hi & _) ->]. done.
    + done.
  - cbn [mbind result_bind]. by rewrite Hr.
Qed.

(** The loop over the cameras. *)
Lemma rgb_loop_spec shape_meta n_steps cap items (p : PoolT) :
  pool_inv p →
  match foldM (dump_rgb' shape_meta n_steps cap) p items with
  | Ok p' => pool_inv p'
             ∧ foldM (sequential_rgb' shape_meta n_steps) (settled' p) items
               = Ok (settled' p')
  | Raise _ =>
      match foldM (sequential_rgb' shape_meta n_steps) (settled' p) items with
      | Ok s => s.2 = false
      | Raise _ => True
      end
  end.
Proof.
  revert p. induction items as [|item items IH]; intros p Hinv; [done|].
  simpl. pose proof (dump_rgb_spec shape_meta n_steps cap p item Hinv) as Hd.
  destruct (dump_rgb' shape_meta n_steps cap p item) as [p1|e]; simpl.
  - destruct Hd as [Hi ->]. simpl. by apply IH.
  - destruct (sequential_rgb' shape_meta n_steps (settled' p) item)
      as [s|e'] eqn:Hs; [|done]. simpl.
    assert (∀ items s, s.2 = false →
              match foldM (sequential_rgb' shape_meta n_steps) s items with
              | Ok s' => s'.2 = false
              | Raise _ => True
              end) as Hfalse.
    { clear. intros items. induction items as [|item items IH]; intros s Hs; [done|].
      simpl. destruct (sequential_rgb' shape_meta n_steps s item) as [s1|] eqn:H1;
        [|done].
      simpl. apply IH. by eapply sequential_rgb_false. }
    by apply Hfalse.
Qed.

End RgbFacts.

Section WaitAllFacts.
Context {A Frame Chunk : Type}.
Variable jpeg2k_encode : Frame → result Chunk.
Variable jpeg2k_decode : Chunk → result Frame.

#[local] Abbreviation Group := (gmap string (zarr_array A Chunk)).
#[local] Abbreviation PoolT := (Pool A Frame Chunk).
#[local] Abbreviation settle' := (settle jpeg2k_encode jpeg2k_decode (A:=A)).
#[local] Abbreviation settled' := (settled jpeg2k_encode jpeg2k_decode (A:=A)).
#[local] Abbreviation run_one' := (run_one jpeg2k_encode jpeg2k_decode (A:=A)).
#[local] Abbreviation wait_all' := (wait_all jpeg2k_encode jpeg2k_decode (A:=A)).

Lemma run_one_lookup (p : PoolT) (pos i : nat) (f' : Future Frame) :
  futures (run_one' p pos) !! i = Some f' →
  (i = pos → is_done f' = true)
  ∧ ∃ f, futures p !! i = Some f ∧ (is_done f = true → is_done f' = true).
Proof.
  unfold run_one. destruct (futures p !! pos) as [[t [b|]]|] eqn:Hpos.
  - intros Hi. split; [|eauto]. intros ->. rewrite Hpos in Hi.
    by injection Hi as <-.
  - destruct (img_copy _ _ _ _) as [g ok]. simpl. intros Hi.
    apply list_lookup_insert_Some in Hi as [(-> & <- & Hlt)|(Hne & Hi)].
    + split; [done|]. eauto.
    + split; [congruence|]. eauto.
  - intros Hi. split; [|eauto]. intros ->. congruence.
Qed.

Lemma run_one_length (p : PoolT) pos :
  length (futures (run_one' p pos)) = length (futures p).
Proof.
  rewrite <- (length_fmap task), run_one_tasks. apply length_fmap.
Qed.

Lemma run_all_done (p : PoolT) (n i : nat) (f : Future Frame) :
  i < n → futures (foldl run_one' p (seq 0 n)) !! i = Some f →
  is_done f = true.
Proof.
  revert i f. induction n as [|n IH]; intros i f Hi Hf; [lia|].
  rewrite seq_S, foldl_app in Hf. simpl in Hf.
  apply run_one_lookup in Hf as [Hpos (f0 & Hf0 & Hd)].
  destruct (decide (i = n)) as [->|Hne]; [by apply Hpos|].
  apply Hd. apply (IH i); [lia|done].
Qed.

Lemma settle_all_done (g : Group) (fs : list (Future Frame)) :
  Forall (fun f => is_done f = true) fs → settle' g fs = (g, all_true fs).
Proof.
  induction 1 as [|f fs Hf _ IH]; [done|].
  simpl. unfold future_result. unfold is_done in Hf.
  destruct (outcome f) as [b|] eqn:Ho.
  - cbn [fst snd]. rewrite IH. cbn [fst snd]. unfold all_true. cbn [forallb].
    f_equal. f_equal. by destruct b.
  - apply bool_decide_eq_true in Hf. by destruct Hf.
Qed.

(** The final [wait]: the group and the verdict of the check are the
    state the pool stood for. *)
Lemma wait_all_spec (p : PoolT) :
  pool_inv p →
  (group (wait_all' p).2, is_ok (check_completed (wait_all' p).1)) = settled' p.
Proof.
  intros Hinv. unfold wait_all.
  destruct (run_decision_spec jpeg2k_encode jpeg2k_decode p Hinv) as (Hi1 & Hs1 & _).
  set (p1 := run_decision jpeg2k_encode jpeg2k_decode p) in *.
  destruct (run_picks_spec jpeg2k_encode jpeg2k_decode p1
              (seq 0 (length (futures p1))) Hi1) as (_ & Hs2 & _ & Ht2).
  set (p2 := foldl run_one' p1 (seq 0 (length (futures p1)))) in *.
  simpl. rewrite check_completed_all_true, <- Hs1, <- Hs2.
  unfold settled. symmetry. apply settle_all_done.
  apply Forall_lookup. intros i f Hf.
  apply (run_all_done p1 (length (futures p1)) i); [|done].
  apply lookup_lt_Some in Hf.
  rewrite <- (length_fmap task), Ht2, length_fmap in Hf. done.
Qed.

End WaitAllFacts.

Section Independence.
Context {A Frame Chunk : Type}.
Variable to_float32 : A → A.
Variable forward : Np.ndarray A → result (Np.ndarray A).
Variable cv2_resize : Frame → nat → nat → result Frame.
Variable frame_shape : Frame → list nat.
Variable jpeg2k_encode : Frame → result Chunk.
Variable jpeg2k_decode : Chunk → result Frame.
Variable cpu_count : nat.

#[local] Abbreviation DirT := (gmap string (entry A Frame Chunk)).
#[local] Abbreviation convert' :=
  (_convert_sapein_to_dp_replay to_float32 forward cv2_resize frame_shape
     jpeg2k_encode jpeg2k_decode cpu_count).
#[local] Abbreviation load_episodes' :=
  (load_episodes to_float32 forward cv2_resize frame_shape (Chunk:=Chunk)).

(** A store is returned exactly when the sequential run of the encode
    tasks ends with every outcome true, and it is the group of that run:
    neither the scheduler nor the cap on tasks in flight shows. *)
Lemma convert_Ok_iff sched shape_meta (dir : DirT) n_workers max_inflight_tasks rb :
  convert' sched shape_meta dir n_workers max_inflight_tasks = Ok rb
  ↔ ∃ st n_steps g,
      load_episodes' shape_meta dir = Ok st
      ∧ last (episode_ends st) = Some n_steps
      ∧ foldM dump_lowdim ∅ (lowdim_data_dict st) = Ok g
      ∧ default cpu_count n_workers ≠ 0
      ∧ foldM (sequential_rgb jpeg2k_encode jpeg2k_decode shape_meta n_steps)
          (g, true) (rgb_data_dict st) = Ok (data_group rb, true)
      ∧ meta_episode_ends rb = episode_ends st.
Proof.
  split.
  - intros H. apply convert_Ok_inv in H
      as (st & n_steps & g & p & Hst & Hn & Hg & Hw & Hp & Hc & ->).
    exists st, n_steps, g. split_and!; try done. simpl.
    pose proof (rgb_loop_spec jpeg2k_encode jpeg2k_decode shape_meta n_steps
                  (default (default cpu_count n_workers * 5) max_inflight_tasks)
                  (rgb_data_dict st)
                  {| group := g; futures := []; schedule := sched |}) as Hl.
    rewrite Hp in Hl. destruct Hl as [Hi Hl].
    { split; simpl; [constructor|]. intros f Hf. by apply elem_of_nil in Hf. }
    change (settled jpeg2k_encode jpeg2k_decode
              {| group := g; futures := []; schedule := sched |})
      with (g, true) in Hl.
    rewrite Hl. f_equal.
    rewrite <- (wait_all_spec jpeg2k_encode jpeg2k_decode p Hi). by rewrite Hc.
  - intros (st & n_steps & g & Hst & Hn & Hg & Hw & Hseq & Hends).
    unfold _convert_sapein_to_dp_replay. rewrite Hst. cbn [mbind result_bind].
    rewrite Hn. cbn [mbind result_bind]. rewrite Hg. cbn [mbind result_bind].
    destruct (Nat.eqb_spec (default cpu_count n_workers) 0) as [|_]; [done|].
    cbn [mbind result_bind].
    pose proof (rgb_loop_spec jpeg2k_encode jpeg2k_decode shape_meta n_steps
                  (default (default cpu_count n_workers * 5) max_inflight_tasks)
                  (rgb_data_dict st)
                  {| group := g; futures := []; schedule := sched |}) as Hl.
    change (settled jpeg2k_encode jpeg2k_decode
              {| group := g; futures := []; schedule := sched |})
      with (g, true) in Hl.
    rewrite Hseq in Hl.
    destruct (foldM (dump_rgb _ _ _ _ _) _ _) as [p|e].
    + destruct Hl as [Hi Hs].
      { split; simpl; [constructor|]. intros f Hf. by apply elem_of_nil in Hf. }
      cbn [mbind result_bind].
      pose proof (wait_all_spec jpeg2k_encode jpeg2k_decode p Hi) as Hwa.
      injection Hs as Hs. rewrite <- Hs in Hwa.
      destruct (wait_all jpeg2k_encode jpeg2k_decode p) as [completed p'].
      simpl in Hwa. injection Hwa as Hg' Hok.
      destruct (check_completed completed) as [[]|]; [|done].
      cbn [mbind result_bind]. destruct rb. simpl in *. by subst.
    + assert ((data_group rb, true).2 = false) as Hfalse; [|done].
      apply Hl. split; simpl; [constructor|].
      intros f Hf. by apply elem_of_nil in Hf.
Qed.

(** C4: the built store does not depend on the concurrency
    configuration: whatever the cap on tasks in flight (1 or any other)
    and however the workers are scheduled, either every build returns
    the same store or none returns a store. *)
Theorem store_independent_of_concurrency sched1 sched2 shape_meta (dir : DirT)
    n_workers inflight1 inflight2 rb :
  convert' sched1 shape_meta dir n_workers inflight1 = Ok rb
  ↔ convert' sched2 shape_meta dir n_workers inflight2 = Ok rb.
Proof. by rewrite !convert_Ok_iff. Qed.

End Independence.

(** On [Examples.dir2]: a cap of one task in flight with the workers
    finishing in some order, against the default cap. *)
Example store_independent_example :
  Examples.convert Examples.encode [[0]; [1; 0]] Examples.dir2 (Some 1)
  = Examples.convert Examples.encode [] Examples.dir2 None.
Proof. vm_compute. reflexivity. Qed.

(** ** Every frame is encoded and verified *)

Section Verified.
Context {A Frame Chunk : Type}.
Variable jpeg2k_encode : Frame → result Chunk.
Variable jpeg2k_decode : Chunk → result Frame.

#[local] Abbreviation Group := (gmap string (zarr_array A Chunk)).
#[local] Abbreviation img_copy' := (img_copy jpeg2k_encode jpeg2k_decode (A:=A)).
#[local] Abbreviation run_task' := (run_task jpeg2k_encode jpeg2k_decode (A:=A)).
#[local] Abbreviation sequential_rgb' :=
  (sequential_rgb jpeg2k_encode jpeg2k_decode (A:=A)).

#[local] Abbreviation frame_stored := (frame_stored jpeg2k_encode jpeg2k_decode (A:=A)).

(** [img_copy] returns [True] only after a write that succeeded and a
    read back that decoded the chunk just written. *)
Lemma img_copy_true (g g' : Group) (t : Task Frame) :
  img_copy' g t = (g', true) →
  ∃ img c,
    hdf5_arr t !! hdf5_idx t = Some img
    ∧ jpeg2k_encode img = Ok c
    ∧ is_ok (jpeg2k_decode c) = true
    ∧ writable g t = true
    ∧ g' = alter (put_chunk (zarr_idx t) c) (zarr_arr t) g.
Proof.
  rewrite img_copy_spec. unfold encoded.
  destruct (hdf5_arr t !! hdf5_idx t) as [img|]; [|done].
  destruct (jpeg2k_encode img) as [c|] eqn:Henc; [|done].
  destruct (writable g t); [|done]. intros [= <- Hd]. by exists img, c.
Qed.

Lemma camera_run_spec (g : Group) (ok : bool) name arr sh chunks0 (n : nat) :
  g !! name = Some (Compressed sh chunks0) →
  let s := foldl run_task' (g, ok) (frame_task name arr <$> seq 0 n) in
  s.2 = true →
  ok = true
  ∧ (∀ other, other ≠ name → s.1 !! other = g !! other)
  ∧ ∃ chunks,
      s.1 !! name = Some (Compressed sh chunks)
      ∧ ∀ idx, idx < n →
          ∃ img, arr !! idx = Some img ∧ frame_stored s.1 name idx img.
Proof.
  intros Hg. induction n as [|n IH]; cbv zeta in *.
  - simpl. intros ->. split_and!; [done|done|]. exists chunks0. split; [done|]. lia.
  - rewrite seq_S, fmap_app, foldl_app. cbn [foldl fmap list_fmap plus].
    set (s := foldl run_task' (g, ok) (frame_task name arr <$> seq 0 n)) in *.
    unfold run_task. cbn [fst snd].
    intros [Hs Hb]%andb_true_iff.
    destruct (IH Hs) as (Hok & Hother & chunks & Hname & Hidx).
    destruct (img_copy' s.1 (frame_task name arr n)) as [g' b] eqn:Hic.
    simpl in *. subst b.
    apply img_copy_true in Hic as (img & c & Himg & Henc & Hdec & Hw & ->).
    simpl in *. unfold writable in Hw. simpl in Hw. rewrite Hname in Hw.
    apply Nat.ltb_lt in Hw.
    split_and!; [done| |].
    + intros other Hne. rewrite lookup_alter_ne by done. by apply Hother.
    + exists (<[n := Some c]> chunks). rewrite lookup_alter_eq, Hname.
      split; [done|]. intros idx Hlt.
      destruct (decide (idx = n)) as [->|Hne].
      * exists img. split; [done|]. exists sh, (<[n := Some c]> chunks), c.
        rewrite lookup_alter_eq, Hname. split_and!; try done.
        by apply list_lookup_insert_eq.
      * destruct (Hidx idx) as (img' & Himg' & sh' & chunks' & c' & H1 & H2 & H3 & H4);
          [lia|].
        exists img'. split; [done|]. exists sh, (<[n := Some c]> chunks), c'.
        rewrite lookup_alter_eq, Hname. rewrite Hname in H1. injection H1 as <- <-.
        split_and!; try done. by rewrite list_lookup_insert_ne.
Qed.

Lemma sequential_rgb_spec shape_meta n_steps (s s' : Group * bool) item :
  sequential_rgb' shape_meta n_steps s item = Ok s' → s'.2 = true →
  s.2 = true
  ∧ s.1 !! item.1 = None
  ∧ (∀ other, other ≠ item.1 → s'.1 !! other = s.1 !! other)
  ∧ ∀ idx img, concat item.2 !! idx = Some img →
               frame_stored s'.1 item.1 idx img.
Proof.
  unfold sequential_rgb. intros H Hs'.
  apply bind_Ok in H as (attr & _ & H).
  apply bind_Ok in H as ([[c h] w] & _ & H).
  apply bind_Ok in H as (g & Hg & [= <-]).
  unfold require_dataset in Hg.
  destruct (s.1 !! item.1) eqn:Hnone; [done|]. injection Hg as <-.
  unfold camera_tasks in *.
  destruct (camera_run_spec _ s.2 item.1 (concat item.2) _ _
              (length (concat item.2)) (lookup_insert_eq _ _ _) Hs')
    as (Hok & Hother & chunks & Hname & Hidx).
  split_and!; try done.
  - intros other Hne. rewrite Hother by done. by rewrite lookup_insert_ne.
  - intros idx img Himg.
    destruct (Hidx idx) as (img' & Himg' & Hst); [by eapply lookup_lt_Some|].
    congruence.
Qed.

Lemma sequential_loop_false shape_meta n_steps items (s s' : Group * bool) :
  foldM (sequential_rgb' shape_meta n_steps) s items = Ok s' →
  s'.2 = true → s.2 = true.
Proof.
  revert s. induction items as [|item items IH]; intros s H Hs'.
  - by injection H as ->.
  - apply foldM_cons_Ok in H as (s1 & H1 & H).
    specialize (IH _ H Hs').
    by destruct (sequential_rgb_spec _ _ _ _ _ H1 IH).
Qed.

Lemma sequential_loop_preserves shape_meta n_steps items (s s' : Group * bool) name :
  foldM (sequential_rgb' shape_meta n_steps) s items = Ok s' →
  s'.2 = true → is_Some (s.1 !! name) → s'.1 !! name = s.1 !! name.
Proof.
  revert s. induction items as [|item items IH]; intros s H Hs' Hname.
  - by injection H as ->.
  - apply foldM_cons_Ok in H as (s1 & H1 & H).
    pose proof (sequential_loop_false _ _ _ _ _ H Hs') as Hs1.
    destruct (sequential_rgb_spec _ _ _ _ _ H1 Hs1) as (_ & Hnone & Hother & _).
    assert (name ≠ item.1) as Hne.
    { intros ->. destruct Hname as [? ?]. congruence. }
    rewrite <- (Hother _ Hne). apply IH; [done|done|].
    by rewrite (Hother _ Hne).
Qed.

Lemma sequential_loop_stored shape_meta n_steps items (s s' : Group * bool) :
  foldM (sequential_rgb' shape_meta n_steps) s items = Ok s' →
  s'.2 = true →
  ∀ name data idx img,
    (name, data) ∈ items → concat data !! idx = Some img →
    frame_stored s'.1 name idx img.
Proof.
  revert s. induction items as [|item items IH]; intros s H Hs' name data idx img Hin Himg.
  - by apply elem_of_nil in Hin.
  - apply foldM_cons_Ok in H as (s1 & H1 & H).
    apply elem_of_cons in Hin as [<-|Hin]; [|by eapply IH].
    pose proof (sequential_loop_false _ _ _ _ _ H Hs') as Hs1.
    destruct (sequential_rgb_spec _ _ _ _ _ H1 Hs1) as (_ & _ & _ & Hst).
    destruct (Hst idx img Himg) as (sh & chunks & c & Hl & Hc & He & Hd).
    simpl in *. exists sh, chunks, c. split_and!; try done.
    rewrite <- Hl. eapply sequential_loop_preserves; [exact H|done|].
    rewrite Hl. eauto.
Qed.

End Verified.

Section EncodeFailure.
Context {A Frame Chunk : Type}.
Variable to_float32 : A → A.
Variable forward : Np.ndarray A → result (Np.ndarray A).
Variable cv2_resize : Frame → nat → nat → result Frame.
Variable frame_shape : Frame → list nat.
Variable jpeg2k_encode : Frame → result Chunk.
Variable jpeg2k_decode : Chunk → result Frame.
Variable cpu_count : nat.

#[local] Abbreviation DirT := (gmap string (entry A Frame Chunk)).
#[local] Abbreviation convert' :=
  (_convert_sapein_to_dp_replay to_float32 forward cv2_resize frame_shape
     jpeg2k_encode jpeg2k_decode cpu_count).
#[local] Abbreviation load_episodes' :=
  (load_episodes to_float32 forward cv2_resize frame_shape (Chunk:=Chunk)).

(** C5: a task reports success only after its write went through and
    the chunk it wrote was decoded again; one completed task that does
    not report success makes the check raise; and a build that returns a
    store has every frame of every camera stored at its own index, in a
    chunk that was encoded from it and decodes. *)
Theorem encode_failure_aborts sched shape_meta (dir : DirT)
    n_workers max_inflight_tasks :
  (∀ (g g' : gmap string (zarr_array A Chunk)) t,
     img_copy jpeg2k_encode jpeg2k_decode g t = (g', true) →
     ∃ img c, hdf5_arr t !! hdf5_idx t = Some img
              ∧ jpeg2k_encode img = Ok c
              ∧ is_ok (jpeg2k_decode c) = true)
  ∧ (∀ (completed : list (Future Frame)) f,
       f ∈ completed → outcome f ≠ Some true →
       check_completed completed = Raise (RuntimeError "Failed to encode image!"))
  ∧ (∀ rb st name data idx img,
       convert' sched shape_meta dir n_workers max_inflight_tasks = Ok rb →
       load_episodes' shape_meta dir = Ok st →
       (name, data) ∈ rgb_data_dict st →
       concat data !! idx = Some img →
       frame_stored jpeg2k_encode jpeg2k_decode (data_group rb) name idx img).
Proof.
  split_and!.
  - intros g g' t H.
    apply img_copy_true in H as (img & c & H1 & H2 & H3 & _). eauto.
  - intros completed f Hf Hne. unfold check_completed.
    destruct (forallb _ completed) eqn:Hall; [|done].
    exfalso. rewrite forallb_forall in Hall.
    specialize (Hall f (proj1 (list_elem_of_In _ _) Hf)).
    by apply bool_decide_eq_true in Hall.
  - intros rb st name data idx img H Hst Hin Himg.
    apply convert_Ok_iff in H as (st' & n_steps & g & Hst' & _ & _ & _ & Hseq & _).
    rewrite Hst in Hst'. injection Hst' as <-.
    by apply (sequential_loop_stored jpeg2k_encode jpeg2k_decode
                _ _ _ _ _ Hseq eq_refl name data idx img).
Qed.

End EncodeFailure.

Lemma encode_failure_aborts_witness :
  (∃ rb,
     Examples.convert Examples.encode [] Examples.dir2 None = Ok rb
     ∧ frame_stored Examples.encode Examples.decode (data_group rb)
         "cam" 0 [2; 2; 3])
  ∧ Examples.convert Examples.encode_picky [] Examples.dir2 None
    = Raise (RuntimeError "Failed to encode image!").
Proof.
  split; [|reflexivity].
  destruct (Examples.convert Examples.encode [] Examples.dir2 None)
    as [rb|e] eqn:H; [|by vm_compute in H].
  exists rb. split; [done|].
  destruct (load_episodes Examples.cast Examples.forward6 Examples.resize
              Examples.frame_dims (Chunk:=list nat)
              Examples.shape_meta Examples.dir2)
    as [st|e] eqn:Hst; [|by vm_compute in Hst].
  apply (proj2 (proj2 (encode_failure_aborts Examples.cast Examples.forward6
                         Examples.resize Examples.frame_dims Examples.encode
                         Examples.decode 4 [] Examples.shape_meta
                         Examples.dir2 None None))
           rb st "cam" [replicate 2 [2; 2; 3]; replicate 3 [2; 2; 3]] 0 [2; 2; 3]
           H Hst); [|reflexivity].
  vm_compute in Hst. injection Hst as <-. by left.
Defined.

(** * Further properties *)

(** ** Edge cases of the converter *)

Section ConverterEdges.
Context {A Frame Chunk : Type}.
Variable to_float32 : A → A.
Variable forward : Np.ndarray A → result (Np.ndarray A).
Variable cv2_resize : Frame → nat → nat → result Frame.
Variable frame_shape : Frame → list nat.
Variable jpeg2k_encode : Frame → result Chunk.
Variable jpeg2k_decode : Chunk → result Frame.
Variable cpu_count : nat.

#[local] Abbreviation DirT := (gmap string (entry A Frame Chunk)).
#[local] Abbreviation load_episode' :=
  (load_episode to_float32 forward cv2_resize frame_shape (Chunk:=Chunk)).
#[local] Abbreviation load_episodes' :=
  (load_episodes to_float32 forward cv2_resize frame_shape (Chunk:=Chunk)).
#[local] Abbreviation convert' :=
  (_convert_sapein_to_dp_replay to_float32 forward cv2_resize frame_shape
     jpeg2k_encode jpeg2k_decode cpu_count).

(** A store is only returned for a directory with an episode file. *)
Lemma convert_Ok_nonempty sched shape_meta (dir : DirT)
    n_workers max_inflight_tasks rb :
  convert' sched shape_meta dir n_workers max_inflight_tasks = Ok rb →
  ∃ n, length (glob_episodes dir) = S n.
Proof.
  intros Hrb. destruct (glob_episodes dir) as [|x l] eqn:Hglob.
  - unfold _convert_sapein_to_dp_replay, load_episodes in Hrb.
    by rewrite Hglob in Hrb.
  - by exists (length l).
Qed.

(** X1.  A dataset directory in which no name matches [episode_*.hdf5]
    cannot be converted: the episode loop does not run, [episode_ends]
    stays empty and [n_steps = episode_ends[-1]] raises [IndexError],
    whatever the shape metadata, the worker count and the scheduler. *)
Theorem convert_empty_directory sched shape_meta (dir : DirT)
    n_workers max_inflight_tasks :
  glob_episodes dir = [] →
  convert' sched shape_meta dir n_workers max_inflight_tasks = Raise IndexError.
Proof.
  intros Hglob. unfold _convert_sapein_to_dp_replay, load_episodes.
  rewrite Hglob. reflexivity.
Qed.

(** The round of the low-dimensional loop for the key ['action'] needs
    the declared action shape. *)
Lemma load_lowdim_action_undeclared shape_meta (file : H5File A Frame)
    episode_length d :
  action shape_meta = None →
  ∀ d', load_lowdim to_float32 forward shape_meta file episode_length d "action"
        ≠ Ok d'.
Proof.
  intros Hact d'. unfold load_lowdim.
  rewrite bool_decide_eq_true_2 by done.
  destruct (getitem (datasets file) "cartesian_action") as [raw|e]; [|done].
  cbn [mbind result_bind].
  destruct (_convert_actions to_float32 forward raw) as [acts|e]; [|done].
  cbn [mbind result_bind]. by rewrite Hact.
Qed.

(** X2.  Shape metadata without an ['action'] entry (as in the module's
    own [test()]) never yields a store: the assertion on the action
    shape reads [shape_meta['action']] in the first episode.  With no
    low-dimensional observation declared and a first episode whose
    actions canonicalize, the exception is [KeyError('action')]. *)
Theorem convert_without_action_shape sched shape_meta (dir : DirT)
    n_workers max_inflight_tasks :
  action shape_meta = None →
  (∀ rb, convert' sched shape_meta dir n_workers max_inflight_tasks ≠ Ok rb)
  ∧ (∀ file cartesian_action episode_length actions,
       parse_lowdim_keys (obs shape_meta) = [] →
       glob_episodes dir ≠ [] →
       dir !! episode_file_name 0 = Some (Hdf5 file) →
       datasets file !! "cartesian_action" = Some cartesian_action →
       head (Np.shape cartesian_action) = Some episode_length →
       _convert_actions to_float32 forward cartesian_action = Ok actions →
       convert' sched shape_meta dir n_workers max_inflight_tasks
       = Raise (KeyError "action")).
Proof.
  intros Hact. split.
  - intros rb Hrb.
    destruct (convert_Ok_nonempty _ _ _ _ _ _ Hrb) as [n Hn].
    apply convert_Ok_inv in Hrb as (st & n_steps & g & p & Hload & _).
    unfold load_episodes in Hload. rewrite Hn in Hload.
    change (seq 0 (S n)) with (0 :: seq 1 n) in Hload.
    apply foldM_cons_Ok in Hload as (st1 & Hepi & _).
    apply load_episode_Ok in Hepi
      as (file & ca & len & lowdim & rgb & _ & _ & _ & Hlow & _).
    rewrite foldM_app in Hlow. apply bind_Ok in Hlow as (d & _ & Hlast).
    simpl in Hlast. apply bind_Ok in Hlast as (d' & Hlast & _).
    by apply load_lowdim_action_undeclared in Hlast.
  - intros file ca len acts Hkeys Hglob Hfile Hca Hlen Hacts.
    unfold _convert_sapein_to_dp_replay, load_episodes.
    destruct (glob_episodes dir) as [|x l]; [done|].
    change (seq 0 (length (x :: l))) with (0 :: seq 1 (length l)).
    rewrite Hkeys. cbn [foldM].
    set (st0 := {| episode_ends := []; prev_end := 0;
                   lowdim_data_dict := []; rgb_data_dict := [] |}).
    assert (load_episode' shape_meta dir [] (parse_rgb_keys (obs shape_meta))
              st0 0 = Raise (KeyError "action")) as ->; [|done].
    unfold load_episode, open_hdf5. rewrite Hfile. cbn [mbind result_bind].
    unfold getitem at 1. rewrite Hca. cbn [mbind result_bind].
    unfold Np.first_dim. destruct (Np.shape ca) as [|m tl]; [done|].
    simpl in Hlen. injection Hlen as ->. cbn [mbind result_bind].
    cbn [app foldM]. unfold load_lowdim.
    rewrite bool_decide_eq_true_2 by done.
    unfold getitem. rewrite Hca. cbn [mbind result_bind].
    rewrite Hacts. cbn [mbind result_bind]. rewrite Hact. reflexivity.
Qed.

(** ** Files the converter does not read *)

Lemma episode_file_name_ne (name : string) (k : nat) :
  matches_episode_pattern name = false → episode_file_name k ≠ name.
Proof.
  intros Hno <-. by rewrite episode_file_name_matches in Hno.
Qed.

Lemma glob_episodes_ext (dir1 dir2 : DirT) :
  (∀ name, matches_episode_pattern name = true →
           is_Some (dir1 !! name) ↔ is_Some (dir2 !! name)) →
  length (glob_episodes dir1) = length (glob_episodes dir2).
Proof.
  intros Hsame. apply Permutation_length, NoDup_Permutation.
  - apply NoDup_glob_episodes.
  - apply NoDup_glob_episodes.
  - intros name. rewrite !elem_of_glob_episodes.
    split; intros [Hm Hs]; (split; [done|]); by apply (Hsame name Hm).
Qed.

Lemma load_episode_ext shape_meta (dir1 dir2 : DirT) lowdim_keys rgb_keys st k :
  dir1 !! episode_file_name k = dir2 !! episode_file_name k →
  load_episode' shape_meta dir1 lowdim_keys rgb_keys st k
  = load_episode' shape_meta dir2 lowdim_keys rgb_keys st k.
Proof.
  intros Hsame. unfold load_episode, open_hdf5. by rewrite Hsame.
Qed.

Lemma foldM_ext {S X} (f g : S → X → result S) (s : S) (l : list X) :
  (∀ s x, x ∈ l → f s x = g s x) → foldM f s l = foldM g s l.
Proof.
  revert s. induction l as [|x l IH]; intros s Hfg; [done|].
  simpl. rewrite Hfg by left. destruct (g s x); [|done].
  simpl. apply IH. intros s' y Hy. apply Hfg. by right.
Qed.

(** Two directories that agree on the names matching the episode
    pattern are converted alike. *)
Lemma convert_dir_ext sched shape_meta (dir1 dir2 : DirT)
    n_workers max_inflight_tasks :
  (∀ name, matches_episode_pattern name = true → dir1 !! name = dir2 !! name) →
  convert' sched shape_meta dir1 n_workers max_inflight_tasks
  = convert' sched shape_meta dir2 n_workers max_inflight_tasks.
Proof.
  intros Hsame.
  assert (load_episodes' shape_meta dir1 = load_episodes' shape_meta dir2)
    as Hload.
  { unfold load_episodes.
    rewrite (glob_episodes_ext dir1 dir2)
      by (intros name Hm; by rewrite (Hsame name Hm)).
    apply foldM_ext. intros st k _. apply load_episode_ext, Hsame,
      episode_file_name_matches. }
  unfold _convert_sapein_to_dp_replay. by rewrite Hload.
Qed.

(** X3.  The converter reads only the entries of the dataset directory
    whose names match [episode_*.hdf5]: creating, replacing or removing
    an entry under any other name (the cache archive, its lock file,
    [config.yaml]) changes neither the store nor the exception; more
    generally, two directories that agree on the matching names give the
    same result. *)
Theorem convert_reads_episode_files_only sched shape_meta (dir : DirT)
    n_workers max_inflight_tasks (name : string) :
  matches_episode_pattern name = false →
  (∀ e, convert' sched shape_meta (<[name := e]> dir) n_workers max_inflight_tasks
        = convert' sched shape_meta dir n_workers max_inflight_tasks)
  ∧ convert' sched shape_meta (delete name dir) n_workers max_inflight_tasks
    = convert' sched shape_meta dir n_workers max_inflight_tasks
  ∧ (∀ dir2 : DirT,
       (∀ other, matches_episode_pattern other = true →
                 dir !! other = dir2 !! other) →
       convert' sched shape_meta dir n_workers max_inflight_tasks
       = convert' sched shape_meta dir2 n_workers max_inflight_tasks).
Proof.
  intros Hname. split; [|split].
  - intros e. apply convert_dir_ext. intros other Hm.
    apply lookup_insert_ne. intros ->. congruence.
  - apply convert_dir_ext. intros other Hm.
    apply lookup_delete_ne. intros ->. congruence.
  - intros dir2. apply convert_dir_ext.
Qed.

End ConverterEdges.

(** ** The cache, when nothing fails *)

Section CacheRoundTrip.
Context {A Frame Chunk : Type}.
Variable to_float32 : A → A.
Variable forward : Np.ndarray A → result (Np.ndarray A).
Variable cv2_resize : Frame → nat → nat → result Frame.
Variable frame_shape : Frame → list nat.
Variable jpeg2k_encode : Frame → result Chunk.
Variable jpeg2k_decode : Chunk → result Frame.
Variable cpu_count : nat.

#[local] Abbreviation DirT := (gmap string (entry A Frame Chunk)).
#[local] Abbreviation convert' :=
  (_convert_sapein_to_dp_replay to_float32 forward cv2_resize frame_shape
     jpeg2k_encode jpeg2k_decode cpu_count).
#[local] Abbreviation cached' :=
  (cached_replay_buffer to_float32 forward cv2_resize frame_shape
     jpeg2k_encode jpeg2k_decode cpu_count).
#[local] Abbreviation init' :=
  (SapienDataset__init__ to_float32 forward cv2_resize frame_shape
     jpeg2k_encode jpeg2k_decode cpu_count).

Lemma cache_lock_path_no_episode :
  matches_episode_pattern cache_lock_path = false.
Proof. reflexivity. Qed.

Lemma cache_paths_differ : cache_lock_path ≠ cache_zarr_path.
Proof. discriminate. Qed.

(** The cache branch on a directory that holds a complete archive. *)
Lemma cached_hit sched shape_meta (fs : DirT) save_fault rb :
  fs !! cache_zarr_path = Some (ZipArchive (Some rb)) →
  cached' sched shape_meta fs save_fault
  = (<[cache_lock_path := LockFile]> fs, Ok rb).
Proof.
  intros Hfs. unfold cached_replay_buffer, path_exists, load_from_zip.
  rewrite lookup_insert_ne by apply cache_paths_differ. rewrite Hfs.
  by rewrite bool_decide_eq_true_2.
Qed.

(** The cache branch on a directory without archive, when the build
    succeeds and the archive is written. *)
Lemma cached_miss sched shape_meta (fs : DirT) rb :
  fs !! cache_zarr_path = None →
  convert' sched shape_meta fs None None = Ok rb →
  cached' sched shape_meta fs None
  = (<[cache_zarr_path := ZipArchive (Some rb)]>
       (<[cache_lock_path := LockFile]> fs), Ok rb).
Proof.
  intros Hnone Hrb. unfold cached_replay_buffer, path_exists.
  rewrite lookup_insert_ne by apply cache_paths_differ. rewrite Hnone.
  rewrite bool_decide_eq_false_2 by (by intros [? ?]). simpl.
  assert (convert' sched shape_meta (<[cache_lock_path := LockFile]> fs)
            None None = Ok rb) as ->; [|done].
  rewrite <- Hrb. apply convert_dir_ext. intros other Hm.
  apply lookup_insert_ne. intros <-. by rewrite cache_lock_path_no_episode in Hm.
Qed.

(** X4.  A cache hit never looks at the episode files or at the shape
    metadata: when [cache.zarr.zip] holds a complete store, the
    [use_cache] branch returns that store whatever the directory holds
    besides and whatever the caller declares, and creates nothing but
    the lock file. *)
Theorem cache_hit_skips_build sched shape_meta (fs : DirT) save_fault rb :
  fs !! cache_zarr_path = Some (ZipArchive (Some rb)) →
  cached' sched shape_meta fs save_fault
  = (<[cache_lock_path := LockFile]> fs, Ok rb)
  ∧ ∀ sched2 shape_meta2 (fs2 : DirT) save_fault2,
      fs2 !! cache_zarr_path = fs !! cache_zarr_path →
      (cached' sched2 shape_meta2 fs2 save_fault2).2
      = (cached' sched shape_meta fs save_fault).2.
Proof.
  intros Hfs. split; [by apply cached_hit|].
  intros sched2 shape_meta2 fs2 save_fault2 Hfs2. rewrite Hfs in Hfs2.
  by rewrite (cached_hit _ _ _ _ _ Hfs), (cached_hit _ _ _ _ _ Hfs2).
Qed.

(** X5.  [SapienDataset.__init__] with and without the cache: on a
    directory without archive whose conversion succeeds, [use_cache=True]
    builds the same dataset object as [use_cache=False], leaves the
    archive of its store and the lock file behind, and every later
    [use_cache=True] construction returns the same dataset again from
    the archive, without changing the directory. *)
Theorem init_cache_round_trip sched shape_meta (dir : DirT)
    horizon pad_before pad_after legacy ds :
  dir !! cache_zarr_path = None →
  init' sched shape_meta dir horizon pad_before pad_after legacy false None
  = (dir, Ok ds) →
  let first :=
    init' sched shape_meta dir horizon pad_before pad_after legacy true None in
  first.2 = Ok ds
  ∧ first.1 = <[cache_zarr_path := ZipArchive (Some (replay_buffer ds))]>
                (<[cache_lock_path := LockFile]> dir)
  ∧ ∀ sched2 save_fault,
      init' sched2 shape_meta first.1 horizon pad_before pad_after legacy
        true save_fault
      = (first.1, Ok ds).
Proof.
  intros Hnone Hplain first.
  unfold SapienDataset__init__ in Hplain.
  destruct (convert' sched shape_meta dir None None) as [rb|e] eqn:Hrb;
    [|done].
  injection Hplain as <-.
  assert (first = (<[cache_zarr_path := ZipArchive (Some rb)]>
                     (<[cache_lock_path := LockFile]> dir),
                   Ok {| replay_buffer := rb;
                         shape_meta_of := shape_meta;
                         rgb_keys := parse_rgb_keys (obs shape_meta);
                         lowdim_keys := parse_lowdim_keys (obs shape_meta);
                         horizon := horizon;
                         pad_before := pad_before;
                         pad_after := pad_after;
                         use_legacy_normalizer := legacy |})) as Hfirst.
  { unfold first, SapienDataset__init__.
    by rewrite (cached_miss _ _ _ _ Hnone Hrb). }
  rewrite Hfirst. simpl. split; [done|]. split; [done|].
  intros sched2 save_fault. unfold SapienDataset__init__.
  rewrite (cached_hit _ _ _ _ rb) by apply lookup_insert_eq.
  simpl. f_equal.
  rewrite insert_insert_ne by apply cache_paths_differ.
  by rewrite insert_insert_eq.
Qed.

End CacheRoundTrip.

(** X1 on a directory that holds only the lock file of the cache. *)
Lemma convert_empty_directory_witness :
  Examples.convert Examples.encode []
    {[ "cache.zarr.zip.lock" := LockFile ]} None
  = Raise IndexError.
Proof. apply convert_empty_directory. vm_compute. reflexivity. Defined.

(** X2 on the two-episode directory with the metadata of [test()]. *)
Lemma convert_without_action_shape_witness :
  _convert_sapein_to_dp_replay Examples.cast Examples.forward6 Examples.resize
    Examples.frame_dims Examples.encode Examples.decode 4
    [] MoreExamples.shape_meta_test Examples.dir2 None None
  = Raise (KeyError "action").
Proof.
  eapply (convert_without_action_shape Examples.cast Examples.forward6
            Examples.resize Examples.frame_dims Examples.encode Examples.decode
            4 [] MoreExamples.shape_meta_test Examples.dir2 None None).
  - reflexivity.
  - reflexivity.
  - vm_compute. discriminate.
  - vm_compute. reflexivity.
  - vm_compute. reflexivity.
  - vm_compute. reflexivity.
  - vm_compute. reflexivity.
Defined.

(** X3: an incomplete archive in the directory makes no difference to
    the conversion. *)
Lemma convert_reads_episode_files_only_witness :
  Examples.convert Examples.encode []
    (<["cache.zarr.zip" := ZipArchive None]> Examples.dir2) None
  = Examples.convert Examples.encode [] Examples.dir2 None.
Proof.
  unfold Examples.convert.
  destruct (convert_reads_episode_files_only Examples.cast Examples.forward6
              Examples.resize Examples.frame_dims Examples.encode
              Examples.decode 4 [] Examples.shape_meta Examples.dir2 None None
              "cache.zarr.zip" eq_refl) as [H _].
  apply H.
Defined.

(** X4: the cached store comes back although the directory holds no
    episode at all. *)
Lemma cache_hit_skips_build_witness :
  cached_replay_buffer Examples.cast Examples.forward6 Examples.resize
    Examples.frame_dims Examples.encode Examples.decode 4
    [] Examples.shape_meta MoreExamples.dir_cached None
  = (<["cache.zarr.zip.lock" := LockFile]> MoreExamples.dir_cached,
     Ok MoreExamples.cached_store).
Proof.
  apply (cache_hit_skips_build Examples.cast Examples.forward6 Examples.resize
           Examples.frame_dims Examples.encode Examples.decode 4
           [] Examples.shape_meta MoreExamples.dir_cached None
           MoreExamples.cached_store).
  reflexivity.
Defined.

(** X5 on the two-episode directory. *)
Lemma init_cache_round_trip_witness :
  ∃ ds,
    (MoreExamples.init [] Examples.dir2 true None).2 = Ok ds
    ∧ ∀ sched,
        MoreExamples.init sched (MoreExamples.init [] Examples.dir2 true None).1
          true None
        = ((MoreExamples.init [] Examples.dir2 true None).1, Ok ds).
Proof.
  assert (Examples.dir2 !! cache_zarr_path = None) as Hnone
    by (vm_compute; reflexivity).
  assert (∃ ds, MoreExamples.init [] Examples.dir2 false None
                = (Examples.dir2, Ok ds)) as [ds Hds].
  { eexists. vm_compute. reflexivity. }
  exists ds.
  destruct (init_cache_round_trip Examples.cast Examples.forward6
              Examples.resize Examples.frame_dims Examples.encode
              Examples.decode 4 [] Examples.shape_meta Examples.dir2
              16 0 0 true ds Hnone Hds) as (H1 & _ & H3).
  split; [exact H1|]. intros sched. apply H3.
Defined.

(** ** Dictionaries *)

Lemma dict_get_set {V} (d : Dict.t V) (k k' : string) (v : V) :
  Dict.get (Dict.set d k v) k'
  = if bool_decide (k = k') then Some v else Dict.get d k'.
Proof.
  induction d as [|[k0 v0] d IH]; simpl.
  - by destruct (bool_decide (k = k')).
  - destruct (bool_decide (k0 = k)) eqn:Hk0; simpl.
    + apply bool_decide_eq_true in Hk0 as ->.
      by destruct (bool_decide (k = k')).
    + rewrite IH. apply bool_decide_eq_false in Hk0.
      destruct (bool_decide (k0 = k')) eqn:Hk0'; [|done].
      apply bool_decide_eq_true in Hk0' as ->.
      by rewrite bool_decide_eq_false_2 by congruence.
Qed.

Lemma dict_get_is_Some {V} (d : Dict.t V) (k : string) :
  is_Some (Dict.get d k) ↔ k ∈ d.*1.
Proof.
  induction d as [|[k0 v0] d IH].
  - split; [by intros [? ?]|by intros ?%elem_of_nil].
  - change (((k0, v0) :: d).*1) with (k0 :: d.*1).
    change (Dict.get ((k0, v0) :: d) k)
      with (if bool_decide (k0 = k) then Some v0 else Dict.get d k).
    rewrite elem_of_cons. case_bool_decide as Hk0.
    + subst k0. split; [by left|by eexists].
    + rewrite IH. split; [by right|]. intros [->|Hin]; [done|done].
Qed.

Lemma dict_get_None {V} (d : Dict.t V) (k : string) :
  Dict.get d k = None ↔ k ∉ d.*1.
Proof.
  rewrite <- dict_get_is_Some, eq_None_not_Some. done.
Qed.

Lemma dict_keys_set {V} (d : Dict.t V) (k : string) (v : V) :
  (Dict.set d k v).*1 = if bool_decide (k ∈ d.*1) then d.*1 else d.*1 ++ [k].
Proof.
  induction d as [|[k0 v0] d IH].
  - case_bool_decide as Hin; [by apply elem_of_nil in Hin|done].
  - change (((k0, v0) :: d).*1) with (k0 :: d.*1).
    change (Dict.set ((k0, v0) :: d) k v)
      with (if bool_decide (k0 = k) then (k0, v) :: d
            else (k0, v0) :: Dict.set d k v).
    destruct (decide (k0 = k)) as [->|Hk0].
    + rewrite (bool_decide_eq_true_2 (k = k)) by done.
      rewrite bool_decide_eq_true_2; [done|]. by left.
    + rewrite (bool_decide_eq_false_2 (k0 = k)) by done.
      change (((k0, v0) :: Dict.set d k v).*1)
        with (k0 :: (Dict.set d k v).*1).
      rewrite IH. destruct (decide (k ∈ d.*1)) as [Hin|Hin].
      * rewrite (bool_decide_eq_true_2 (k ∈ d.*1)) by done.
        rewrite bool_decide_eq_true_2; [done|]. by right.
      * rewrite (bool_decide_eq_false_2 (k ∈ d.*1)) by done.
        rewrite bool_decide_eq_false_2; [done|].
        rewrite elem_of_cons. intros [->|?]; done.
Qed.

Lemma dict_set_NoDup {V} (d : Dict.t V) (k : string) (v : V) :
  NoDup d.*1 → NoDup (Dict.set d k v).*1.
Proof.
  intros Hnd. rewrite dict_keys_set.
  destruct (bool_decide (k ∈ d.*1)) eqn:Hin; [done|].
  apply bool_decide_eq_false in Hin.
  apply NoDup_app. split; [done|]. split; [|apply NoDup_singleton].
  intros x Hx ->%list_elem_of_singleton. done.
Qed.

Lemma dict_elem_of_get {V} (d : Dict.t V) (k : string) (v : V) :
  NoDup d.*1 → (k, v) ∈ d ↔ Dict.get d k = Some v.
Proof.
  induction d as [|[k0 v0] d IH]; simpl; intros Hnd.
  - split; [by intros ?%elem_of_nil|done].
  - apply NoDup_cons in Hnd as [Hk0 Hnd]. rewrite elem_of_cons.
    destruct (bool_decide (k0 = k)) eqn:Hk.
    + apply bool_decide_eq_true in Hk as ->. split.
      * intros [[= ->]|Hin]; [done|]. destruct Hk0.
        apply list_elem_of_fmap. by exists (k, v).
      * intros [= ->]. by left.
    + apply bool_decide_eq_false in Hk. rewrite <- IH by done.
      split; [|by right]. intros [[= -> ->]|Hin]; [done|done].
Qed.

Lemma dict_set_set {V} (d : Dict.t V) (k : string) (v1 v2 : V) :
  Dict.set (Dict.set d k v1) k v2 = Dict.set d k v2.
Proof.
  induction d as [|[k0 v0] d IH]; simpl.
  - by rewrite bool_decide_eq_true_2.
  - destruct (bool_decide (k0 = k)) eqn:Hk; simpl; rewrite Hk; [done|].
    by rewrite IH.
Qed.

(** ** What the episode loop accumulates *)

Section LoadFacts.
Context {A Frame Chunk : Type}.
Variable to_float32 : A → A.
Variable forward : Np.ndarray A → result (Np.ndarray A).
Variable cv2_resize : Frame → nat → nat → result Frame.
Variable frame_shape : Frame → list nat.

#[local] Abbreviation DirT := (gmap string (entry A Frame Chunk)).
#[local] Abbreviation load_episode' :=
  (load_episode to_float32 forward cv2_resize frame_shape (Chunk:=Chunk)).
#[local] Abbreviation load_lowdim' := (load_lowdim to_float32 forward (Frame:=Frame)).
#[local] Abbreviation load_rgb' := (load_rgb cv2_resize frame_shape (A:=A)).
#[local] Abbreviation field' := (episode_field to_float32 forward (Frame:=Frame)).

(** [if key not in d: d[key] = list()] followed by [d[key].append(x)]. *)
Lemma dict_append {V} (d : Dict.t (list V)) (key : string) (x : V) :
  let d0 := if Dict.contains d key then d else Dict.set d key [] in
  Dict.set d0 key (default [] (Dict.get d0 key) ++ [x])
  = Dict.set d key (default [] (Dict.get d key) ++ [x]).
Proof.
  unfold Dict.contains. simpl.
  destruct (decide (is_Some (Dict.get d key))) as [Hin|Hin].
  - by rewrite bool_decide_eq_true_2.
  - rewrite bool_decide_eq_false_2 by done.
    rewrite dict_get_set, bool_decide_eq_true_2 by done.
    rewrite dict_set_set. apply eq_None_not_Some in Hin. by rewrite Hin.
Qed.

Lemma load_lowdim_Ok shape_meta (file : H5File A Frame) len d key d' :
  load_lowdim' shape_meta file len d key = Ok d' →
  ∃ this_data declared,
    field' file key = Ok this_data
    ∧ declared_shape shape_meta key = Some declared
    ∧ Np.shape this_data = len :: declared
    ∧ d' = Dict.set d key (default [] (Dict.get d key) ++ [this_data]).
Proof.
  unfold load_lowdim, episode_field, declared_shape. intros H.
  apply bind_Ok in H as (raw & Hraw & H).
  apply bind_Ok in H as (this_data & Hdata & H).
  injection H as <-. rewrite dict_append.
  destruct (decide (key = "action")) as [->|Hne].
  - rewrite bool_decide_eq_true_2 in Hraw, Hdata |- * by done.
    rewrite Hraw. cbn [mbind result_bind].
    apply bind_Ok in Hdata as (acts & Hacts & Hdata).
    apply bind_Ok in Hdata as (declared & Hdecl & Hdata).
    apply bind_Ok in Hdata as ([] & Hassert & [= <-]).
    exists acts, declared. split; [done|].
    destruct (action shape_meta) as [sh|]; [|done].
    injection Hdecl as ->. split; [done|]. split; [|done].
    unfold assert in Hassert. case_bool_decide; [done|done].
  - rewrite bool_decide_eq_false_2 in Hraw, Hdata |- * by done.
    apply bind_Ok in Hdata as (attr & Hattr & Hdata).
    apply bind_Ok in Hdata as ([] & Hassert & [= <-]).
    exists raw, (attr_shape attr). split; [done|].
    unfold Dict.getitem in Hattr.
    destruct (Dict.get (obs shape_meta) key) as [attr'|]; [|done].
    injection Hattr as ->. split; [done|]. split; [|done].
    unfold assert in Hassert. case_bool_decide; [done|done].
Qed.

Lemma load_lowdim_loop shape_meta (file : H5File A Frame) len L d d' :
  foldM (load_lowdim' shape_meta file len) d L = Ok d' →
  (NoDup d.*1 → NoDup d'.*1)
  ∧ (∀ key, key ∈ d'.*1 ↔ key ∈ d.*1 ∨ key ∈ L)
  ∧ (∀ key, key ∉ L → Dict.get d' key = Dict.get d key)
  ∧ (NoDup L → ∀ key, key ∈ L →
       ∃ this_data declared,
         field' file key = Ok this_data
         ∧ declared_shape shape_meta key = Some declared
         ∧ Np.shape this_data = len :: declared
         ∧ Dict.get d' key = Some (default [] (Dict.get d key) ++ [this_data])).
Proof.
  revert d. induction L as [|k L IH]; intros d H.
  - injection H as <-. split; [done|]. split.
    + intros key. split; [by left|]. intros [?|?%elem_of_nil]; done.
    + split; [done|]. intros _ key ?%elem_of_nil. done.
  - apply foldM_cons_Ok in H as (d1 & Hk & H).
    apply load_lowdim_Ok in Hk as (x & declared & Hx & Hdecl & Hsh & ->).
    apply IH in H as (Hnd & Hkeys & Hout & Hin). clear IH.
    split; [|split; [|split]].
    + intros Hd. by apply Hnd, dict_set_NoDup.
    + intros key. rewrite Hkeys, dict_keys_set, elem_of_cons.
      destruct (decide (k ∈ d.*1)) as [Hkd|Hkd].
      * rewrite bool_decide_eq_true_2 by done. split; [tauto|].
        intros [?|[->|?]]; tauto.
      * rewrite bool_decide_eq_false_2 by done.
        rewrite elem_of_app, list_elem_of_singleton. tauto.
    + intros key Hkey. apply not_elem_of_cons in Hkey as [Hne Hkey].
      rewrite (Hout key Hkey), dict_get_set.
      by rewrite bool_decide_eq_false_2 by congruence.
    + intros HL key Hkey. apply NoDup_cons in HL as [HkL HL].
      apply elem_of_cons in Hkey as [->|Hkey].
      * exists x, declared. rewrite (Hout k HkL), dict_get_set.
        by rewrite bool_decide_eq_true_2.
      * destruct (Hin HL key Hkey) as (y & decl' & Hy & Hd' & Hs' & Hget).
        exists y, decl'. rewrite Hget, dict_get_set.
        rewrite bool_decide_eq_false_2; [done|]. by intros ->.
Qed.

Lemma mapM_result_length {X Y} (f : X → result Y) (l : list X) (ys : list Y) :
  mapM_result f l = Ok ys → length ys = length l.
Proof.
  revert ys. induction l as [|x l IH]; intros ys H.
  - by injection H as <-.
  - simpl in H. apply bind_Ok in H as (y & _ & H).
    apply bind_Ok in H as (ys' & Hys' & [= <-]). simpl. f_equal. by apply IH.
Qed.

Lemma load_rgb_Ok shape_meta (file : H5File A Frame) d key d' :
  load_rgb' shape_meta file d key = Ok d' →
  ∃ imgs resize_imgs,
    images file !! key = Some imgs
    ∧ length resize_imgs = length imgs
    ∧ d' = Dict.set d key (default [] (Dict.get d key) ++ [resize_imgs]).
Proof.
  unfold load_rgb. intros H.
  apply bind_Ok in H as (imgs & Himgs%getitem_Ok & H).
  apply bind_Ok in H as (attr & _ & H).
  apply bind_Ok in H as ([[c h] w] & _ & H).
  apply bind_Ok in H as (resized & Hres%mapM_result_length & H).
  apply bind_Ok in H as (first & _ & H).
  apply bind_Ok in H as ([] & _ & [= <-]).
  exists imgs, resized. split; [done|]. split; [done|]. apply dict_append.
Qed.

Lemma load_rgb_loop shape_meta (file : H5File A Frame) L d d' :
  foldM (load_rgb' shape_meta file) d L = Ok d' →
  (NoDup d.*1 → NoDup d'.*1)
  ∧ (∀ key, key ∈ d'.*1 ↔ key ∈ d.*1 ∨ key ∈ L)
  ∧ (∀ key, key ∉ L → Dict.get d' key = Dict.get d key)
  ∧ (NoDup L → ∀ key, key ∈ L →
       ∃ imgs resize_imgs,
         images file !! key = Some imgs
         ∧ length resize_imgs = length imgs
         ∧ Dict.get d' key
           = Some (default [] (Dict.get d key) ++ [resize_imgs])).
Proof.
  revert d. induction L as [|k L IH]; intros d H.
  - injection H as <-. split; [done|]. split.
    + intros key. split; [by left|]. intros [?|?%elem_of_nil]; done.
    + split; [done|]. intros _ key ?%elem_of_nil. done.
  - apply foldM_cons_Ok in H as (d1 & Hk & H).
    apply load_rgb_Ok in Hk as (raw & x & Hraw & Hlen & ->).
    apply IH in H as (Hnd & Hkeys & Hout & Hin). clear IH.
    split; [|split; [|split]].
    + intros Hd. by apply Hnd, dict_set_NoDup.
    + intros key. rewrite Hkeys, dict_keys_set, elem_of_cons.
      destruct (decide (k ∈ d.*1)) as [Hkd|Hkd].
      * rewrite bool_decide_eq_true_2 by done. split; [tauto|].
        intros [?|[->|?]]; tauto.
      * rewrite bool_decide_eq_false_2 by done.
        rewrite elem_of_app, list_elem_of_singleton. tauto.
    + intros key Hkey. apply not_elem_of_cons in Hkey as [Hne Hkey].
      rewrite (Hout key Hkey), dict_get_set.
      by rewrite bool_decide_eq_false_2 by congruence.
    + intros HL key Hkey. apply NoDup_cons in HL as [HkL HL].
      apply elem_of_cons in Hkey as [->|Hkey].
      * exists raw, x. rewrite (Hout k HkL), dict_get_set.
        by rewrite bool_decide_eq_true_2.
      * destruct (Hin HL key Hkey) as (raw' & y & Hy & Hl' & Hget).
        exists raw', y. rewrite Hget, dict_get_set.
        rewrite bool_decide_eq_false_2; [done|]. by intros ->.
Qed.

(** The key sets of the two accumulators after some rounds of the
    episode loop. *)
Lemma load_loop_keys shape_meta (dir : DirT) lowdim_keys rgb_keys n first st st' :
  foldM (load_episode' shape_meta dir lowdim_keys rgb_keys) st (seq first n)
  = Ok st' →
  (NoDup (lowdim_data_dict st).*1 → NoDup (lowdim_data_dict st').*1)
  ∧ (NoDup (rgb_data_dict st).*1 → NoDup (rgb_data_dict st').*1)
  ∧ (∀ key, key ∈ (lowdim_data_dict st').*1
            ↔ key ∈ (lowdim_data_dict st).*1
              ∨ (n ≠ 0 ∧ key ∈ lowdim_keys ++ ["action"]))
  ∧ (∀ key, key ∈ (rgb_data_dict st').*1
            ↔ key ∈ (rgb_data_dict st).*1 ∨ (n ≠ 0 ∧ key ∈ rgb_keys)).
Proof.
  revert first st. induction n as [|n IH]; intros first st H.
  - injection H as <-. split; [done|]. split; [done|].
    split; intros key; split; try (by left); intros [?|[? _]]; done.
  - change (seq first (S n)) with (first :: seq (S first) n) in H.
    apply foldM_cons_Ok in H as (st1 & Hepi & H).
    apply load_episode_Ok in Hepi
      as (file & ca & len & lowdim & rgb & _ & _ & _ & Hlow & Hrgb & ->).
    apply IH in H as (Hnd1 & Hnd2 & Hk1 & Hk2). clear IH. simpl in *.
    apply load_lowdim_loop in Hlow as (Hlnd & Hlkeys & _).
    apply load_rgb_loop in Hrgb as (Hrnd & Hrkeys & _).
    split; [auto|]. split; [auto|]. split; intros key.
    + rewrite Hk1, Hlkeys. split; [|intros [?|[_ ?]]; tauto].
      intros [[?|?]|[_ ?]]; [by left|right; by split..].
    + rewrite Hk2, Hrkeys. split; [|intros [?|[_ ?]]; tauto].
      intros [[?|?]|[_ ?]]; [by left|right; by split..].
Qed.

(** The arrays accumulated for one entry: one per episode, each read
    from the file of its episode and of the asserted shape. *)
Lemma load_loop_field shape_meta (dir : DirT) lowdim_keys rgb_keys n first st st'
    key declared :
  foldM (load_episode' shape_meta dir lowdim_keys rgb_keys) st (seq first n)
  = Ok st' →
  NoDup (lowdim_keys ++ ["action"]) → key ∈ lowdim_keys ++ ["action"] →
  declared_shape shape_meta key = Some declared →
  ∃ arrs,
    Forall2 (loaded_field to_float32 forward dir key declared) (seq first n) arrs
    ∧ default [] (Dict.get (lowdim_data_dict st') key)
      = default [] (Dict.get (lowdim_data_dict st) key) ++ arrs.
Proof.
  intros H HL Hkey Hdecl. revert first st H.
  induction n as [|n IH]; intros first st H.
  - injection H as <-. exists []. split; [constructor|].
    by rewrite app_nil_r.
  - change (seq first (S n)) with (first :: seq (S first) n) in H.
    apply foldM_cons_Ok in H as (st1 & Hepi & H).
    apply load_episode_Ok in Hepi
      as (file & ca & len & lowdim & rgb & Hfile & Hca & Hlen & Hlow & _ & ->).
    apply IH in H as (arrs & Harrs & Hget). clear IH. simpl in Hget.
    apply load_lowdim_loop in Hlow as (_ & _ & _ & Hin).
    destruct (Hin HL key Hkey) as (x & decl' & Hx & Hd' & Hsh & Hgetx).
    rewrite Hdecl in Hd'. injection Hd' as <-.
    exists (x :: arrs). split.
    + constructor; [|done]. exists file, len. split; [done|].
      split; [|done]. unfold raw_step_count. by rewrite Hfile, Hca.
    + rewrite Hget, Hgetx. simpl. by rewrite <- app_assoc.
Qed.

(** The frames accumulated for one camera: one list per episode, as
    long as the episode's recording for that camera. *)
Lemma load_loop_frames shape_meta (dir : DirT) lowdim_keys rgb_keys n first st st'
    key :
  foldM (load_episode' shape_meta dir lowdim_keys rgb_keys) st (seq first n)
  = Ok st' →
  NoDup rgb_keys → key ∈ rgb_keys →
  ∃ data counts,
    Forall2 (fun k c => frame_count dir key k = Some c) (seq first n) counts
    ∧ length (concat data) = sum_list counts
    ∧ default [] (Dict.get (rgb_data_dict st') key)
      = default [] (Dict.get (rgb_data_dict st) key) ++ data.
Proof.
  intros H HL Hkey. revert first st H.
  induction n as [|n IH]; intros first st H.
  - injection H as <-. exists [], []. split; [constructor|].
    split; [done|]. by rewrite app_nil_r.
  - change (seq first (S n)) with (first :: seq (S first) n) in H.
    apply foldM_cons_Ok in H as (st1 & Hepi & H).
    apply load_episode_Ok in Hepi
      as (file & ca & len & lowdim & rgb & Hfile & _ & _ & _ & Hrgb & ->).
    apply IH in H as (data & counts & Hcounts & Hsum & Hget). clear IH.
    simpl in Hget.
    apply load_rgb_loop in Hrgb as (_ & _ & _ & Hin).
    destruct (Hin HL key Hkey) as (raw & x & Hraw & Hlen & Hgetx).
    exists (x :: data), (length raw :: counts). split; [|split].
    + constructor; [|done]. unfold frame_count. by rewrite Hfile, Hraw.
    + simpl. rewrite length_app. by rewrite Hlen, Hsum.
    + rewrite Hget, Hgetx. simpl. by rewrite <- app_assoc.
Qed.

End LoadFacts.

(** ** What the dump loops store *)

Lemma concatenate0_Ok {A} (arrs : list (Np.ndarray A)) (data : Np.ndarray A) :
  Np.concatenate0 arrs = Ok data →
  ∃ a0 tl0,
    head arrs = Some a0 ∧ tail (Np.shape a0) = tl0
    ∧ data = Np.mk (sum_list ((fun a => default 0 (head (Np.shape a))) <$> arrs)
                      :: tl0)
               (concat (Np.data <$> arrs)).
Proof.
  unfold Np.concatenate0. destruct arrs as [|a0 arrs]; [done|].
  destruct (Np.shape a0) as [|n0 tl0] eqn:Hsh; [done|].
  destruct (forallb _ _); [|done]. intros [= <-].
  exists a0, tl0. split; [done|]. split; [by rewrite Hsh|].
  simpl. by rewrite Hsh.
Qed.

(** The first dimensions of the arrays an entry has accumulated add up
    to the total of the step counts. *)
Lemma loaded_fields_steps {A Frame Chunk}
    (to_float32 : A → A) (forward : Np.ndarray A → result (Np.ndarray A))
    (dir : gmap string (entry A Frame Chunk)) key declared
    (ks : list nat) (arrs : list (Np.ndarray A)) (counts : list nat) :
  Forall2 (loaded_field to_float32 forward dir key declared) ks arrs →
  Forall2 (fun k c => raw_step_count dir k = Some c) ks counts →
  sum_list ((fun a => default 0 (head (Np.shape a))) <$> arrs) = sum_list counts
  ∧ Forall (fun a => tail (Np.shape a) = declared) arrs.
Proof.
  intros Harrs. revert counts.
  induction Harrs as [|k a ks arrs (file & len & _ & Hlen & _ & Hsh) _ IH];
    intros counts Hcounts.
  - apply Forall2_nil_inv_l in Hcounts as ->. by split.
  - apply Forall2_cons_inv_l in Hcounts as (c & counts' & Hc & Hcounts & ->).
    destruct (IH _ Hcounts) as [IH1 IH2].
    rewrite Hlen in Hc. injection Hc as <-. split.
    + rewrite fmap_cons. cbn [sum_list sum_list_with]. rewrite Hsh. simpl.
      f_equal. exact IH1.
    + constructor; [by rewrite Hsh|done].
Qed.

Section DumpFacts.
Context {A Frame Chunk : Type}.
Variable jpeg2k_encode : Frame → result Chunk.
Variable jpeg2k_decode : Chunk → result Frame.

#[local] Abbreviation Group := (gmap string (zarr_array A Chunk)).
#[local] Abbreviation img_copy' := (img_copy jpeg2k_encode jpeg2k_decode (A:=A)).
#[local] Abbreviation run_task' := (run_task jpeg2k_encode jpeg2k_decode (A:=A)).
#[local] Abbreviation sequential_rgb' :=
  (sequential_rgb jpeg2k_encode jpeg2k_decode (A:=A)).

Lemma dump_lowdim_loop (items : Dict.t (list (Np.ndarray A))) (g0 g : Group) :
  foldM dump_lowdim g0 items = Ok g →
  (∀ key, key ∉ items.*1 → g !! key = g0 !! key)
  ∧ (∀ key, key ∈ items.*1 → ∃ data, g !! key = Some (Plain data))
  ∧ (NoDup items.*1 → ∀ key arrs, (key, arrs) ∈ items →
       ∃ data, Np.concatenate0 arrs = Ok data ∧ g !! key = Some (Plain data)).
Proof.
  revert g0. induction items as [|[k arrs0] items IH]; intros g0 H.
  - injection H as <-. split; [done|]. split.
    + intros key ?%elem_of_nil. done.
    + intros _ key arrs ?%elem_of_nil. done.
  - apply foldM_cons_Ok in H as (g1 & Hk & H).
    unfold dump_lowdim in Hk. simpl in Hk.
    apply bind_Ok in Hk as (data0 & Hcat & [= <-]).
    apply IH in H as (Hout & Hplain & Hitems). clear IH.
    change (((k, arrs0) :: items).*1) with (k :: items.*1).
    split; [|split].
    + intros key [Hne Hkey]%not_elem_of_cons.
      by rewrite (Hout key Hkey), lookup_insert_ne.
    + intros key [->|Hkey]%elem_of_cons; [|by apply Hplain].
      destruct (decide (k ∈ items.*1)) as [Hin|Hin]; [by apply Hplain|].
      exists data0. by rewrite (Hout k Hin), lookup_insert_eq.
    + intros [Hk Hnd]%NoDup_cons key arrs [[= -> ->]|Hin]%elem_of_cons.
      * exists data0. split; [done|].
        by rewrite (Hout k Hk), lookup_insert_eq.
      * by apply Hitems.
Qed.

(** A task changes at most the chunk at its index of its destination. *)
Lemma img_copy_chunks (g : Group) (t : Task Frame) sh chunks :
  g !! zarr_arr t = Some (Compressed sh chunks) →
  ∃ chunks',
    (img_copy' g t).1 !! zarr_arr t = Some (Compressed sh chunks')
    ∧ length chunks' = length chunks
    ∧ ∀ i, i ≠ zarr_idx t → chunks' !! i = chunks !! i.
Proof.
  intros Hg. rewrite img_copy_spec.
  destruct (encoded jpeg2k_encode t) as [c|]; [|by exists chunks].
  destruct (writable g t); [|by exists chunks]. simpl.
  exists (<[zarr_idx t := Some c]> chunks).
  rewrite lookup_alter_eq, Hg. simpl. split; [done|].
  split; [apply length_insert|].
  intros i Hi. by apply list_lookup_insert_ne.
Qed.

(** The tasks of the first [n] frames of a camera leave the shape and
    the number of chunks of its array alone, and do not touch a chunk
    from index [n] on. *)
Lemma camera_run_chunks (g : Group) (ok : bool) name arr sh chunks0 (n : nat) :
  g !! name = Some (Compressed sh chunks0) →
  ∃ chunks,
    (foldl run_task' (g, ok) (frame_task name arr <$> seq 0 n)).1 !! name
    = Some (Compressed sh chunks)
    ∧ length chunks = length chunks0
    ∧ ∀ idx, n ≤ idx → chunks !! idx = chunks0 !! idx.
Proof.
  intros Hg. induction n as [|n (chunks & Hs & Hlen & Hrest)].
  - by exists chunks0.
  - rewrite seq_S, fmap_app, foldl_app. simpl.
    set (s := foldl run_task' (g, ok) (frame_task name arr <$> seq 0 n)) in *.
    destruct (img_copy_chunks s.1 (frame_task name arr n) sh chunks Hs)
      as (chunks' & Hs' & Hlen' & Hrest').
    exists chunks'. split; [exact Hs'|]. split; [congruence|].
    intros idx Hidx. simpl in Hrest'.
    rewrite Hrest' by lia. apply Hrest. lia.
Qed.

Lemma run_tasks_lookup_ne (s : Group * bool) (ts : list (Task Frame)) name :
  (∀ t, t ∈ ts → zarr_arr t ≠ name) →
  (foldl run_task' s ts).1 !! name = s.1 !! name.
Proof.
  revert s. induction ts as [|t ts IH]; intros s Hts; [done|].
  simpl. rewrite IH by (intros t' Ht'; apply Hts; by right).
  simpl. apply img_copy_lookup_ne, Hts. by left.
Qed.

Lemma sequential_rgb_layout shape_meta n_steps (s s' : Group * bool) item :
  sequential_rgb' shape_meta n_steps s item = Ok s' →
  s.1 !! item.1 = None
  ∧ (∀ other, other ≠ item.1 → s'.1 !! other = s.1 !! other)
  ∧ camera_layout shape_meta n_steps s'.1 item.1 (length (concat item.2)).
Proof.
  unfold sequential_rgb. intros H.
  apply bind_Ok in H as (attr & Hattr & H).
  apply bind_Ok in H as ([[c h] w] & Hchw & H).
  apply bind_Ok in H as (g & Hg & [= <-]).
  unfold require_dataset in Hg.
  destruct (s.1 !! item.1) eqn:Hfree; [done|]. injection Hg as <-.
  split; [done|]. split.
  - intros other Hother. rewrite run_tasks_lookup_ne.
    + simpl. by rewrite lookup_insert_ne.
    + intros t (idx & -> & _)%list_elem_of_fmap. simpl. congruence.
  - unfold camera_tasks.
    edestruct (camera_run_chunks
                 (<[item.1 := Compressed [n_steps; h; w; c]
                                (replicate n_steps None)]> s.1)
                 s.2 item.1 (concat item.2)) as (chunks & Hs & Hlen & Hrest).
    { apply lookup_insert_eq. }
    exists attr, c, h, w, chunks.
    unfold Dict.getitem in Hattr.
    destruct (Dict.get (obs shape_meta) item.1) as [attr'|]; [|done].
    injection Hattr as ->. split; [done|].
    unfold unpack_chw in Hchw.
    destruct (attr_shape attr) as [|c' [|h' [|w' [|]]]]; try done.
    injection Hchw as -> -> ->. split; [done|].
    split; [exact Hs|]. rewrite length_replicate in Hlen. split; [done|].
    intros idx Hge Hlt. rewrite (Hrest idx Hge).
    by apply lookup_replicate_2.
Qed.

Lemma sequential_loop_layout shape_meta n_steps items (s s' : Group * bool) :
  foldM (sequential_rgb' shape_meta n_steps) s items = Ok s' →
  (∀ name, name ∉ items.*1 → s'.1 !! name = s.1 !! name)
  ∧ (∀ name, name ∈ items.*1 → s.1 !! name = None)
  ∧ (∀ name data, (name, data) ∈ items →
       camera_layout shape_meta n_steps s'.1 name (length (concat data))).
Proof.
  revert s. induction items as [|item items IH]; intros s H.
  - injection H as <-. split; [done|].
    split; [intros name ?%elem_of_nil|intros name data ?%elem_of_nil]; done.
  - apply foldM_cons_Ok in H as (s1 & H1 & H).
    apply sequential_rgb_layout in H1 as (Hfree & Hother & Hlay).
    apply IH in H as (Hout & Hnew & Hitems). clear IH.
    change ((item :: items).*1) with (item.1 :: items.*1).
    assert (item.1 ∉ items.*1) as Hfresh.
    { intros Hin. apply Hnew in Hin. destruct Hlay as (? & ? & ? & ? & ? & _ & _ & Hs1 & _).
      congruence. }
    split; [|split].
    + intros name [Hne Hname]%not_elem_of_cons.
      by rewrite (Hout name Hname), Hother.
    + intros name [->|Hname]%elem_of_cons; [done|].
      rewrite <- Hother; [by apply Hnew|]. intros ->. done.
    + intros name data [<-|Hin]%elem_of_cons; [|by apply Hitems].
      simpl in *.
      destruct Hlay as (attr & c & h & w & chunks & ? & ? & Hs1 & ?).
      exists attr, c, h, w, chunks. by rewrite (Hout _ Hfresh).
Qed.

End DumpFacts.

(** ** The layout of the returned store *)

Section StoreLayout.
Context {A Frame Chunk : Type}.
Variable to_float32 : A → A.
Variable forward : Np.ndarray A → result (Np.ndarray A).
Variable cv2_resize : Frame → nat → nat → result Frame.
Variable frame_shape : Frame → list nat.
Variable jpeg2k_encode : Frame → result Chunk.
Variable jpeg2k_decode : Chunk → result Frame.
Variable cpu_count : nat.

#[local] Abbreviation DirT := (gmap string (entry A Frame Chunk)).
#[local] Abbreviation convert' :=
  (_convert_sapein_to_dp_replay to_float32 forward cv2_resize frame_shape
     jpeg2k_encode jpeg2k_decode cpu_count).
#[local] Abbreviation load_episodes' :=
  (load_episodes to_float32 forward cv2_resize frame_shape (Chunk:=Chunk)).

(** A returned store, taken apart: the state after the episode loop,
    the group after the low-dimensional dump, and the facts about the
    key sets that hold of them. *)
Lemma convert_Ok_layout sched shape_meta (dir : DirT)
    n_workers max_inflight_tasks rb :
  convert' sched shape_meta dir n_workers max_inflight_tasks = Ok rb →
  ∃ st n_steps g,
    load_episodes' shape_meta dir = Ok st
    ∧ meta_episode_ends rb = episode_ends st
    ∧ last (episode_ends st) = Some n_steps
    ∧ length (glob_episodes dir) ≠ 0
    ∧ foldM dump_lowdim ∅ (lowdim_data_dict st) = Ok g
    ∧ NoDup (lowdim_data_dict st).*1
    ∧ NoDup (rgb_data_dict st).*1
    ∧ (∀ key, key ∈ (lowdim_data_dict st).*1
              ↔ key ∈ parse_lowdim_keys (obs shape_meta) ++ ["action"])
    ∧ (∀ key, key ∈ (rgb_data_dict st).*1
              ↔ key ∈ parse_rgb_keys (obs shape_meta))
    ∧ (∀ name, name ∉ (rgb_data_dict st).*1 → data_group rb !! name = g !! name)
    ∧ (∀ name, name ∈ (rgb_data_dict st).*1 → g !! name = None)
    ∧ (∀ name data, (name, data) ∈ rgb_data_dict st →
         camera_layout shape_meta n_steps (data_group rb) name
           (length (concat data))
         ∧ ∀ idx img, concat data !! idx = Some img →
             frame_stored jpeg2k_encode jpeg2k_decode (data_group rb)
               name idx img).
Proof.
  intros Hrb.
  destruct (convert_Ok_nonempty _ _ _ _ _ _ _ _ _ _ _ _ _ Hrb) as [m Hm].
  apply convert_Ok_iff in Hrb as (st & n_steps & g & Hload & Hlast & Hdump
                                  & _ & Hseq & Hends).
  exists st, n_steps, g. split; [done|]. split; [done|]. split; [done|].
  split; [by rewrite Hm|]. split; [done|].
  pose proof Hload as Hkeys. unfold load_episodes in Hkeys.
  apply load_loop_keys in Hkeys as (Hnd & Hnd2 & Hk1 & Hk2). simpl in *.
  split; [apply Hnd, NoDup_nil_2|]. split; [apply Hnd2, NoDup_nil_2|].
  split.
  { intros key. rewrite Hk1, Hm. split; [by intros [?%elem_of_nil|[_ ?]]|].
    intros ?. by right. }
  split.
  { intros key. rewrite Hk2, Hm. split; [by intros [?%elem_of_nil|[_ ?]]|].
    intros ?. by right. }
  pose proof (sequential_loop_layout _ _ _ _ _ _ _ Hseq)
    as (Hout & Hnew & Hitems).
  split; [exact Hout|]. split; [exact Hnew|].
  intros name data Hin. split; [by apply Hitems|].
  intros idx img Himg.
  by apply (sequential_loop_stored _ _ _ _ _ _ _ Hseq eq_refl name data).
Qed.

(** How the entries of a returned store are stored. *)
Lemma store_kinds sched shape_meta (dir : DirT)
    n_workers max_inflight_tasks rb :
  convert' sched shape_meta dir n_workers max_inflight_tasks = Ok rb →
  (∀ key, key ∈ parse_lowdim_keys (obs shape_meta) ++ ["action"] →
     ∃ a, data_group rb !! key = Some (Plain a))
  ∧ (∀ key, key ∈ parse_rgb_keys (obs shape_meta) →
       ∃ sh chunks, data_group rb !! key = Some (Compressed sh chunks))
  ∧ (∀ key, key ∉ parse_lowdim_keys (obs shape_meta) ++ ["action"] →
       key ∉ parse_rgb_keys (obs shape_meta) →
       data_group rb !! key = None).
Proof.
  intros Hrb.
  apply convert_Ok_layout in Hrb
    as (st & n_steps & g & Hload & _ & _ & _ & Hdump & _ & _ & Hk1 & Hk2
        & Hout & Hnew & Hitems).
  apply dump_lowdim_loop in Hdump as (Hgout & Hplain & _).
  split; [|split].
  - intros key Hkey. apply Hk1 in Hkey.
    destruct (Hplain key Hkey) as [a Ha]. exists a.
    rewrite Hout; [done|]. intros Hin. apply Hnew in Hin. congruence.
  - intros key Hkey. apply Hk2 in Hkey.
    apply list_elem_of_fmap in Hkey as ([name data] & -> & Hin).
    destruct (Hitems _ _ Hin) as [(? & ? & ? & ? & chunks & _ & _ & Hs & _) _].
    by eexists _, _.
  - intros key Hlow Hrgb. rewrite <- Hk1 in Hlow. rewrite <- Hk2 in Hrgb.
    by rewrite (Hout key Hrgb), (Hgout key Hlow), lookup_empty.
Qed.

(** X6.  The arrays of a returned store are exactly: ['action'], one
    array per observation declared [low_dim] (or without type), one per
    observation declared [rgb].  The former are stored plain, the
    cameras as compressed chunked arrays; an observation declared with
    any other type is left out without notice. *)
Theorem store_keys sched shape_meta (dir : DirT)
    n_workers max_inflight_tasks rb :
  convert' sched shape_meta dir n_workers max_inflight_tasks = Ok rb →
  (∀ key, is_Some (data_group rb !! key)
          ↔ key = "action"
            ∨ key ∈ parse_lowdim_keys (obs shape_meta)
            ∨ key ∈ parse_rgb_keys (obs shape_meta))
  ∧ (∀ key, key = "action" ∨ key ∈ parse_lowdim_keys (obs shape_meta) →
       ∃ a, data_group rb !! key = Some (Plain a))
  ∧ (∀ key, key ∈ parse_rgb_keys (obs shape_meta) →
       ∃ sh chunks, data_group rb !! key = Some (Compressed sh chunks))
  ∧ (∀ key attr,
       NoDup (obs shape_meta).*1 → (key, attr) ∈ obs shape_meta →
       type_of attr ≠ "rgb" → type_of attr ≠ "low_dim" → key ≠ "action" →
       data_group rb !! key = None).
Proof.
  intros Hrb. apply store_kinds in Hrb as (Hlow & Hrgb & Hnone).
  assert (∀ key, key ∈ parse_lowdim_keys (obs shape_meta) ++ ["action"]
                 ↔ key = "action" ∨ key ∈ parse_lowdim_keys (obs shape_meta))
    as HL.
  { intros key. rewrite elem_of_app, list_elem_of_singleton. tauto. }
  assert (∀ key, is_Some (data_group rb !! key)
                 ↔ key = "action"
                   ∨ key ∈ parse_lowdim_keys (obs shape_meta)
                   ∨ key ∈ parse_rgb_keys (obs shape_meta)) as Hkeys.
  { intros key. split.
    - intros Hsome.
      destruct (decide (key ∈ parse_rgb_keys (obs shape_meta))) as [?|Hno];
        [tauto|].
      destruct (decide (key ∈ parse_lowdim_keys (obs shape_meta) ++ ["action"]))
        as [Hin|Hin]; [apply HL in Hin; tauto|].
      rewrite (Hnone key Hin Hno) in Hsome. by destruct Hsome.
    - intros [?|[?|?]].
      + destruct (Hlow key) as [a ->]; [apply HL; tauto|by eexists].
      + destruct (Hlow key) as [a ->]; [apply HL; tauto|by eexists].
      + destruct (Hrgb key) as (? & ? & ->); [done|by eexists]. }
  split; [exact Hkeys|]. split; [intros key ?; by apply Hlow, HL|].
  split; [exact Hrgb|].
  intros key attr Hnd Hin Hnot_rgb Hnot_low Hne.
  apply eq_None_not_Some. rewrite Hkeys.
  assert (∀ attr', (key, attr') ∈ obs shape_meta → attr' = attr) as Huniq.
  { intros attr' Hin'.
    apply (dict_elem_of_get _ _ _ Hnd) in Hin, Hin'. congruence. }
  intros [?|[Hkey|Hkey]]; [done| |].
  - apply list_elem_of_fmap in Hkey as ([k a] & -> & Hf).
    apply list_elem_of_filter in Hf as [Ht Hf]. simpl in *.
    by rewrite (Huniq a Hf) in Ht.
  - apply list_elem_of_fmap in Hkey as ([k a] & -> & Hf).
    apply list_elem_of_filter in Hf as [Ht Hf]. simpl in *.
    by rewrite (Huniq a Hf) in Ht.
Qed.

(** X7.  The low-dimensional arrays of a returned store, ['action']
    included: the array of an entry is the concatenation along axis 0,
    in episode order, of what each episode file holds for it (for
    ['action'], the canonicalized [cartesian_action]); its shape is the
    total step count, which is the last episode end, followed by the
    declared shape.  The keys are taken to be distinct and none of the
    observations to be called ['action']. *)
Theorem lowdim_store_concatenates sched shape_meta (dir : DirT)
    n_workers max_inflight_tasks rb key :
  convert' sched shape_meta dir n_workers max_inflight_tasks = Ok rb →
  NoDup (parse_lowdim_keys (obs shape_meta) ++ ["action"]) →
  key ∈ parse_lowdim_keys (obs shape_meta) ++ ["action"] →
  ∃ declared arrs n_steps,
    declared_shape shape_meta key = Some declared
    ∧ Forall2 (loaded_field to_float32 forward dir key declared)
        (seq 0 (length (glob_episodes dir))) arrs
    ∧ last (meta_episode_ends rb) = Some n_steps
    ∧ data_group rb !! key
      = Some (Plain (Np.mk (n_steps :: declared) (concat (Np.data <$> arrs)))).
Proof.
  intros Hrb HL Hkey.
  apply convert_Ok_layout in Hrb
    as (st & n_steps & g & Hload & Hmeta & Hlast & Hn & Hdump & Hnd & _ & Hk1
        & _ & Hout & Hnew & _).
  unfold load_episodes in Hload.
  assert (∃ declared, declared_shape shape_meta key = Some declared)
    as [declared Hdecl].
  { destruct (length (glob_episodes dir)) as [|m]; [done|].
    change (seq 0 (S m)) with (0 :: seq 1 m) in Hload.
    apply foldM_cons_Ok in Hload as (st1 & Hepi & _).
    apply load_episode_Ok in Hepi
      as (file & ca & len & lowdim & rgb & _ & _ & _ & Hlow & _).
    apply load_lowdim_loop in Hlow as (_ & _ & _ & Hin).
    destruct (Hin HL key Hkey) as (x & decl & _ & Hd & _). by exists decl. }
  pose proof Hload as Hfield.
  eapply load_loop_field in Hfield; [|exact HL|exact Hkey|exact Hdecl].
  destruct Hfield as (arrs & Harrs & Hget).
  pose proof Hload as Hcounts.
  apply load_loop_ends in Hcounts as (counts & Hcounts & Hends & _).
  simpl in Hget, Hends.
  assert (Dict.get (lowdim_data_dict st) key = Some arrs) as Hsome.
  { destruct (proj2 (dict_get_is_Some (lowdim_data_dict st) key)) as [arrs' Ha].
    - by apply Hk1.
    - rewrite Ha in Hget. simpl in Hget. by rewrite Ha, Hget. }
  apply (dict_elem_of_get _ _ _ Hnd) in Hsome.
  apply dump_lowdim_loop in Hdump as (_ & _ & Hitems).
  destruct (Hitems Hnd key arrs Hsome) as (data & Hcat & Hg).
  pose proof (loaded_fields_steps _ _ _ _ _ _ _ _ Harrs Hcounts) as [Hsum Htl].
  apply concatenate0_Ok in Hcat as (a0 & tl0 & Hhead & Htl0 & ->).
  assert (tl0 = declared) as ->.
  { destruct arrs as [|a arrs]; [done|]. injection Hhead as ->.
    apply Forall_cons in Htl as [Ha0 _]. congruence. }
  assert (n_steps = sum_list counts) as ->.
  { rewrite Hends, running_totals_last in Hlast; [by injection Hlast as <-|].
    intros ->. apply Forall2_length in Hcounts.
    rewrite length_seq in Hcounts. done. }
  exists declared, arrs, (sum_list counts). split; [done|]. split; [done|].
  split.
  { rewrite Hmeta, Hends. apply running_totals_last.
    intros ->. apply Forall2_length in Hcounts.
    rewrite length_seq in Hcounts. done. }
  rewrite Hout, Hg, Hsum; [done|].
  intros Hin. apply Hnew in Hin. congruence.
Qed.

(** X8.  The camera arrays of a returned store: the array of a camera
    has the shape (total steps, height, width, channels) of the declared
    (channels, height, width), and one chunk per step.  The number of
    frames of a camera is not compared with the number of steps: a
    store is only returned when the episodes record at most as many
    frames as steps, and then the chunks from the number of frames on
    are never written. *)
Theorem rgb_store_layout sched shape_meta (dir : DirT)
    n_workers max_inflight_tasks rb name :
  convert' sched shape_meta dir n_workers max_inflight_tasks = Ok rb →
  NoDup (parse_rgb_keys (obs shape_meta)) →
  name ∈ parse_rgb_keys (obs shape_meta) →
  ∃ counts n_steps,
    Forall2 (fun k c => frame_count dir name k = Some c)
      (seq 0 (length (glob_episodes dir))) counts
    ∧ last (meta_episode_ends rb) = Some n_steps
    ∧ sum_list counts ≤ n_steps
    ∧ camera_layout shape_meta n_steps (data_group rb) name (sum_list counts).
Proof.
  intros Hrb HL Hname.
  apply convert_Ok_layout in Hrb
    as (st & n_steps & g & Hload & Hmeta & Hlast & Hn & _ & _ & Hnd & _
        & Hk2 & _ & _ & Hitems).
  unfold load_episodes in Hload.
  pose proof Hload as Hframes.
  eapply load_loop_frames in Hframes; [|exact HL|exact Hname].
  destruct Hframes as (data & counts & Hcounts & Hsum & Hget).
  simpl in Hget.
  assert (Dict.get (rgb_data_dict st) name = Some data) as Hsome.
  { destruct (proj2 (dict_get_is_Some (rgb_data_dict st) name)) as [d' Hd].
    - by apply Hk2.
    - rewrite Hd in Hget. simpl in Hget. by rewrite Hd, Hget. }
  apply (dict_elem_of_get _ _ _ Hnd) in Hsome.
  destruct (Hitems _ _ Hsome) as [Hlay Hstored].
  rewrite Hsum in Hlay.
  exists counts, n_steps. split; [done|]. split; [by rewrite Hmeta|].
  split; [|done].
  destruct (sum_list counts) as [|last_idx] eqn:Hfr; [lia|].
  destruct (lookup_lt_is_Some_2 (concat data) last_idx) as [img Himg];
    [lia|].
  destruct (Hstored _ _ Himg) as (sh & chunks & c & Hg & Hc & _).
  destruct Hlay as (? & ? & ? & ? & chunks' & _ & _ & Hg' & Hlen & _).
  rewrite Hg in Hg'. injection Hg' as _ <-.
  apply lookup_lt_Some in Hc. lia.
Qed.

End StoreLayout.

(** X6 on the two-episode directory: the store holds ['action'],
    [eef_pos] and [cam]. *)
Lemma store_keys_witness :
  ∃ rb,
    Examples.convert Examples.encode [] Examples.dir2 None = Ok rb
    ∧ ∀ key, is_Some (data_group rb !! key)
             ↔ key = "action"
               ∨ key ∈ parse_lowdim_keys (obs Examples.shape_meta)
               ∨ key ∈ parse_rgb_keys (obs Examples.shape_meta).
Proof.
  assert (∃ rb, Examples.convert Examples.encode [] Examples.dir2 None = Ok rb)
    as [rb Hrb] by (eexists; vm_compute; reflexivity).
  exists rb. split; [exact Hrb|].
  apply (store_keys Examples.cast Examples.forward6 Examples.resize
           Examples.frame_dims Examples.encode Examples.decode 4
           [] Examples.shape_meta Examples.dir2 None None rb Hrb).
Defined.

(** X7 on the two-episode directory, for the entry [eef_pos]. *)
Lemma lowdim_store_concatenates_witness :
  ∃ rb arrs,
    Examples.convert Examples.encode [] Examples.dir2 None = Ok rb
    ∧ Forall2 (loaded_field Examples.cast Examples.forward6 Examples.dir2
                 "eef_pos" [3]) [0; 1] arrs
    ∧ data_group rb !! "eef_pos"
      = Some (Plain (Np.mk [5; 3] (concat (Np.data <$> arrs)))).
Proof.
  assert (∃ rb, Examples.convert Examples.encode [] Examples.dir2 None = Ok rb)
    as [rb Hrb] by (eexists; vm_compute; reflexivity).
  destruct (lowdim_store_concatenates Examples.cast Examples.forward6
              Examples.resize Examples.frame_dims Examples.encode
              Examples.decode 4 [] Examples.shape_meta Examples.dir2 None None
              rb "eef_pos" Hrb)
    as (declared & arrs & n_steps & Hdecl & Harrs & Hlast & Hget).
  { apply (bool_decide_unpack _). vm_compute. exact I. }
  { apply (bool_decide_unpack _). vm_compute. exact I. }
  exists rb, arrs. split; [exact Hrb|].
  assert (declared = [3]) as -> by (vm_compute in Hdecl; congruence).
  assert (n_steps = 5) as ->.
  { unfold Examples.convert in Hrb. vm_compute in Hrb.
    injection Hrb as <-. vm_compute in Hlast. congruence. }
  split; [exact Harrs|exact Hget].
Defined.

(** X8 on the two-episode directory, for the camera [cam]. *)
Lemma rgb_store_layout_witness :
  ∃ rb counts n_steps,
    Examples.convert Examples.encode [] Examples.dir2 None = Ok rb
    ∧ Forall2 (fun k c => frame_count Examples.dir2 "cam" k = Some c)
        [0; 1] counts
    ∧ sum_list counts ≤ n_steps
    ∧ camera_layout Examples.shape_meta n_steps (data_group rb) "cam"
        (sum_list counts).
Proof.
  assert (∃ rb, Examples.convert Examples.encode [] Examples.dir2 None = Ok rb)
    as [rb Hrb] by (eexists; vm_compute; reflexivity).
  destruct (rgb_store_layout Examples.cast Examples.forward6
              Examples.resize Examples.frame_dims Examples.encode
              Examples.decode 4 [] Examples.shape_meta Examples.dir2 None None
              rb "cam" Hrb)
    as (counts & n_steps & Hcounts & _ & Hle & Hlay).
  { apply (bool_decide_unpack _). vm_compute. exact I. }
  { apply (bool_decide_unpack _). vm_compute. exact I. }
  exists rb, counts, n_steps. split; [exact Hrb|].
  split; [exact Hcounts|]. split; [exact Hle|exact Hlay].
Defined.

(** ** The normalizer, entry by entry *)

Section NormalizerKeys.
Context {Chunk : Type}.
Variable np_std : Np.ndarray Q → list Q.
Variable get_range_normalizer_from_stat : Stat → SingleFieldLinearNormalizer.
Variable get_identity_normalizer_from_stat : Stat → SingleFieldLinearNormalizer.
Variable get_image_range_normalizer : SingleFieldLinearNormalizer.

#[local] Abbreviation get_normalizer' :=
  (get_normalizer np_std get_range_normalizer_from_stat
     get_identity_normalizer_from_stat get_image_range_normalizer (Chunk:=Chunk)).

Lemma image_loop_lookup_in (keys : list string)
    (nz : gmap string SingleFieldLinearNormalizer) key :
  key ∈ keys →
  foldl (fun nz k => <[k := get_image_range_normalizer]> nz) nz keys !! key
  = Some get_image_range_normalizer.
Proof.
  revert nz. induction keys as [|k keys IH]; intros nz Hin.
  - by apply elem_of_nil in Hin.
  - simpl. destruct (decide (key ∈ keys)) as [Hk|Hk]; [by apply IH|].
    apply elem_of_cons in Hin as [->|Hin]; [|done].
    by rewrite image_loop_lookup, lookup_insert_eq.
Qed.

(** X9.  The entries of a returned normalizer are exactly ['action'],
    the low-dimensional keys and the camera keys of the dataset, and
    every camera key is given the image range normalizer (also one that
    is a low-dimensional key as well: the image loop runs last). *)
Theorem normalizer_keys (self : SapienDataset Q Chunk)
    (nz : gmap string SingleFieldLinearNormalizer) :
  get_normalizer' self = Ok nz →
  (∀ key, key ∈ rgb_keys self → nz !! key = Some get_image_range_normalizer)
  ∧ (∀ key, is_Some (nz !! key)
            ↔ key = "action" ∨ key ∈ lowdim_keys self ∨ key ∈ rgb_keys self).
Proof.
  intros Hnz.
  apply get_normalizer_Ok_inv in Hnz
    as (stat & n & nz1 & _ & _ & _ & Hloop & ->).
  apply normalize_loop_lookup in Hloop as [Hin Hout].
  split; [intros key Hkey; by apply image_loop_lookup_in|].
  intros key.
  destruct (decide (key ∈ rgb_keys self)) as [Hrgb|Hrgb].
  { rewrite image_loop_lookup_in by done. split; [tauto|by eexists]. }
  rewrite image_loop_lookup by done.
  destruct (decide (key ∈ lowdim_keys self)) as [Hlow|Hlow].
  { destruct (Hin key Hlow) as (n' & _ & ->). split; [tauto|by eexists]. }
  rewrite (Hout key Hlow).
  destruct (decide (key = "action")) as [->|Hne].
  - rewrite lookup_insert_eq. split; [tauto|by eexists].
  - rewrite lookup_insert_ne, lookup_empty by done.
    split; [by intros [? ?]|tauto].
Qed.

End NormalizerKeys.

(** X9 on a dataset with one low-dimensional key and one camera. *)
Lemma normalizer_keys_witness :
  ∃ nz,
    get_normalizer NormalizerExamples.std NormalizerExamples.range_normalizer
      NormalizerExamples.identity_normalizer NormalizerExamples.image_normalizer
      MoreExamples.dataset_cam = Ok nz
    ∧ nz !! "cam" = Some NormalizerExamples.image_normalizer.
Proof.
  assert (∃ nz,
            get_normalizer NormalizerExamples.std
              NormalizerExamples.range_normalizer
              NormalizerExamples.identity_normalizer
              NormalizerExamples.image_normalizer
              MoreExamples.dataset_cam = Ok nz)
    as [nz Hnz] by (eexists; vm_compute; reflexivity).
  exists nz. split; [exact Hnz|].
  destruct (normalizer_keys _ _ _ _ _ _ Hnz) as [Hcam _].
  apply Hcam. by left.
Defined.

(** ** What one encode task can change *)

Section TaskFrame.
Context {A Frame Chunk : Type}.
Variable jpeg2k_encode : Frame → result Chunk.
Variable jpeg2k_decode : Chunk → result Frame.

#[local] Abbreviation Group := (gmap string (zarr_array A Chunk)).
#[local] Abbreviation img_copy' := (img_copy jpeg2k_encode jpeg2k_decode (A:=A)).

(** X10.  [img_copy] changes at most the chunk at [zarr_idx] of the
    array [zarr_arr]: every other array of the group and every other
    chunk of the destination stay as they are, the destination keeps
    its shape and its number of chunks, no array appears or disappears;
    and where the destination is missing or is not a chunked image
    array, or the frame is missing or does not encode, nothing changes
    at all and the task reports [False]. *)
Theorem img_copy_touches_one_chunk (g : Group) (t : Task Frame) :
  (∀ name, name ≠ zarr_arr t → (img_copy' g t).1 !! name = g !! name)
  ∧ (∀ name, (img_copy' g t).1 !! name = None ↔ g !! name = None)
  ∧ (∀ sh chunks,
       g !! zarr_arr t = Some (Compressed sh chunks) →
       ∃ chunks',
         (img_copy' g t).1 !! zarr_arr t = Some (Compressed sh chunks')
         ∧ length chunks' = length chunks
         ∧ ∀ i, i ≠ zarr_idx t → chunks' !! i = chunks !! i)
  ∧ ((∀ sh chunks, g !! zarr_arr t ≠ Some (Compressed sh chunks))
     ∨ encoded jpeg2k_encode t = None →
     img_copy' g t = (g, false)).
Proof.
  split; [|split; [|split]].
  - intros name Hne. by apply img_copy_lookup_ne.
  - intros name. apply img_copy_lookup_None.
  - intros sh chunks. apply img_copy_chunks.
  - rewrite img_copy_spec. intros [Hdest|Henc].
    + destruct (encoded jpeg2k_encode t); [|done].
      unfold writable.
      destruct (g !! zarr_arr t) as [[a|sh chunks]|] eqn:Hg; try done.
      by destruct (Hdest sh chunks).
    + by rewrite Henc.
Qed.

End TaskFrame.

(** ** Row-major indexing *)

Lemma lookup_chunks {A} (d n k : nat) (l : list A) :
  k < n → Np.chunks d n l !! k = Some (take d (drop (k * d) l)).
Proof.
  revert k l. induction n as [|n IH]; intros k l Hk; [lia|].
  destruct k as [|k]; simpl; [done|].
  rewrite IH by lia. by rewrite drop_drop, Nat.add_comm.
Qed.

Lemma lookup_concat_uniform {A} (d : nat) (rs : list (list A)) (k i : nat) :
  Forall (fun r => length r = d) rs → i < d →
  concat rs !! (k * d + i) = rs !! k ≫= (.!! i).
Proof.
  intros Hrs Hi. revert k. induction Hrs as [|r rs Hr _ IH]; intros k.
  - by rewrite !lookup_nil.
  - destruct k as [|k]; simpl.
    + by rewrite lookup_app_l by lia.
    + rewrite lookup_app_r by lia.
      replace (d + k * d + i - length r) with (k * d + i) by lia. apply IH.
Qed.

Lemma Forall_chunks_length {A} (d n : nat) (l : list A) :
  n * d ≤ length l → Forall (fun r => length r = d) (Np.chunks d n l).
Proof.
  revert l. induction n as [|n IH]; intros l Hl; simpl; [constructor|].
  constructor.
  - rewrite length_take. lia.
  - apply IH. rewrite length_drop. lia.
Qed.

Lemma lookup_column {A} (c : nat) (rows : list (list A)) (j i : nat) :
  Forall (fun r => length r = c) rows → j < c →
  column rows j !! i = rows !! i ≫= (.!! j).
Proof.
  intros Hrows Hj. revert i. unfold column.
  induction Hrows as [|r rows Hr _ IH]; intros i; [done|].
  simpl. destruct (lookup_lt_is_Some_2 r j) as [x Hx]; [lia|].
  rewrite Hx. destruct i as [|i]; simpl; [done|]. apply IH.
Qed.

Lemma length_column {A} (c : nat) (rows : list (list A)) (j : nat) :
  Forall (fun r => length r = c) rows → j < c →
  length (column rows j) = length rows.
Proof.
  intros Hrows Hj. unfold column.
  induction Hrows as [|r rows Hr _ IH]; [done|].
  simpl. destruct (lookup_lt_is_Some_2 r j) as [x Hx]; [lia|].
  rewrite Hx. simpl. f_equal. exact IH.
Qed.

(** Entry [(j, i)] of the transpose is entry [(i, j)]. *)
Lemma lookup_transpose {A} (c m : nat) (block : list A) (j i : nat) :
  length block = m * c → j < c → i < m →
  concat (transpose c (Np.chunks c m block)) !! (j * m + i)
  = block !! (i * c + j).
Proof.
  intros Hlen Hj Hi.
  assert (Forall (fun r => length r = c) (Np.chunks c m block)) as Hrows
    by (apply Forall_chunks_length; lia).
  rewrite (lookup_concat_uniform m).
  - unfold transpose. rewrite list_lookup_fmap, lookup_seq_lt by done.
    simpl. rewrite (lookup_column c) by done.
    rewrite lookup_chunks by done. simpl.
    rewrite lookup_take_lt by done. by rewrite lookup_drop.
  - unfold transpose. apply Forall_fmap, Forall_forall. intros j' Hj'. simpl.
    apply elem_of_seq in Hj'.
    rewrite (length_column c) by (done || lia). apply length_chunks.
  - done.
Qed.

Lemma length_transpose_concat {A} (c m : nat) (block : list A) :
  length block = m * c →
  length (concat (transpose c (Np.chunks c m block))) = c * m.
Proof.
  intros Hlen.
  assert (Forall (fun r => length r = c) (Np.chunks c m block)) as Hrows
    by (apply Forall_chunks_length; lia).
  rewrite (length_concat_uniform m).
  - unfold transpose. by rewrite length_fmap, length_seq.
  - unfold transpose. apply Forall_fmap, Forall_forall. intros j' Hj'. simpl.
    apply elem_of_seq in Hj'.
    rewrite (length_column c) by (done || lia). apply length_chunks.
Qed.

(** [np.moveaxis(a, -1, 1)] entry by entry: the entry at [(t0, j, i)]
    of the result is the entry at [(t0, i, j)] of the array, [i]
    running over the middle axes. *)
Lemma moveaxis_lookup {A} (a : Np.ndarray A) (t : nat) (mid : list nat) (c : nat) :
  Np.shape a = t :: mid ++ [c] →
  length (Np.data a) = t * (Np.size_of mid * c) →
  ∃ o, moveaxis_last_to_1 a = Ok o
       ∧ Np.shape o = t :: c :: mid
       ∧ ∀ t0 j i, t0 < t → j < c → i < Np.size_of mid →
           Np.data o !! ((t0 * c + j) * Np.size_of mid + i)
           = Np.data a !! ((t0 * Np.size_of mid + i) * c + j).
Proof.
  intros Hsh Hlen. unfold moveaxis_last_to_1.
  rewrite Hsh, split_last_snoc. eexists. split; [done|]. split; [done|].
  intros t0 j i Ht0 Hj Hi. simpl.
  set (m := Np.size_of mid) in *.
  assert (Forall (fun r => length r = m * c) (Np.chunks (m * c) t (Np.data a)))
    as Hblocks by (apply Forall_chunks_length; lia).
  replace ((t0 * c + j) * m + i) with (t0 * (c * m) + (j * m + i)) by lia.
  rewrite (lookup_concat_uniform (c * m)).
  - rewrite list_lookup_fmap, lookup_chunks by done. simpl.
    rewrite lookup_transpose; [| |done|done].
    + rewrite lookup_take_lt by nia. rewrite lookup_drop. f_equal. lia.
    + rewrite length_take, length_drop. nia.
  - apply Forall_fmap. eapply Forall_impl; [exact Hblocks|].
    intros block Hb. simpl. by apply length_transpose_concat.
  - nia.
Qed.

(** ** Items: what [_sample_to_data] does to the sample *)

Section SampleFacts.
Context {A F Tensor B Chunk : Type}.
Variable to_float32 : A → F.
Variable div255 : F → F.
Variable from_numpy : Np.ndarray F → Tensor.
Variable dict_apply :
  (Np.ndarray F → Tensor) → gmap string (Np.ndarray F) → gmap string Tensor.

#[local] Abbreviation Sample := (gmap string (Np.ndarray A)).
#[local] Abbreviation ObsDict := (gmap string (Np.ndarray F)).
#[local] Abbreviation sample_to_data' :=
  (_sample_to_data to_float32 div255 from_numpy dict_apply
     (B:=B) (Chunk:=Chunk)).

Lemma to_obs_Ok (value : Np.ndarray A → result (Np.ndarray F))
    (st st' : Sample * ObsDict) key :
  to_obs value st key = Ok st' →
  ∃ arr v, st.1 !! key = Some arr ∧ value arr = Ok v
           ∧ st' = (delete key st.1, <[key := v]> st.2).
Proof.
  unfold to_obs. intros H.
  apply bind_Ok in H as (arr & Harr%getitem_Ok & H).
  apply bind_Ok in H as (v & Hv & [= <-]). by exists arr, v.
Qed.

Lemma to_obs_missing (value : Np.ndarray A → result (Np.ndarray F))
    (st : Sample * ObsDict) key :
  st.1 !! key = None → to_obs value st key = Raise (KeyError key).
Proof. intros H. unfold to_obs, getitem. by rewrite H. Qed.

(** One loop over keys: the keys are distinct, each is read from the
    sample as it was before the loop and removed from it. *)
Lemma to_obs_loop (value : Np.ndarray A → result (Np.ndarray F))
    (keys : list string) (st st' : Sample * ObsDict) :
  foldM (to_obs value) st keys = Ok st' →
  NoDup keys
  ∧ (∀ key, key ∈ keys →
       ∃ arr v, st.1 !! key = Some arr ∧ value arr = Ok v
                ∧ st'.2 !! key = Some v)
  ∧ (∀ key, key ∉ keys → st'.2 !! key = st.2 !! key)
  ∧ (∀ key, st'.1 !! key
            = if bool_decide (key ∈ keys) then None else st.1 !! key).
Proof.
  revert st. induction keys as [|k keys IH]; intros st H.
  - injection H as <-. split; [constructor|].
    split; [by intros key ?%elem_of_nil|]. split; [done|].
    intros key. rewrite bool_decide_eq_false_2; [done|apply not_elem_of_nil].
  - apply foldM_cons_Ok in H as (st1 & Hk & H).
    apply to_obs_Ok in Hk as (arr & v & Harr & Hv & ->).
    apply IH in H as (Hnd & Hin & Hout & Hrest). clear IH. simpl in *.
    assert (k ∉ keys) as Hk.
    { intros Hk. destruct (Hin k Hk) as (? & ? & Hdel & _).
      by rewrite lookup_delete_eq in Hdel. }
    split; [by constructor|]. split; [|split].
    + intros key [->|Hkey]%elem_of_cons.
      * exists arr, v. by rewrite (Hout k Hk), lookup_insert_eq.
      * destruct (Hin key Hkey) as (arr' & v' & Hdel & Hv' & Hget).
        apply lookup_delete_Some in Hdel as [_ Hdel]. by exists arr', v'.
    + intros key [Hne Hkey]%not_elem_of_cons.
      by rewrite (Hout key Hkey), lookup_insert_ne.
    + intros key. rewrite Hrest.
      destruct (decide (key = k)) as [->|Hne].
      * rewrite (bool_decide_eq_false_2 (k ∈ keys)) by done.
        rewrite bool_decide_eq_true_2 by left. apply lookup_delete_eq.
      * destruct (decide (key ∈ keys)) as [Hkey|Hkey].
        -- rewrite !bool_decide_eq_true_2; [done|by right|done].
        -- rewrite !bool_decide_eq_false_2; [by apply lookup_delete_ne| |done].
           by apply not_elem_of_cons.
Qed.

(** A returned item, taken apart. *)
Lemma sample_to_data_Ok (self : SapienDataset B Chunk) n_obs_steps
    (sample sample' : Sample) (data : Data Tensor) :
  sample_to_data' self n_obs_steps sample = Ok (sample', data) →
  ∃ obs_dict action,
    data = {| data_obs := dict_apply from_numpy obs_dict;
              data_action := from_numpy (Np.astype to_float32 action) |}
    ∧ sample !! "action" = Some action
    ∧ NoDup (rgb_keys self ++ lowdim_keys self)
    ∧ ("action" ∉ rgb_keys self ++ lowdim_keys self)
    ∧ (∀ key, sample' !! key
              = if bool_decide (key ∈ rgb_keys self ++ lowdim_keys self)
                then None else sample !! key)
    ∧ (∀ key, is_Some (obs_dict !! key)
              ↔ key ∈ rgb_keys self ++ lowdim_keys self)
    ∧ (∀ key, key ∈ rgb_keys self →
         ∃ arr v, sample !! key = Some arr
                  ∧ rgb_obs to_float32 div255 n_obs_steps arr = Ok v
                  ∧ obs_dict !! key = Some v)
    ∧ (∀ key, key ∈ lowdim_keys self →
         ∃ arr v, sample !! key = Some arr
                  ∧ lowdim_obs to_float32 n_obs_steps arr = Ok v
                  ∧ obs_dict !! key = Some v).
Proof.
  unfold _sample_to_data. intros H.
  apply bind_Ok in H as ([s1 o1] & Hrgb & H).
  apply bind_Ok in H as ([s2 o2] & Hlow & H).
  apply bind_Ok in H as (action & Hact%getitem_Ok & [= <- <-]).
  apply to_obs_loop in Hrgb as (Hnd1 & Hin1 & Hout1 & Hrest1).
  apply to_obs_loop in Hlow as (Hnd2 & Hin2 & Hout2 & Hrest2).
  simpl in *.
  assert (∀ key, key ∈ lowdim_keys self → key ∉ rgb_keys self) as Hdisj.
  { intros key Hl Hr. destruct (Hin2 key Hl) as (? & ? & Hs1 & _).
    by rewrite Hrest1, bool_decide_eq_true_2 in Hs1. }
  assert (∀ key, s2 !! key
                 = if bool_decide (key ∈ rgb_keys self ++ lowdim_keys self)
                   then None else sample !! key) as Hrest.
  { intros key. rewrite Hrest2, Hrest1.
    destruct (decide (key ∈ lowdim_keys self)) as [Hl|Hl].
    - rewrite !bool_decide_eq_true_2; [done| |done].
      apply elem_of_app. by right.
    - rewrite (bool_decide_eq_false_2 (key ∈ lowdim_keys self)) by done.
      destruct (decide (key ∈ rgb_keys self)) as [Hr|Hr].
      + rewrite !bool_decide_eq_true_2; [done| |done].
        apply elem_of_app. by left.
      + rewrite !bool_decide_eq_false_2; [done| |done].
        rewrite elem_of_app. tauto. }
  exists o2, action. split; [done|].
  assert ("action" ∉ (rgb_keys self ++ lowdim_keys self)) as Hnoact.
  { intros Hin. by rewrite Hrest, bool_decide_eq_true_2 in Hact. }
  split; [by rewrite Hrest, bool_decide_eq_false_2 in Hact|].
  split. { apply NoDup_app. split; [done|]. split; [|done].
           intros key Hr Hl. by apply (Hdisj key). }
  split; [done|]. split; [done|]. split; [|split].
  - intros key. rewrite elem_of_app.
    destruct (decide (key ∈ lowdim_keys self)) as [Hl|Hl].
    + destruct (Hin2 key Hl) as (? & v & _ & _ & ->). split; [tauto|by eexists].
    + rewrite (Hout2 key Hl).
      destruct (decide (key ∈ rgb_keys self)) as [Hr|Hr].
      * destruct (Hin1 key Hr) as (? & v & _ & _ & ->).
        split; [tauto|by eexists].
      * rewrite (Hout1 key Hr), lookup_empty.
        split; [by intros [? ?]|tauto].
  - intros key Hr. destruct (Hin1 key Hr) as (arr & v & Hs & Hv & Ho).
    exists arr, v. split; [done|]. split; [done|].
    rewrite Hout2; [done|]. intros Hl. by apply (Hdisj key).
  - intros key Hl. destruct (Hin2 key Hl) as (arr & v & Hs & Hv & Ho).
    exists arr, v. split; [|done].
    by rewrite Hrest1, bool_decide_eq_false_2 in Hs by by apply Hdisj.
Qed.

(** X11.  [_sample_to_data] uses up the dictionary it is given: when it
    returns, every camera key and every low-dimensional key has been
    deleted from the caller's [sample] and nothing else has changed, so
    a second call on the same dictionary raises [KeyError] for the first
    observation key.  An item is only ever returned when the observation
    keys are distinct and none of them is ['action']. *)
Theorem sample_to_data_consumes_sample (self : SapienDataset B Chunk)
    n_obs_steps (sample sample' : Sample) (data : Data Tensor) :
  sample_to_data' self n_obs_steps sample = Ok (sample', data) →
  NoDup (rgb_keys self ++ lowdim_keys self)
  ∧ ("action" ∉ rgb_keys self ++ lowdim_keys self)
  ∧ (∀ key, sample' !! key
            = if bool_decide (key ∈ rgb_keys self ++ lowdim_keys self)
              then None else sample !! key)
  ∧ (∀ k rest n_obs_steps2,
       rgb_keys self ++ lowdim_keys self = k :: rest →
       sample_to_data' self n_obs_steps2 sample' = Raise (KeyError k)).
Proof.
  intros H.
  apply sample_to_data_Ok in H
    as (obs_dict & action & _ & _ & Hnd & Hact & Hrest & _).
  split; [done|]. split; [done|]. split; [done|].
  intros k rest n2 Hkeys.
  assert (sample' !! k = None) as Hk.
  { rewrite Hrest, bool_decide_eq_true_2; [done|]. rewrite Hkeys. by left. }
  unfold _sample_to_data.
  destruct (rgb_keys self) as [|k1 r1].
  - simpl in Hkeys. rewrite Hkeys. cbn [foldM mbind result_bind].
    by rewrite to_obs_missing.
  - injection Hkeys as -> _. cbn [foldM mbind result_bind].
    by rewrite to_obs_missing.
Qed.

Lemma slice_first_Ok {X} (stop : option nat) (a a1 : Np.ndarray X) :
  slice_first stop a = Ok a1 →
  ∃ t tl, Np.shape a = t :: tl
          ∧ a1 = Np.mk (steps_kept stop t :: tl)
                   (take (steps_kept stop t * Np.size_of tl) (Np.data a)).
Proof.
  unfold slice_first. destruct (Np.shape a) as [|t tl]; [done|].
  intros [= <-]. by exists t, tl.
Qed.

(** X12.  The shapes of an item.  Every observation is cut down to its
    first [n_obs_steps] steps (all of them for [None], the value
    [__init__] sets); a camera array of shape (T, ..., C) comes back
    with the channel axis second, (T', C, ...); a low-dimensional array
    keeps its trailing shape and its leading entries, cast to float32.
    The action is the whole sampled array, never cut.  The observations
    returned are exactly the camera and low-dimensional keys. *)
Theorem sample_to_data_shapes (self : SapienDataset B Chunk)
    n_obs_steps (sample sample' : Sample) (data : Data Tensor) :
  sample_to_data' self n_obs_steps sample = Ok (sample', data) →
  ∃ obs_dict action,
    data_obs data = dict_apply from_numpy obs_dict
    ∧ sample !! "action" = Some action
    ∧ data_action data = from_numpy (Np.astype to_float32 action)
    ∧ (∀ key, is_Some (obs_dict !! key)
              ↔ key ∈ rgb_keys self ∨ key ∈ lowdim_keys self)
    ∧ (∀ key, key ∈ rgb_keys self →
         ∃ arr t mid c o,
           sample !! key = Some arr
           ∧ Np.shape arr = t :: mid ++ [c]
           ∧ obs_dict !! key = Some o
           ∧ Np.shape o = steps_kept n_obs_steps t :: c :: mid)
    ∧ (∀ key, key ∈ lowdim_keys self →
         ∃ arr t tl o,
           sample !! key = Some arr
           ∧ Np.shape arr = t :: tl
           ∧ obs_dict !! key = Some o
           ∧ Np.shape o = steps_kept n_obs_steps t :: tl
           ∧ Np.data o
             = to_float32
                 <$> take (steps_kept n_obs_steps t * Np.size_of tl)
                       (Np.data arr)).
Proof.
  intros H.
  apply sample_to_data_Ok in H
    as (obs_dict & action & -> & Hact & _ & _ & _ & Hkeys & Hrgb & Hlow).
  exists obs_dict, action. split; [done|]. split; [done|]. split; [done|].
  split; [intros key; by rewrite Hkeys, elem_of_app|]. split.
  - intros key Hkey. destruct (Hrgb key Hkey) as (arr & v & Hs & Hv & Ho).
    unfold rgb_obs in Hv.
    apply bind_Ok in Hv as (a1 & Ha1 & Hv).
    apply bind_Ok in Hv as (a2 & Ha2 & [= <-]).
    apply slice_first_Ok in Ha1 as (t & tl & Hsh & ->).
    unfold moveaxis_last_to_1 in Ha2. simpl in Ha2.
    destruct (Np.split_last tl) as [[mid c]|] eqn:Htl; [|done].
    apply split_last_Some in Htl as ->. injection Ha2 as <-.
    eexists arr, t, mid, c, _. split; [done|]. split; [done|].
    split; [exact Ho|done].
  - intros key Hkey. destruct (Hlow key Hkey) as (arr & v & Hs & Hv & Ho).
    unfold lowdim_obs in Hv.
    apply bind_Ok in Hv as (a1 & Ha1 & [= <-]).
    apply slice_first_Ok in Ha1 as (t & tl & Hsh & ->).
    eexists arr, t, tl, _. split; [done|]. split; [done|].
    split; [exact Ho|]. split; [done|done].
Qed.

Lemma index_bound (a b m n : nat) : a < m → b < n → a * n + b < m * n.
Proof. nia. Qed.

Lemma steps_kept_le (n_obs_steps : option nat) (t : nat) :
  steps_kept n_obs_steps t ≤ t.
Proof. unfold steps_kept. destruct n_obs_steps; lia. Qed.

(** X13.  The pixels of an item: for a sampled camera array of shape
    (T, H, W, C), the value at (t, c, h, w) of the returned observation
    is the value at (t, h, w, c) of the sample, converted to float32
    and divided by 255. *)
Theorem sample_to_data_pixels (self : SapienDataset B Chunk)
    n_obs_steps (sample sample' : Sample) (data : Data Tensor)
    key arr (T H W C : nat) :
  sample_to_data' self n_obs_steps sample = Ok (sample', data) →
  key ∈ rgb_keys self → sample !! key = Some arr →
  Np.shape arr = [T; H; W; C] → Np.wf arr →
  ∃ obs_dict o,
    data_obs data = dict_apply from_numpy obs_dict
    ∧ obs_dict !! key = Some o
    ∧ Np.shape o = [steps_kept n_obs_steps T; C; H; W]
    ∧ ∀ t ch h w,
        t < steps_kept n_obs_steps T → ch < C → h < H → w < W →
        Np.data o !! (((t * C + ch) * H + h) * W + w)
        = (fun x => div255 (to_float32 x))
            <$> Np.data arr !! (((t * H + h) * W + w) * C + ch).
Proof.
  intros H0 Hkey Harr Hsh Hwf.
  apply sample_to_data_Ok in H0
    as (obs_dict & action & -> & _ & _ & _ & _ & _ & Hrgb & _).
  destruct (Hrgb key Hkey) as (arr' & v & Hs & Hv & Ho).
  rewrite Harr in Hs. injection Hs as <-.
  exists obs_dict, v. split; [done|]. split; [done|].
  unfold rgb_obs in Hv. apply bind_Ok in Hv as (a1 & Ha1 & Hv).
  apply bind_Ok in Hv as (a2 & Ha2 & [= <-]).
  apply slice_first_Ok in Ha1 as (t' & tl & Hsh' & ->).
  rewrite Hsh in Hsh'. injection Hsh' as <- <-.
  set (n := steps_kept n_obs_steps T) in *.
  assert (n ≤ T) as Hn by apply steps_kept_le.
  unfold Np.wf in Hwf. rewrite Hsh in Hwf.
  change (Np.size_of [T; H; W; C]) with (T * (H * (W * (C * 1)))) in Hwf.
  change (Np.size_of [H; W; C]) with (H * (W * (C * 1))) in Ha2.
  set (a1 := Np.mk (n :: [H; W; C])
               (take (n * (H * (W * (C * 1)))) (Np.data arr))) in *.
  destruct (moveaxis_lookup a1 n [H; W] C) as (o & Ho' & Hosh & Hlook).
  { done. }
  { unfold a1. cbn [Np.data Np.size_of foldr]. rewrite length_take, Hwf.
    rewrite Nat.min_l; [nia|by apply Nat.mul_le_mono_r]. }
  rewrite Ha2 in Ho'. injection Ho' as <-.
  split; [done|]. intros t ch h w Ht Hch Hh Hw. simpl.
  rewrite !list_lookup_fmap.
  change (Np.size_of [H; W]) with (H * (W * 1)) in Hlook.
  replace (((t * C + ch) * H + h) * W + w)
    with ((t * C + ch) * (H * (W * 1)) + (h * W + w)) by nia.
  rewrite Hlook by (done || nia). unfold a1. simpl.
  replace ((t * (H * (W * 1)) + (h * W + w)) * C + ch)
    with (((t * H + h) * W + w) * C + ch) by nia.
  replace (n * (H * (W * (C * 1)))) with (n * H * W * C) by nia.
  rewrite lookup_take_lt by (by repeat apply index_bound).
  by destruct (Np.data arr !! _).
Qed.

End SampleFacts.

(** X11 on the example sample: the camera key is gone after the first
    call, and the second call raises [KeyError('cam')]. *)
Lemma sample_to_data_consumes_sample_witness :
  ∃ sample' data,
    SampleExamples.item None SampleExamples.sample = Ok (sample', data)
    ∧ SampleExamples.item None sample' = Raise (KeyError "cam").
Proof.
  assert (∃ r, SampleExamples.item None SampleExamples.sample = Ok r)
    as [[sample' data] H] by (eexists; vm_compute; reflexivity).
  exists sample', data. split; [exact H|].
  destruct (sample_to_data_consumes_sample _ _ _ _ _ _ _ _ _ H)
    as (_ & _ & _ & Hsecond).
  apply (Hsecond "cam" ["eef_pos"] None). reflexivity.
Defined.

(** X12 on the example sample, with one observation step kept. *)
Lemma sample_to_data_shapes_witness :
  ∃ sample' data obs_dict action,
    SampleExamples.item (Some 1) SampleExamples.sample = Ok (sample', data)
    ∧ data_obs data = SampleExamples.dict_apply SampleExamples.from_numpy obs_dict
    ∧ SampleExamples.sample !! "action" = Some action
    ∧ data_action data
      = SampleExamples.from_numpy (Np.astype SampleExamples.to_float32 action).
Proof.
  assert (∃ r, SampleExamples.item (Some 1) SampleExamples.sample = Ok r)
    as [[sample' data] H] by (eexists; vm_compute; reflexivity).
  destruct (sample_to_data_shapes _ _ _ _ _ _ _ _ _ H)
    as (obs_dict & action & Hobs & Hact & Hdata & _).
  by exists sample', data, obs_dict, action.
Defined.

(** X13 on the example sample: the value of channel 2 at step 1, row 0,
    column 1 is the last pixel value of the sample, 11, over 255. *)
Lemma sample_to_data_pixels_witness :
  ∃ sample' data (obs_dict : gmap string (Np.ndarray Q)) o,
    SampleExamples.item None SampleExamples.sample = Ok (sample', data)
    ∧ data_obs data = SampleExamples.dict_apply SampleExamples.from_numpy obs_dict
    ∧ obs_dict !! "cam" = Some o
    ∧ Np.shape o = [2; 3; 1; 2]
    ∧ Np.data o !! 11
      = (fun x => SampleExamples.div255 (SampleExamples.to_float32 x))
          <$> Np.data SampleExamples.cam !! 11.
Proof.
  assert (∃ r, SampleExamples.item None SampleExamples.sample = Ok r)
    as [[sample' data] H] by (eexists; vm_compute; reflexivity).
  destruct (sample_to_data_pixels _ _ _ _ _ _ _ _ _ "cam" SampleExamples.cam
              2 1 2 3 H)
    as (obs_dict & o & Hobs & Ho & Hsh & Hpix).
  { by left. }
  { vm_compute. reflexivity. }
  { reflexivity. }
  { reflexivity. }
  exists sample', data, obs_dict, o. split; [exact H|].
  split; [exact Hobs|]. split; [exact Ho|]. split; [exact Hsh|].
  apply (Hpix 1 2 0 1); simpl; lia.
Defined.

(** ** The environment wrapper *)

Lemma str_split_nonempty (sep : Ascii.ascii) (s : string) :
  str_split sep s ≠ [].
Proof.
  destruct s as [|c s]; simpl; [done|].
  destruct (bool_decide (c = sep)); [done|].
  by destruct (str_split sep s).
Qed.

Lemma str_join_cons (sep part : string) (parts : list string) :
  parts ≠ [] → str_join sep (part :: parts) = part +:+ sep +:+ str_join sep parts.
Proof. by destruct parts. Qed.

(** Splitting at a character, appending a part and joining with that
    character again appends the separator and the part. *)
Lemma str_join_split (sep : Ascii.ascii) (s t : string) :
  str_join (String sep EmptyString) (str_split sep s ++ [t])
  = s +:+ String sep EmptyString +:+ t.
Proof.
  induction s as [|c s IH].
  - reflexivity.
  - cbn [str_split]. destruct (decide (c = sep)) as [->|Hne].
    + rewrite bool_decide_eq_true_2 by done.
      change ((EmptyString :: str_split sep s) ++ [t])
        with (EmptyString :: (str_split sep s ++ [t])).
      rewrite str_join_cons, IH; [done|].
      by destruct (str_split sep s).
    + rewrite bool_decide_eq_false_2 by done.
      destruct (str_split sep s) as [|part parts] eqn:Hsplit.
      { by destruct (str_split_nonempty sep s). }
      change ((String c part :: parts) ++ [t])
        with (String c part :: (parts ++ [t])).
      change ((part :: parts) ++ [t]) with (part :: (parts ++ [t])) in IH.
      rewrite str_join_cons in IH |- * by (by destruct parts).
      rewrite !(string_app_cons c). by rewrite IH.
Qed.

(** X14.  The camera selection of [SapienEnvWrapper.__init__]:
    splitting a camera name at ['_'], appending ['view'] and joining
    with ['_'] is the name followed by ['_view'], whatever the name (with
    or without underscores, empty or not); so the cameras created are
    exactly those of [YX_TABLE_TOP_CAMERAS] whose name followed by
    ['_view'] is among [render_obs_keys]. *)
Theorem rejoin_name_appends_view :
  (∀ name, rejoin_name name = name +:+ "_view")
  ∧ (∀ cameras render_obs_keys name,
       name ∈ created_cameras cameras render_obs_keys
       ↔ name ∈ cameras ∧ name +:+ "_view" ∈ render_obs_keys).
Proof.
  assert (∀ name, rejoin_name name = name +:+ "_view") as Hname.
  { intros name. unfold rejoin_name.
    change "_" with (String underscore EmptyString).
    by rewrite str_join_split. }
  split; [exact Hname|].
  intros cameras keys name. unfold created_cameras.
  rewrite list_elem_of_filter, Hname. tauto.
Qed.

(** One round of the loop over the observations. *)
Lemma add_obs_space_Ok (st st' : ObsSpaces) key attr :
  add_obs_space st (key, attr) = Ok st' →
  ∃ box,
    observation_space st' = Dict.set (observation_space st) key box
    ∧ box_shape box = attr_shape attr
    ∧ high box = 1%Z
    ∧ if endswith key "color"
      then low box = 0%Z
           ∧ ∃ c h w, attr_shape attr = [c; h; w]
                      ∧ img_h st' = Z.of_nat h ∧ img_w st' = Z.of_nat w
      else low box = (-1)%Z
           ∧ (endswith key "quat" = true ∨ endswith key "pos" = true)
           ∧ img_h st' = img_h st ∧ img_w st' = img_w st.
Proof.
  unfold add_obs_space. simpl. intros H.
  apply bind_Ok in H as ([[lo hi] img] & Hb & [= <-]). simpl.
  eexists. split; [done|]. simpl. split; [done|].
  destruct (endswith key "color").
  - destruct (attr_shape attr) as [|c [|h [|w [|]]]]; simpl in Hb; try done.
    injection Hb as <- <- <-. split; [done|]. split; [done|].
    by exists c, h, w.
  - destruct (endswith key "quat") eqn:Hquat.
    { injection Hb as <- <- <-. split; [done|]. split; [done|].
      split; [by left|done]. }
    destruct (endswith key "qpos") eqn:Hqpos.
    { injection Hb as <- <- <-. split; [done|]. split; [done|].
      split; [right; by apply endswith_qpos_pos|done]. }
    destruct (endswith key "pos") eqn:Hpos; [|done].
    injection Hb as <- <- <-. split; [done|]. split; [done|].
    split; [by right|done].
Qed.

(** A key that ends in none of the suffixes stops the loop. *)
Lemma add_obs_space_unsupported (st : ObsSpaces) key attr :
  endswith key "color" = false → endswith key "quat" = false →
  endswith key "pos" = false →
  add_obs_space st (key, attr)
  = Raise (RuntimeError ("Unsupported type " +:+ key)).
Proof.
  intros Hc Hq Hp. unfold add_obs_space. simpl. rewrite Hc, Hq, Hp.
  destruct (endswith key "qpos") eqn:Hqpos; [|done].
  apply endswith_qpos_pos in Hqpos. congruence.
Qed.

(** The loop over the observations. *)
Lemma add_obs_space_loop (items : Dict.t Attr) (st st' : ObsSpaces) :
  foldM add_obs_space st items = Ok st' →
  NoDup ((observation_space st).*1 ++ items.*1) →
  (observation_space st').*1 = (observation_space st).*1 ++ items.*1
  ∧ (∀ key, key ∉ items.*1 →
       Dict.get (observation_space st') key
       = Dict.get (observation_space st) key)
  ∧ ∀ key attr, (key, attr) ∈ items →
      ∃ box,
        Dict.get (observation_space st') key = Some box
        ∧ box_shape box = attr_shape attr
        ∧ high box = 1%Z
        ∧ if endswith key "color"
          then low box = 0%Z ∧ length (attr_shape attr) = 3
          else low box = (-1)%Z
               ∧ (endswith key "quat" = true ∨ endswith key "pos" = true).
Proof.
  revert st. induction items as [|[k a] items IH]; intros st H Hnd.
  - injection H as <-. split; [by rewrite app_nil_r|]. split; [done|].
    by intros key attr ?%elem_of_nil.
  - apply foldM_cons_Ok in H as (st1 & Hk & H).
    apply add_obs_space_Ok in Hk as (box & Hspace & Hshape & Hhigh & Hcase).
    change (((k, a) :: items).*1) with (k :: items.*1) in *.
    assert ((k ∉ (observation_space st).*1) ∧ (k ∉ items.*1)) as [Hk1 Hk2].
    { apply NoDup_app in Hnd as (_ & Hdisj & [Hk2 _]%NoDup_cons).
      split; [|done]. intros Hin. apply (Hdisj k Hin). by left. }
    assert ((observation_space st1).*1 = (observation_space st).*1 ++ [k])
      as Hkeys1.
    { by rewrite Hspace, dict_keys_set, bool_decide_eq_false_2. }
    apply IH in H as (Hkeys & Hout & Hin); clear IH.
    2:{ rewrite Hkeys1, <- app_assoc. done. }
    split; [by rewrite Hkeys, Hkeys1, <- app_assoc|]. split.
    + intros key [Hne Hkey]%not_elem_of_cons.
      rewrite (Hout key Hkey), Hspace, dict_get_set.
      by rewrite bool_decide_eq_false_2 by congruence.
    + intros key attr [[= -> ->]|Hkey]%elem_of_cons; [|by apply Hin].
      exists box. rewrite (Hout k Hk2), Hspace, dict_get_set.
      rewrite bool_decide_eq_true_2 by done.
      split; [done|]. split; [done|]. split; [done|].
      destruct (endswith k "color").
      * destruct Hcase as (? & c & h & w & -> & _). by split.
      * destruct Hcase as (? & ? & _). by split.
Qed.

(** X15.  The spaces [SapienEnvWrapper.__init__] sets up, when it
    returns: the action space is the box [-1, 1] of the declared action
    shape; the observation space has exactly the declared observation
    keys, in their order, each with a box of its declared shape; the box
    of a key ending in [color] is [0, 1] and its shape has three
    dimensions, the box of every other key is [-1, 1] and the key ends
    in [quat] or in [pos]. *)
Theorem wrapper_init_spaces cameras shape_meta render_obs_keys
    (action_space : Box) (spaces : ObsSpaces) (created : list string) :
  SapienEnvWrapper__init__ cameras shape_meta render_obs_keys
  = Ok (action_space, spaces, created) →
  NoDup (obs shape_meta).*1 →
  action shape_meta = Some (box_shape action_space)
  ∧ low action_space = (-1)%Z ∧ high action_space = 1%Z
  ∧ (observation_space spaces).*1 = (obs shape_meta).*1
  ∧ ∀ key attr, (key, attr) ∈ obs shape_meta →
      ∃ box,
        Dict.get (observation_space spaces) key = Some box
        ∧ box_shape box = attr_shape attr
        ∧ high box = 1%Z
        ∧ if endswith key "color"
          then low box = 0%Z ∧ length (attr_shape attr) = 3
          else low box = (-1)%Z
               ∧ (endswith key "quat" = true ∨ endswith key "pos" = true).
Proof.
  unfold SapienEnvWrapper__init__. intros H Hnd.
  apply bind_Ok in H as (action_shape & Hact & H).
  apply bind_Ok in H as (sp & Hloop & [= <- <- <-]).
  destruct (action shape_meta) as [sh|]; [|done]. injection Hact as ->.
  apply add_obs_space_loop in Hloop as (Hkeys & _ & Hin); [|done].
  by repeat split.
Qed.

(** X16.  Metadata in which an observation key ends in none of [color],
    [quat], [pos] is refused by the wrapper: [__init__] never returns,
    and when the keys before that one are accepted the exception is
    [RuntimeError('Unsupported type <key>')].  (The dataset class reads
    the [type] entry instead and accepts any key.) *)
Theorem wrapper_init_unsupported cameras shape_meta render_obs_keys key attr :
  (key, attr) ∈ obs shape_meta →
  endswith key "color" = false → endswith key "quat" = false →
  endswith key "pos" = false →
  (∀ r, SapienEnvWrapper__init__ cameras shape_meta render_obs_keys ≠ Ok r)
  ∧ (∀ before after,
       obs shape_meta = before ++ (key, attr) :: after →
       is_Some (action shape_meta) →
       is_ok (foldM add_obs_space
                {| observation_space := []; img_h := -1; img_w := -1 |}
                before) = true →
       SapienEnvWrapper__init__ cameras shape_meta render_obs_keys
       = Raise (RuntimeError ("Unsupported type " +:+ key))).
Proof.
  intros Hin Hc Hq Hp. split.
  - intros r H. unfold SapienEnvWrapper__init__ in H.
    apply bind_Ok in H as (action_shape & _ & H).
    apply bind_Ok in H as (sp & Hloop & _).
    destruct (foldM_Ok_each _ _ _ _ Hloop _ Hin) as (s1 & s2 & Hs).
    by rewrite add_obs_space_unsupported in Hs.
  - intros before after Hobs [sh Hact] Hbefore.
    unfold SapienEnvWrapper__init__. rewrite Hact, Hobs.
    cbn [mbind result_bind].
    destruct (foldM add_obs_space _ before) as [s1|] eqn:Hs1; [|done].
    rewrite (foldM_Raise_at _ _ s1 before after (key, attr)
               (RuntimeError ("Unsupported type " +:+ key))); [done|done|].
    by apply add_obs_space_unsupported.
Qed.

Lemma add_obs_space_loop_img (items : Dict.t Attr) (st st' : ObsSpaces) :
  foldM add_obs_space st items = Ok st' →
  (∀ key, key ∈ items.*1 → endswith key "color" = false) →
  img_h st' = img_h st ∧ img_w st' = img_w st.
Proof.
  revert st. induction items as [|[k a] items IH]; intros st H Hno.
  - by injection H as <-.
  - apply foldM_cons_Ok in H as (st1 & Hk & H).
    apply add_obs_space_Ok in Hk as (box & _ & _ & _ & Hcase).
    rewrite (Hno k) in Hcase by left.
    destruct Hcase as (_ & _ & <- & <-).
    apply IH; [done|]. intros key Hkey. apply Hno. by right.
Qed.

(** X17.  The image size of the wrapper: [img_h] and [img_w] are the
    height and width declared for the last key ending in [color], in
    the order of the metadata, whatever the cameras before it declare;
    they are [-1] when no key ends in [color]. *)
Theorem wrapper_img_size_last_color cameras shape_meta render_obs_keys
    (action_space : Box) (spaces : ObsSpaces) (created : list string) :
  SapienEnvWrapper__init__ cameras shape_meta render_obs_keys
  = Ok (action_space, spaces, created) →
  ((∀ key, key ∈ (obs shape_meta).*1 → endswith key "color" = false) →
   img_h spaces = (-1)%Z ∧ img_w spaces = (-1)%Z)
  ∧ (∀ before key attr after,
       obs shape_meta = before ++ (key, attr) :: after →
       endswith key "color" = true →
       (∀ k, k ∈ after.*1 → endswith k "color" = false) →
       ∃ c h w, attr_shape attr = [c; h; w]
                ∧ img_h spaces = Z.of_nat h ∧ img_w spaces = Z.of_nat w).
Proof.
  unfold SapienEnvWrapper__init__. intros H.
  apply bind_Ok in H as (action_shape & _ & H).
  apply bind_Ok in H as (sp & Hloop & [= _ <- _]). split.
  - intros Hno. by apply add_obs_space_loop_img in Hloop.
  - intros before key attr after Hobs Hcolor Hafter.
    rewrite Hobs, foldM_app in Hloop.
    apply bind_Ok in Hloop as (s1 & _ & Hloop).
    apply foldM_cons_Ok in Hloop as (s2 & Hkey & Hloop).
    apply add_obs_space_Ok in Hkey as (box & _ & _ & _ & Hcase).
    rewrite Hcolor in Hcase. destruct Hcase as (_ & c & h & w & Hsh & Hh & Hw).
    apply add_obs_space_loop_img in Hloop as [-> ->]; [|done].
    by exists c, h, w.
Qed.

(** X15 on metadata with two cameras and an end-effector pose. *)
Lemma wrapper_init_spaces_witness :
  ∃ action_space spaces created,
    SapienEnvWrapper__init__ WrapperExamples.cameras WrapperExamples.shape_meta
      ["right_bottom_view"] = Ok (action_space, spaces, created)
    ∧ (observation_space spaces).*1
      = ["front_view_color"; "right_view_color"; "ee_pos"].
Proof.
  assert (∃ r, SapienEnvWrapper__init__ WrapperExamples.cameras
                 WrapperExamples.shape_meta ["right_bottom_view"] = Ok r)
    as [[[action_space spaces] created] H] by (eexists; vm_compute; reflexivity).
  exists action_space, spaces, created. split; [exact H|].
  apply (wrapper_init_spaces _ _ _ _ _ _ H).
  apply (bool_decide_unpack _). vm_compute. exact I.
Defined.

(** X16 on the metadata of the converter examples, whose camera is
    called [cam]. *)
Lemma wrapper_init_unsupported_witness :
  SapienEnvWrapper__init__ WrapperExamples.cameras Examples.shape_meta
    ["right_bottom_view"]
  = Raise (RuntimeError "Unsupported type cam").
Proof.
  destruct (wrapper_init_unsupported WrapperExamples.cameras Examples.shape_meta
              ["right_bottom_view"] "cam"
              {| attr_shape := [3; 2; 2]; attr_type := Some "rgb" |})
    as [_ H].
  - right. left.
  - reflexivity.
  - reflexivity.
  - reflexivity.
  - apply (H [("eef_pos", {| attr_shape := [3]; attr_type := None |})] []).
    + reflexivity.
    + by eexists.
    + reflexivity.
Defined.

(** X17 on the same metadata: the first camera declares 60 by 80, the
    last one 30 by 40, and that is the image size. *)
Lemma wrapper_img_size_last_color_witness :
  ∃ action_space spaces created,
    SapienEnvWrapper__init__ WrapperExamples.cameras WrapperExamples.shape_meta
      ["right_bottom_view"] = Ok (action_space, spaces, created)
    ∧ ∃ c h w, [3; 30; 40] = [c; h; w]
               ∧ img_h spaces = Z.of_nat h ∧ img_w spaces = Z.of_nat w.
Proof.
  assert (∃ r, SapienEnvWrapper__init__ WrapperExamples.cameras
                 WrapperExamples.shape_meta ["right_bottom_view"] = Ok r)
    as [[[action_space spaces] created] H] by (eexists; vm_compute; reflexivity).
  exists action_space, spaces, created. split; [exact H|].
  destruct (wrapper_img_size_last_color _ _ _ _ _ _ H) as [_ Hlast].
  apply (Hlast [("front_view_color",
                 {| attr_shape := [3; 60; 80]; attr_type := Some "rgb" |})]
           "right_view_color"
           {| attr_shape := [3; 30; 40]; attr_type := Some "rgb" |}
           [("ee_pos", {| attr_shape := [7]; attr_type := None |})]).
  - reflexivity.
  - reflexivity.
  - intros k Hk. apply list_elem_of_singleton in Hk as ->. reflexivity.
Defined.

(** ** The validation split *)

Section ValidationFacts.
Context {A Chunk Sampler : Type}.
Variable SequenceSampler :
  ReplayBuffer A Chunk → nat → nat → nat → list bool → Sampler.
Variable get_val_mask : nat → Q → nat → list bool.

#[local] Abbreviation init_sampling' :=
  (init_sampling SequenceSampler get_val_mask).
#[local] Abbreviation get_validation_dataset' :=
  (get_validation_dataset SequenceSampler).

Lemma fmap_negb_involutive (mask : list bool) : negb <$> (negb <$> mask) = mask.
Proof.
  induction mask as [|b mask IH]; [done|].
  rewrite !fmap_cons, IH. by destruct b.
Qed.

(** X18.  The validation split of a dataset object as [__init__] leaves
    it: the validation set samples exactly the episodes [get_val_mask]
    selected, with the horizon and padding of the training set and over
    the same store; every episode is in exactly one of the two masks;
    and the validation split of the validation set is the training set
    again. *)
Theorem validation_split_round_trip (self : SapienDataset A Chunk)
    (seed : nat) (val_ratio : Q) :
  let train := (self, init_sampling' self seed val_ratio) in
  let val := get_validation_dataset' train in
  let val_mask :=
    get_val_mask (n_episodes (replay_buffer self)) val_ratio seed in
  val.1 = self
  ∧ train_mask val.2 = val_mask
  ∧ sampler val.2
    = SequenceSampler (replay_buffer self) (horizon self) (pad_before self)
        (pad_after self) val_mask
  ∧ (∀ e in_train in_val,
       train_mask train.2 !! e = Some in_train →
       train_mask val.2 !! e = Some in_val → in_train = negb in_val)
  ∧ length (train_mask train.2) = length val_mask
  ∧ get_validation_dataset' val = train.
Proof.
  simpl. unfold get_validation_dataset, init_sampling. simpl.
  rewrite !fmap_negb_involutive. split; [done|]. split; [done|].
  split; [done|]. split; [|split; [by rewrite length_fmap|done]].
  intros e in_train in_val Ht Hv. rewrite list_lookup_fmap, Hv in Ht.
  by injection Ht as <-.
Qed.

End ValidationFacts.

(** ** The key lists of the dataset object *)

Lemma parse_keys_sublist (obs_shape_meta : Dict.t Attr) :
  parse_rgb_keys obs_shape_meta `sublist_of` obs_shape_meta.*1
  ∧ parse_lowdim_keys obs_shape_meta `sublist_of` obs_shape_meta.*1.
Proof. split; apply fmap_sublist, sublist_filter. Qed.

Lemma elem_of_parse_keys (obs_shape_meta : Dict.t Attr) key attr :
  NoDup obs_shape_meta.*1 → (key, attr) ∈ obs_shape_meta →
  (key ∈ parse_rgb_keys obs_shape_meta ↔ type_of attr = "rgb")
  ∧ (key ∈ parse_lowdim_keys obs_shape_meta ↔ type_of attr = "low_dim").
Proof.
  intros Hnd Hin.
  assert (∀ attr', (key, attr') ∈ obs_shape_meta → attr' = attr) as Huniq.
  { intros attr' Hin'.
    apply (dict_elem_of_get _ _ _ Hnd) in Hin, Hin'. congruence. }
  unfold parse_rgb_keys, parse_lowdim_keys. split; split.
  - intros ([k a] & -> & [Ht Hf]%list_elem_of_filter)%list_elem_of_fmap.
    simpl in *. by rewrite <- (Huniq a Hf).
  - intros Ht. apply list_elem_of_fmap. exists (key, attr). split; [done|].
    by apply list_elem_of_filter.
  - intros ([k a] & -> & [Ht Hf]%list_elem_of_filter)%list_elem_of_fmap.
    simpl in *. by rewrite <- (Huniq a Hf).
  - intros Ht. apply list_elem_of_fmap. exists (key, attr). split; [done|].
    by apply list_elem_of_filter.
Qed.

Section InitKeys.
Context {A Frame Chunk : Type}.
Variable to_float32 : A → A.
Variable forward : Np.ndarray A → result (Np.ndarray A).
Variable cv2_resize : Frame → nat → nat → result Frame.
Variable frame_shape : Frame → list nat.
Variable jpeg2k_encode : Frame → result Chunk.
Variable jpeg2k_decode : Chunk → result Frame.
Variable cpu_count : nat.

#[local] Abbreviation DirT := (gmap string (entry A Frame Chunk)).
#[local] Abbreviation init' :=
  (SapienDataset__init__ to_float32 forward cv2_resize frame_shape
     jpeg2k_encode jpeg2k_decode cpu_count).

(** X19.  The key lists of a dataset object, with or without cache:
    [rgb_keys] are the observations declared [rgb], [lowdim_keys] those
    declared [low_dim] or declared without type, both in the order of
    the metadata; no key is in both lists or twice in one, and an
    observation of any other type is in neither. *)
Theorem init_keys_partition sched shape_meta (dir fs : DirT)
    horizon pad_before pad_after legacy use_cache save_fault ds :
  init' sched shape_meta dir horizon pad_before pad_after legacy
    use_cache save_fault = (fs, Ok ds) →
  NoDup (obs shape_meta).*1 →
  NoDup (rgb_keys ds ++ lowdim_keys ds)
  ∧ rgb_keys ds `sublist_of` (obs shape_meta).*1
  ∧ lowdim_keys ds `sublist_of` (obs shape_meta).*1
  ∧ ∀ key attr, (key, attr) ∈ obs shape_meta →
      (key ∈ rgb_keys ds ↔ attr_type attr = Some "rgb")
      ∧ (key ∈ lowdim_keys ds
         ↔ attr_type attr = None ∨ attr_type attr = Some "low_dim").
Proof.
  intros H Hnd. unfold SapienDataset__init__ in H.
  destruct (if use_cache then _ else _) as [fs' [rb|e]]; [|done].
  injection H as _ <-. simpl.
  destruct (parse_keys_sublist (obs shape_meta)) as [Hrgb Hlow].
  split; [|split; [done|split; [done|]]].
  - apply NoDup_app. split; [by eapply sublist_NoDup|].
    split; [|by eapply sublist_NoDup].
    intros key Hr Hl.
    assert (key ∈ (obs shape_meta).*1) as Hkey
      by (eapply elem_of_sublist; [exact Hr|exact Hrgb]).
    apply list_elem_of_fmap in Hkey as ([k attr] & -> & Hin).
    destruct (elem_of_parse_keys _ _ _ Hnd Hin) as [H1 H2].
    apply H1 in Hr. apply H2 in Hl. simpl in *. congruence.
  - intros key attr Hin.
    destruct (elem_of_parse_keys _ _ _ Hnd Hin) as [-> ->].
    unfold type_of. destruct (attr_type attr) as [t|]; simpl.
    + split; [split; congruence|]. split; [by right; congruence|].
      intros [?|?]; congruence.
    + split; [split; congruence|]. split; [by left|done].
Qed.

End InitKeys.

(** X19 on the two-episode directory. *)
Lemma init_keys_partition_witness :
  ∃ ds,
    (MoreExamples.init [] Examples.dir2 false None).2 = Ok ds
    ∧ NoDup (rgb_keys ds ++ lowdim_keys ds).
Proof.
  assert (∃ fs ds, MoreExamples.init [] Examples.dir2 false None = (fs, Ok ds))
    as (fs & ds & H) by (eexists _, _; vm_compute; reflexivity).
  exists ds. split; [by rewrite H|].
  apply (init_keys_partition _ _ _ _ _ _ _ _ _ _ _ _ _ _ _ _ _ _ H).
  apply (bool_decide_unpack _). vm_compute. exact I.
Defined.

(** ** The normalizer of a dataset built in this run *)

Lemma foldM_errors {S X} (f : S → X → result S) (E : exn → Prop)
    (s : S) (l : list X) :
  (∀ s x e, x ∈ l → f s x = Raise e → E e) →
  ∀ e, foldM f s l = Raise e → E e.
Proof.
  revert s. induction l as [|x l IH]; intros s Hf e H; [done|].
  simpl in H. apply bind_Raise in H as [H|(s1 & _ & H)].
  - eapply Hf; [by left|exact H].
  - eapply IH; [|exact H]. intros s' y e' Hy. apply Hf. by right.
Qed.

Section BuiltNormalizer.
Context {Frame Chunk : Type}.
Variable to_float32 : Q → Q.
Variable forward : Np.ndarray Q → result (Np.ndarray Q).
Variable cv2_resize : Frame → nat → nat → result Frame.
Variable frame_shape : Frame → list nat.
Variable jpeg2k_encode : Frame → result Chunk.
Variable jpeg2k_decode : Chunk → result Frame.
Variable cpu_count : nat.
Variable np_std : Np.ndarray Q → list Q.
Variable get_range_normalizer_from_stat : Stat → SingleFieldLinearNormalizer.
Variable get_identity_normalizer_from_stat : Stat → SingleFieldLinearNormalizer.
Variable get_image_range_normalizer : SingleFieldLinearNormalizer.

#[local] Abbreviation DirT := (gmap string (entry Q Frame Chunk)).
#[local] Abbreviation convert' :=
  (_convert_sapein_to_dp_replay to_float32 forward cv2_resize frame_shape
     jpeg2k_encode jpeg2k_decode cpu_count).
#[local] Abbreviation init' :=
  (SapienDataset__init__ to_float32 forward cv2_resize frame_shape
     jpeg2k_encode jpeg2k_decode cpu_count).
#[local] Abbreviation get_normalizer' :=
  (get_normalizer np_std get_range_normalizer_from_stat
     get_identity_normalizer_from_stat get_image_range_normalizer (Chunk:=Chunk)).

Lemma array_to_stats_errors (arr : Np.ndarray Q) e :
  array_to_stats np_std arr = Raise e → e = ValueError.
Proof.
  unfold array_to_stats. destruct (Np.shape arr) as [|n tl]; [congruence|].
  destruct (Np.chunks _ _ _); congruence.
Qed.

Lemma normalizer_from_stat_errors (stat : Stat) e :
  normalizer_from_stat stat = Raise e → e = ValueError.
Proof.
  unfold normalizer_from_stat, vector_max.
  destruct (stat_max stat); [simpl; congruence|].
  destruct (Qabs <$> stat_min stat); simpl; congruence.
Qed.

(** A dataset object on a directory without archive holds a store that
    the converter built. *)
Lemma init_Ok_built sched shape_meta (dir fs : DirT)
    horizon pad_before pad_after legacy use_cache save_fault ds :
  dir !! cache_zarr_path = None →
  init' sched shape_meta dir horizon pad_before pad_after legacy
    use_cache save_fault = (fs, Ok ds) →
  (∃ dir', convert' sched shape_meta dir' None None = Ok (replay_buffer ds))
  ∧ rgb_keys ds = parse_rgb_keys (obs shape_meta)
  ∧ lowdim_keys ds = parse_lowdim_keys (obs shape_meta)
  ∧ use_legacy_normalizer ds = legacy.
Proof.
  intros Hnone H. unfold SapienDataset__init__ in H.
  destruct use_cache.
  - unfold cached_replay_buffer, path_exists in H.
    rewrite lookup_insert_ne in H by discriminate. rewrite Hnone in H.
    rewrite bool_decide_eq_false_2 in H by (by intros [? ?]). simpl in H.
    destruct (convert' sched shape_meta (<[cache_lock_path := LockFile]> dir)
                None None) as [rb|e] eqn:Hrb.
    + destruct save_fault as [e|]; simpl in H.
      * unfold rmtree in H. rewrite lookup_insert_eq in H. simpl in H.
        congruence.
      * injection H as _ <-. simpl. split; [by eexists|done].
    + unfold rmtree in H. rewrite lookup_insert_ne in H by discriminate.
      rewrite Hnone in H. simpl in H. congruence.
  - destruct (convert' sched shape_meta dir None None) as [rb|e] eqn:Hrb;
      simpl in H; [|congruence].
    injection H as _ <-. simpl. split; [by eexists|done].
Qed.

(** X20.  [get_normalizer] on a dataset object constructed on a
    directory without cache archive (so that its store was built by the
    converter from the same metadata): every array it looks up is in the
    store and is a plain array, so it never fails with [KeyError] or
    [TypeError]; the only exceptions are [ValueError] (statistics of an
    array without steps or without entries) and
    [RuntimeError('unsupported')]. *)
Theorem normalizer_of_built_dataset sched shape_meta (dir fs : DirT)
    horizon pad_before pad_after legacy use_cache save_fault ds e :
  dir !! cache_zarr_path = None →
  init' sched shape_meta dir horizon pad_before pad_after legacy
    use_cache save_fault = (fs, Ok ds) →
  get_normalizer' ds = Raise e →
  e = ValueError ∨ e = RuntimeError "unsupported".
Proof.
  intros Hnone Hinit He.
  destruct (init_Ok_built _ _ _ _ _ _ _ _ _ _ _ Hnone Hinit)
    as ([dir' Hrb] & Hrgb & Hlow & Hleg).
  apply store_kinds in Hrb as (Hplain & _ & _).
  assert (∀ key, key ∈ lowdim_keys ds ++ ["action"] →
            ∃ a, replay_buffer_getitem (replay_buffer ds) key = Ok a) as Hget.
  { intros key Hkey. rewrite Hlow in Hkey.
    destruct (Hplain key Hkey) as [a Ha]. exists a.
    unfold replay_buffer_getitem. by rewrite Ha. }
  unfold get_normalizer in He.
  destruct (Hget "action") as [a Ha];
    [apply elem_of_app; right; by left|].
  rewrite Ha in He. cbn [mbind result_bind] in He.
  apply bind_Raise in He as [He|(stat & _ & He)];
    [left; by eapply array_to_stats_errors|].
  apply bind_Raise in He as [He|(n & _ & He)].
  { destruct (use_legacy_normalizer ds).
    - left. by eapply normalizer_from_stat_errors.
    - right. congruence. }
  apply bind_Raise in He as [He|(nz & _ & He)]; [|done].
  revert e He. apply foldM_errors. intros nz key e Hkey He.
  unfold normalize_lowdim in He.
  destruct (Hget key) as [a' Ha']; [apply elem_of_app; by left|].
  rewrite Ha' in He. cbn [mbind result_bind] in He.
  apply bind_Raise in He as [He|(stat' & _ & He)];
    [left; by eapply array_to_stats_errors|].
  apply bind_Raise in He as [He|(n' & _ & He)]; [|done].
  right. destruct (endswith key "pos"); [done|].
  destruct (endswith key "quat"); [done|].
  destruct (endswith key "qpos"); [done|]. congruence.
Qed.

End BuiltNormalizer.

(** X20 on a one-episode directory whose metadata declares a [gripper]
    observation: the normalizer is refused as unsupported. *)
Lemma normalizer_of_built_dataset_witness :
  ∃ fs ds e,
    MoreExamples.init_q true = (fs, Ok ds)
    ∧ get_normalizer NormalizerExamples.std NormalizerExamples.range_normalizer
        NormalizerExamples.identity_normalizer
        NormalizerExamples.image_normalizer ds
      = Raise e
    ∧ (e = ValueError ∨ e = RuntimeError "unsupported").
Proof.
  assert (∃ fs ds,
            MoreExamples.init_q true = (fs, Ok ds)
            ∧ ∃ e, get_normalizer NormalizerExamples.std
                     NormalizerExamples.range_normalizer
                     NormalizerExamples.identity_normalizer
                     NormalizerExamples.image_normalizer ds = Raise e)
    as (fs & ds & Hinit & e & He).
  { eexists _, _. split; [vm_compute; reflexivity|].
    eexists. vm_compute. reflexivity. }
  exists fs, ds, e. split; [exact Hinit|]. split; [exact He|].
  eapply (normalizer_of_built_dataset (fun x : Q => x) MoreExamples.forward6q
            Examples.resize Examples.frame_dims Examples.encode Examples.decode
            4 NormalizerExamples.std NormalizerExamples.range_normalizer
            NormalizerExamples.identity_normalizer
            NormalizerExamples.image_normalizer
            [] MoreExamples.shape_meta_q MoreExamples.dir_q fs 16 0 0 true true
            None ds e).
  - vm_compute. reflexivity.
  - exact Hinit.
  - exact He.
Defined.

(** ** The wrapper's observations and its render cache *)

Section WrapperObservationFacts.
Context {Env Arr Img : Type}.
Variable build_raw_obs : Env → result (gmap string Arr).
Variable to_uint8_hwc : Arr → result Img.
Variable concatenate_axis1 : list Img → result Img.
Variable render_obs_keys : list string.
Variable observation_keys : list string.

#[local] Abbreviation State := (WrapperState Env Img).
#[local] Abbreviation get_observation' :=
  (get_observation build_raw_obs to_uint8_hwc render_obs_keys observation_keys).
#[local] Abbreviation render_image' := (render_image to_uint8_hwc).
#[local] Abbreviation reachable' :=
  (wrapper_reachable build_raw_obs to_uint8_hwc render_obs_keys
     observation_keys).

Lemma copy_obs_loop (raw_obs : gmap string Arr) (keys : list string)
    (obs0 obs : gmap string Arr) :
  foldM (copy_obs raw_obs) obs0 keys = Ok obs →
  (∀ key, key ∈ keys → is_Some (raw_obs !! key))
  ∧ ∀ key, obs !! key
           = if bool_decide (key ∈ keys) then raw_obs !! key else obs0 !! key.
Proof.
  revert obs0. induction keys as [|k keys IH]; intros obs0 H.
  - injection H as <-. split; [by intros key ?%elem_of_nil|].
    intros key. rewrite bool_decide_eq_false_2; [done|apply not_elem_of_nil].
  - apply foldM_cons_Ok in H as (obs1 & Hk & H). unfold copy_obs in Hk.
    apply bind_Ok in Hk as (v & Hv%getitem_Ok & [= <-]).
    apply IH in H as [Hin Hget]. clear IH. split.
    + intros key [->|Hkey]%elem_of_cons; [by eexists|by apply Hin].
    + intros key. rewrite Hget.
      destruct (decide (key ∈ keys)) as [Hkey|Hkey].
      * rewrite !bool_decide_eq_true_2; [done|by right|done].
      * rewrite (bool_decide_eq_false_2 (key ∈ keys)) by done.
        destruct (decide (key = k)) as [->|Hne].
        -- rewrite bool_decide_eq_true_2 by left.
           by rewrite lookup_insert_eq.
        -- rewrite bool_decide_eq_false_2, lookup_insert_ne; [done|done|].
           by apply not_elem_of_cons.
Qed.

Lemma mapM_result_Ok_each {X Y} (f : X → result Y) (l : list X) (ys : list Y) :
  mapM_result f l = Ok ys → Forall2 (fun x y => f x = Ok y) l ys.
Proof.
  revert ys. induction l as [|x l IH]; intros ys H.
  - injection H as <-. constructor.
  - simpl in H. apply bind_Ok in H as (y & Hy & H).
    apply bind_Ok in H as (ys' & Hys' & [= <-]). constructor; [done|by apply IH].
Qed.

Lemma mapM_result_Raise_at {X Y} (f : X → result Y) (before after : list X)
    (x : X) (e : exn) :
  is_ok (mapM_result f before) = true → f x = Raise e →
  mapM_result f (before ++ x :: after) = Raise e.
Proof.
  intros Hb Hx. induction before as [|b before IH]; simpl.
  - by rewrite Hx.
  - simpl in Hb. destruct (f b) as [y|]; [|done]. simpl in *.
    destruct (mapM_result f before) as [ys|]; [|done].
    by rewrite IH.
Qed.

(** X21.  [get_observation] on a given [raw_obs]: when it returns, the
    observation holds exactly the keys of the observation space, each
    with the raw value, and everything else in [raw_obs] is dropped; the
    render cache then holds one image per render key, made from the
    entry [<key>_color].  The cache is built first: a render key whose
    [_color] entry is missing raises [KeyError] and leaves the wrapper
    as it was; a missing observation key raises [KeyError] after the
    cache has been replaced. *)
Theorem get_observation_keys (self : State) (raw_obs : gmap string Arr) :
  (∀ self' obs,
     get_observation' self (Some raw_obs) = (self', Ok obs) →
     (∀ key, obs !! key
             = if bool_decide (key ∈ observation_keys)
               then raw_obs !! key else None)
     ∧ (∀ key, key ∈ observation_keys → is_Some (raw_obs !! key))
     ∧ env self' = env self
     ∧ ∃ cache,
         render_cache self' = Some (Some cache)
         ∧ Forall2 (fun k img => render_image' raw_obs k = Ok img)
             render_obs_keys cache)
  ∧ (∀ before k after,
       render_obs_keys = before ++ k :: after →
       is_ok (mapM_result (render_image' raw_obs) before) = true →
       raw_obs !! (k +:+ "_color") = None →
       get_observation' self (Some raw_obs)
       = (self, Raise (KeyError (k +:+ "_color"))))
  ∧ (∀ cache before key after,
       mapM_result (render_image' raw_obs) render_obs_keys = Ok cache →
       observation_keys = before ++ key :: after →
       (∀ k, k ∈ before → is_Some (raw_obs !! k)) →
       raw_obs !! key = None →
       get_observation' self (Some raw_obs)
       = ({| env := env self; render_cache := Some (Some cache) |},
          Raise (KeyError key))).
Proof.
  split; [|split].
  - intros self' obs H. unfold get_observation in H.
    destruct (mapM_result _ render_obs_keys) as [cache|e] eqn:Hcache;
      [|congruence].
    injection H as <- Hobs. apply copy_obs_loop in Hobs as [Hin Hget].
    split; [intros key; by rewrite Hget, lookup_empty|]. split; [done|].
    split; [done|]. exists cache. split; [done|].
    by apply mapM_result_Ok_each.
  - intros before k after Hkeys Hbefore Hk. unfold get_observation.
    rewrite Hkeys, (mapM_result_Raise_at _ _ _ _ (KeyError (k +:+ "_color")));
      [done|done|].
    unfold render_image, getitem. by rewrite Hk.
  - intros cache before key after Hcache Hkeys Hbefore Hkey.
    unfold get_observation. rewrite Hcache, Hkeys. f_equal.
    assert (∀ obs0, ∃ obs1,
              foldM (copy_obs raw_obs) obs0 before = Ok obs1) as Hloop.
    { clear Hkeys. induction before as [|b before IH]; intros obs0.
      - by eexists.
      - destruct (Hbefore b) as [v Hv]; [by left|].
        destruct (IH (fun k Hk => Hbefore k (proj2 (elem_of_cons _ _ _)
                                               (or_intror Hk)))
                    (<[b := v]> obs0)) as [obs1 Hobs1].
        exists obs1. cbn [foldM].
        assert (copy_obs raw_obs obs0 b = Ok (<[b := v]> obs0)) as ->
          by (unfold copy_obs, getitem; by rewrite Hv).
        exact Hobs1. }
    destruct (Hloop ∅) as [obs1 Hobs1].
    apply (foldM_Raise_at _ _ obs1); [done|].
    unfold copy_obs, getitem. by rewrite Hkey.
Qed.

(** What [render_cache] can be in a state the wrapper reaches. *)
Lemma reachable_cache (self : State) :
  reachable' self →
  render_cache self = None ∨ ∃ cache, render_cache self = Some (Some cache).
Proof.
  induction 1 as [e|self e _ IH|self raw_obs _ IH]; [by left|done|].
  unfold get_observation.
  destruct (match raw_obs with Some r => Ok r | None => _ end) as [raw|];
    [|done].
  destruct (mapM_result _ _) as [cache|]; [|done].
  right. by eexists.
Qed.

(** X22.  The render cache protocol: [__init__] does not set
    [render_cache], so [render] before the first observation raises
    [AttributeError]; the only assignment, in [get_observation], stores
    a list, so in every state the wrapper reaches [render] either raises
    that [AttributeError] or concatenates the cached images of the last
    observation, and its result does not depend on [self.gui.render()]:
    the branch that renders anew is never taken. *)
Theorem render_uses_cache
    (gui_render gui_render2 : Env → result (list (string * Img))) :
  (∀ e, render concatenate_axis1 gui_render render_obs_keys (wrapper_initial e)
        = inr (AttributeError "render_cache"))
  ∧ (∀ self,
       reachable' self →
       render concatenate_axis1 gui_render render_obs_keys self
       = inr (AttributeError "render_cache")
       ∨ ∃ cache,
           render_cache self = Some (Some cache)
           ∧ render concatenate_axis1 gui_render render_obs_keys self
             = match concatenate_axis1 cache with
               | Ok rgbs_sel => inl rgbs_sel
               | Raise e => inr (Exn e)
               end)
  ∧ (∀ self,
       reachable' self →
       render concatenate_axis1 gui_render render_obs_keys self
       = render concatenate_axis1 gui_render2 render_obs_keys self).
Proof.
  split; [done|]. split.
  - intros self [Hc|[cache Hc]]%reachable_cache; unfold render; rewrite Hc.
    + by left.
    + right. by exists cache.
  - intros self [Hc|[cache Hc]]%reachable_cache; unfold render; by rewrite Hc.
Qed.

End WrapperObservationFacts.
